(** * The 8-puzzle solver of CS205-P1: [Board.py] and [Search.py]

    A shallow embedding of the two Python classes, followed by the
    properties of the specification that concern them.

    Modelling conventions.
    - Python integers are [Z].  A board is a list of rows, each a list of
      [Z], exactly as the nested Python lists.
    - A raised exception is a value of [result]: every function that can
      raise returns [result A].
    - A method that mutates [self] returns the new [self] beside its value.
    - The class attribute [Board.final] is mutable global state; it is kept
      in a record [Board.cls] that is passed to the methods reading it.
    - [heapq] is embedded from CPython's [heapq.py] ([heappush], [heappop],
      [_siftdown], [_siftup]) over Python's comparison of [(cost, Board)]
      tuples.
    - A [set] of boards is a [gset] of board contents and a [dict] keyed by
      boards a [gmap], since [Board.__hash__] and [Board.__eq__] look at the
      contents only.
    - A method that prints returns the lines it prints, a row of a board
      being one line.
    - The loops of the two searches take the number of turns they may run;
      a result [None] of the embedding means that the turns ran out. *)

From Stdlib Require Import ZArith List Lia Bool Permutation.
From stdpp Require Import base option list gmap sets.

Set Warnings "-register-all".
Local Open Scope Z_scope.

(** ** Python values and exceptions *)

Module Py.

Inductive exn : Type := TypeError | IndexError | KeyError | SystemExit.

Inductive result (A : Type) : Type :=
| Ok (a : A)
| Raise (e : exn).
Global Arguments Ok {A} a.
Global Arguments Raise {A} e.

Definition bind {A B} (m : result A) (k : A -> result B) : result B :=
  match m with
  | Ok a => k a
  | Raise e => Raise e
  end.

Global Instance result_ret : MRet result := fun _ a => Ok a.
Global Instance result_bind : MBind result := fun _ _ k m => bind m k.

(** [len(l)] *)
Definition len {A} (l : list A) : Z := Z.of_nat (length l).

(** [range(lo, hi)] *)
Definition range (lo hi : Z) : list Z :=
  map (fun i : nat => lo + Z.of_nat i) (seq 0 (Z.to_nat (hi - lo))).

(** The position a subscript [i] denotes in [l]: a negative subscript counts
    from the end, and a subscript outside the list raises [IndexError]. *)
Definition index {A} (l : list A) (i : Z) : result nat :=
  let j := if i <? 0 then i + len l else i in
  if (0 <=? j) && (j <? len l) then Ok (Z.to_nat j) else Raise IndexError.

(** [l[i]] *)
Definition getitem {A} (l : list A) (i : Z) : result A :=
  j ← index l i;
  match l !! j with
  | Some x => Ok x
  | None => Raise IndexError
  end.

(** [l[i] = x] *)
Definition setitem {A} (l : list A) (i : Z) (x : A) : result (list A) :=
  j ← index l i; Ok (<[j:=x]> l).

(** [g[r][c]] *)
Definition getitem2 {A} (g : list (list A)) (r c : Z) : result A :=
  row ← getitem g r; getitem row c.

(** [g[r][c] = x]: the row object [g[r]] is fetched and updated in place. *)
Definition setitem2 {A} (g : list (list A)) (r c : Z) (x : A)
  : result (list (list A)) :=
  row ← getitem g r; row' ← setitem row c x; setitem g r row'.

(** A [for] loop over a list, threading the variables the body assigns; an
    exception in the body leaves the loop. *)
Fixpoint for_ {A B} (l : list A) (body : B -> A -> result B) (acc : B)
  : result B :=
  match l with
  | [] => Ok acc
  | x :: l' => acc' ← body acc x; for_ l' body acc'
  end.

(** A dynamically typed argument, as far as [Board.get_board_size] looks at
    it: an [int] or a [range] object. *)
Inductive value : Type :=
| VInt (z : Z)
| VRange (n : Z).

(** [iter(v)]: an [int] is not iterable. *)
Definition iter (v : value) : result (list Z) :=
  match v with
  | VInt _ => Raise TypeError
  | VRange n => Ok (range 0 n)
  end.

(** [i * v] for an [int] [i]: a [range] cannot be multiplied. *)
Definition mul (i : Z) (v : value) : result Z :=
  match v with
  | VInt z => Ok (i * z)
  | VRange _ => Raise TypeError
  end.

End Py.

Import Py.

(** ** Board.py *)

Module Board.

(** A board: the list of its rows. *)
Abbreviation grid := (list (list Z)).

(** The attributes of a [Board] object.  [_hash] caches the hash of the
    contents and is not observable.  [parent] holds the parent object as it
    was when the child was built: only [parent.state] and [parent.parent]
    are ever read through it, and neither is assigned after construction. *)
Inductive t : Type := mk {
  state : grid;
  children : list t;
  board_size : Z;
  parent : option t;
  m_dist : Z;
  m_tile_count : Z;
  cost : Z;
  depth : Z;
  empty_row : Z;
  empty_col : Z;
  valid_positions : list (Z * Z) }.

Definition set_children (b : t) (v : list t) : t :=
  mk (state b) v (board_size b) (parent b) (m_dist b) (m_tile_count b)
     (cost b) (depth b) (empty_row b) (empty_col b) (valid_positions b).

Definition set_m_dist (b : t) (v : Z) : t :=
  mk (state b) (children b) (board_size b) (parent b) v (m_tile_count b)
     (cost b) (depth b) (empty_row b) (empty_col b) (valid_positions b).

Definition set_m_tile_count (b : t) (v : Z) : t :=
  mk (state b) (children b) (board_size b) (parent b) (m_dist b) v
     (cost b) (depth b) (empty_row b) (empty_col b) (valid_positions b).

Definition set_depth (b : t) (v : Z) : t :=
  mk (state b) (children b) (board_size b) (parent b) (m_dist b)
     (m_tile_count b) (cost b) v (empty_row b) (empty_col b)
     (valid_positions b).

Definition set_valid_positions (b : t) (v : list (Z * Z)) : t :=
  mk (state b) (children b) (board_size b) (parent b) (m_dist b)
     (m_tile_count b) (cost b) (depth b) (empty_row b) (empty_col b) v.

(** The class attributes. *)
Record cls : Type := mkcls { final : grid }.

(** [Board.final] as the class statement sets it. *)
Definition cls0 : cls := mkcls [[1; 2; 3]; [4; 5; 6]; [7; 8; 0]].

(** [Board.__init__]: the scan keeps the last cell holding 0. *)
Definition init (st : grid) (p : option t) : result t :=
  let n := len st in
  e ← for_ (range 0 n) (fun e row =>
         for_ (range 0 n) (fun e col =>
           v ← getitem2 st row col;
           Ok (if v =? 0 then (row, col) else e)) e) (-1, -1);
  Ok (mk st [] n p (-1) (-1) 0 0 (fst e) (snd e) []).

(** [Board.__eq__] *)
Definition eq (self other : t) : bool :=
  bool_decide (state self = state other).

(** [Board.__lt__] *)
Definition lt (self other : t) : bool :=
  if (cost self =? cost other) && bool_decide (state self = state other)
  then depth self <? depth other
  else cost self <? cost other.

(** [Board.get_surrounding_valid_positions]: appends to
    [self.valid_positions]. *)
Definition get_surrounding_valid_positions (self : t) : list (Z * Z) * t :=
  let n := board_size self in
  let vp :=
    fold_left (fun vp i =>
      if (i <? 0) || (i >=? n) then vp
      else
        fold_left (fun vp j =>
          if (j <? 0) || (j >=? n) then vp
          else
            let is_empty_row := empty_row self =? i in
            let is_empty_col := empty_col self =? j in
            if xorb is_empty_row is_empty_col then vp ++ [(i, j)] else vp)
          (range (empty_col self - 1) (empty_col self + 2)) vp)
      (range (empty_row self - 1) (empty_row self + 2))
      (valid_positions self) in
  (vp, set_valid_positions self vp).

(** The body of the loop of [generate_children] for one position. *)
Definition generate_child (visited : option (gset grid)) (self : t)
    (position : Z * Z) : result t :=
  let b := state self in
  let '(row, col) := position in
  v ← getitem2 b row col;
  b ← setitem2 b (empty_row self) (empty_col self) v;
  b ← setitem2 b row col 0;
  if match parent self with
     | Some p => bool_decide (state p = b)
     | None => false
     end
  then Ok self
  else
    child ← init b (Some self);
    let child := set_depth child (1 + depth self) in
    let found :=
      match visited with
      | Some vs => bool_decide (state child ∈ vs)
      | None => false
      end in
    if negb found then Ok (set_children self (children self ++ [child]))
    else Ok self.

(** [Board.generate_children] *)
Definition generate_children (self : t) (visited : option (gset grid))
  : result (list t * t) :=
  if negb (len (children self) =? 0) then Ok (children self, self)
  else
    let self := snd (get_surrounding_valid_positions self) in
    self ← for_ (valid_positions self) (generate_child visited) self;
    Ok (children self, self).

(** [Board.is_final_state] *)
Definition is_final_state (c : cls) (self : t) : bool :=
  bool_decide (state self = final c).

(** [Board.misplaced_tile] *)
Definition misplaced_tile (c : cls) (self : t) : result (Z * t) :=
  if negb (m_tile_count self =? -1) then Ok (m_tile_count self, self)
  else
    let n := board_size self in
    m ← for_ (range 0 n) (fun m row =>
          for_ (range 0 n) (fun m col =>
            v ← getitem2 (state self) row col;
            if negb (v =? 0)
            then v' ← getitem2 (state self) row col;
                 f ← getitem2 (final c) row col;
                 Ok (if negb (v' =? f) then m + 1 else m)
            else Ok m) m) 0;
    Ok (m, set_m_tile_count self m).

(** The goal cell [(r, c)] that [manhattan_distance] computes for tile [k].
    The quotient [k / n] is exact where it is used without [int], and
    [int(k / n)] truncates it. *)
Definition goal_cell (n k : Z) : Z * Z :=
  if k mod n =? 0 then (k / n - 1, n - 1)
  else (Z.quot k n, k mod n - 1).

(** [Board.manhattan_distance] *)
Definition manhattan_distance (self : t) : result (Z * t) :=
  if negb (m_dist self =? -1) then Ok (m_dist self, self)
  else
    let n := board_size self in
    d ← for_ (range 0 n) (fun d row =>
          for_ (range 0 n) (fun d col =>
            k ← getitem2 (state self) row col;
            if k =? 0 then Ok d
            else
              let '(r, c) := goal_cell n k in
              Ok (d + Z.abs (r - row) + Z.abs (c - col))) d) 0;
    Ok (d, set_m_dist self d).

(** [Board.get_cost] on a board that is not [None]. *)
Fixpoint get_cost_of (board : t) : Z :=
  1 + match parent board with
      | None => 0
      | Some p => get_cost_of p
      end.

(** [Board.get_cost] *)
Definition get_cost (board : option t) : Z :=
  match board with
  | None => 0
  | Some b => get_cost_of b
  end.

(** [Board.print_board]: the lines printed, one for each row. *)
Definition print_board (self : t) : list (list Z) := state self.

(** [Board.print_board_from_initial_state] on a board that is not [None]:
    the lines printed, those of the boards higher up first. *)
Fixpoint print_board_from_initial_state_of (board : t) : list (list Z) :=
  match parent board with
  | None => []
  | Some p => print_board_from_initial_state_of p
  end ++ print_board board.

(** [Board.print_board_from_initial_state] *)
Definition print_board_from_initial_state (board : option t)
  : list (list Z) :=
  match board with
  | None => []
  | Some b => print_board_from_initial_state_of b
  end.

(** [Board.get_board_size]: both loops iterate over [size] itself. *)
Definition get_board_size (size : value) (c : cls) : result cls :=
  rows ← iter size;
  for_ rows (fun c i =>
    cols ← iter size;
    for_ cols (fun c j =>
      p ← mul i size;
      g ← setitem2 (final c) i j (p + j + 1);
      Ok (mkcls g)) c) c.

End Board.

(** ** heapq.py (CPython), over an arbitrary [<] *)

Module Heapq.

Section Heap.

Context {A : Type} (lt : A -> A -> bool).

(** The loop of [_siftdown]: follow the path to the root, moving parents
    down until [newitem] fits.  [pos] decreases at each turn, so [pos]
    turns are enough. *)
Fixpoint siftdown_loop (fuel : nat) (heap : list A) (newitem : A)
    (startpos pos : nat) : list A :=
  match fuel with
  | O => <[pos:=newitem]> heap
  | S fuel' =>
      if bool_decide (startpos < pos)%nat then
        let parentpos := Nat.div2 (pos - 1) in
        match heap !! parentpos with
        | Some parent =>
            if lt newitem parent
            then siftdown_loop fuel' (<[pos:=parent]> heap) newitem
                   startpos parentpos
            else <[pos:=newitem]> heap
        | None => <[pos:=newitem]> heap
        end
      else <[pos:=newitem]> heap
  end.

(** [_siftdown(heap, startpos, pos)] *)
Definition _siftdown (heap : list A) (startpos pos : nat) : list A :=
  match heap !! pos with
  | Some newitem => siftdown_loop pos heap newitem startpos pos
  | None => heap
  end.

(** The loop of [_siftup]: bubble the smaller child up until a leaf is
    reached; returns the heap and the position of the leaf. *)
Fixpoint siftup_loop (fuel : nat) (heap : list A) (endpos pos : nat)
  : list A * nat :=
  match fuel with
  | O => (heap, pos)
  | S fuel' =>
      let childpos := (2 * pos + 1)%nat in
      if bool_decide (childpos < endpos)%nat then
        let rightpos := (childpos + 1)%nat in
        let childpos :=
          match heap !! childpos, heap !! rightpos with
          | Some l, Some r =>
              if bool_decide (rightpos < endpos)%nat && negb (lt l r)
              then rightpos else childpos
          | _, _ => childpos
          end in
        match heap !! childpos with
        | Some c => siftup_loop fuel' (<[pos:=c]> heap) endpos childpos
        | None => (heap, pos)
        end
      else (heap, pos)
  end.

(** [_siftup(heap, pos)] *)
Definition _siftup (heap : list A) (pos : nat) : list A :=
  match heap !! pos with
  | Some newitem =>
      let '(heap', leaf) := siftup_loop (length heap) heap (length heap) pos in
      _siftdown (<[leaf:=newitem]> heap') pos leaf
  | None => heap
  end.

(** [heappush(heap, item)] *)
Definition heappush (heap : list A) (item : A) : list A :=
  let heap := heap ++ [item] in
  _siftdown heap 0 (length heap - 1).

(** [heappop(heap)]: [heap.pop()] raises [IndexError] on an empty list. *)
Definition heappop (heap : list A) : result (A * list A) :=
  match last heap with
  | None => Raise IndexError
  | Some lastelt =>
      match removelast heap with
      | [] => Ok (lastelt, [])
      | returnitem :: rest =>
          Ok (returnitem, _siftup (lastelt :: rest) 0)
      end
  end.

End Heap.

End Heapq.

(** ** Search.py *)

Module Search.

Definition UNIFORM_COST : Z := 0.
Definition A_STAR : Z := 1.
Definition MISPLACED_TILE : Z := 0.
Definition MANHATTAN_DISTANCE : Z := 1.

(** The attributes of a [Search] object; [start_time] and [end_time] hold
    wall-clock readings and are left out. *)
Record t : Type := mk {
  algorithm : Z;
  heuristic : Z;
  initial_state : Board.grid;
  max_queue_size : Z;
  depth : Z;
  count_nodes_expanded : Z }.

Definition set_max_queue_size (s : t) (v : Z) : t :=
  mk (algorithm s) (heuristic s) (initial_state s) v (depth s)
     (count_nodes_expanded s).

Definition set_depth (s : t) (v : Z) : t :=
  mk (algorithm s) (heuristic s) (initial_state s) (max_queue_size s) v
     (count_nodes_expanded s).

Definition set_count_nodes_expanded (s : t) (v : Z) : t :=
  mk (algorithm s) (heuristic s) (initial_state s) (max_queue_size s)
     (depth s) v.

(** [Search.__init__]: [exit(-1)] raises [SystemExit]. *)
Definition init (algorithm heuristic : Z) (initial_state : Board.grid)
  : result t :=
  if negb (algorithm =? A_STAR) && negb (algorithm =? UNIFORM_COST)
  then Raise SystemExit
  else if (algorithm =? A_STAR)
          && (negb (heuristic =? MANHATTAN_DISTANCE)
              && negb (heuristic =? MISPLACED_TILE))
  then Raise SystemExit
  else Ok (mk algorithm heuristic initial_state 0 0 0).

(** [Search.get_heuristic_cost]; the node's memo field is updated. *)
Definition get_heuristic_cost (c : Board.cls) (self : t)
    (node : option Board.t) : result (Z * option Board.t) :=
  match node with
  | None => Ok (0, None)
  | Some n =>
      if heuristic self =? MANHATTAN_DISTANCE then
        r ← Board.manhattan_distance n; Ok (fst r, Some (snd r))
      else if heuristic self =? MISPLACED_TILE then
        r ← Board.misplaced_tile c n; Ok (fst r, Some (snd r))
      else Ok (0, Some n)
  end.

(** [Search.expand] *)
Definition expand (board : Board.t) (visited : option (gset Board.grid))
  : result (list Board.t * Board.t) :=
  Board.generate_children board visited.

(** An entry of the frontier: the tuple [(cost, board)]. *)
Definition entry : Type := Z * Board.t.

(** [x < y] on such tuples: the first components that differ (by [==])
    decide, and equal tuples are not less. *)
Definition entry_lt (x y : entry) : bool :=
  if negb (fst x =? fst y) then fst x <? fst y
  else if negb (Board.eq (snd x) (snd y)) then Board.lt (snd x) (snd y)
  else false.

Definition heappush := Heapq.heappush entry_lt.
Definition heappop := Heapq.heappop entry_lt.

(** The update of [max_queue_size] at the end of a turn of either loop. *)
Definition update_max_queue_size (self : t) (nodes : list entry) : t :=
  if len nodes >? max_queue_size self
  then set_max_queue_size self (len nodes)
  else self.

(** *** Uniform Cost Search *)

(** The local variables of [uc_search] and [self]. *)
Record uc_state : Type := mkuc {
  uc_nodes : list entry;
  uc_visited : gset Board.grid;
  uc_self : t }.

(** One turn of the [while] loop of [uc_search]: [inr b] is [return b]. *)
Definition uc_body (c : Board.cls) (st : uc_state)
  : result (uc_state + Board.t) :=
  p ← heappop (uc_nodes st);
  let '((cost, b), nodes) := p in
  if Board.is_final_state c b then Ok (inr b)
  else
    let visited := {[Board.state b]} ∪ uc_visited st in
    r ← expand b (Some visited);
    let children := fst r in
    let self :=
      set_count_nodes_expanded (uc_self st)
        (count_nodes_expanded (uc_self st) + 1) in
    let nodes :=
      fold_left (fun nodes child => heappush nodes (1 + cost, child))
        children nodes in
    Ok (inl (mkuc nodes visited (update_max_queue_size self nodes))).

(** The [while] loop of [uc_search], for at most [fuel] turns; [None] when
    the turns run out. *)
Fixpoint uc_loop (c : Board.cls) (fuel : nat) (st : uc_state)
  : option (result (option Board.t * t)) :=
  match fuel with
  | O => None
  | S fuel' =>
      if len (uc_nodes st) >? 0 then
        match uc_body c st with
        | Raise e => Some (Raise e)
        | Ok (inl st') => uc_loop c fuel' st'
        | Ok (inr b) => Some (Ok (Some b, uc_self st))
        end
      else Some (Ok (None, uc_self st))
  end.

(** The state of [uc_search] when the loop is entered. *)
Definition uc_start (self : t) : result uc_state :=
  root ← Board.init (initial_state self) None;
  Ok (mkuc (heappush [] (0, root)) ∅ self).

(** [Search.uc_search] *)
Definition uc_search (c : Board.cls) (fuel : nat) (self : t)
  : option (result (option Board.t * t)) :=
  match uc_start self with
  | Raise e => Some (Raise e)
  | Ok st => uc_loop c fuel st
  end.

(** *** A* *)

Record as_state : Type := mkas {
  as_nodes : list entry;
  as_g_x : gmap Board.grid Z;
  as_visited : gset (Z * Board.grid);
  as_self : t }.

(** [g_x[b]], raising [KeyError] for a missing key. *)
Definition g_get (g_x : gmap Board.grid Z) (b : Board.t) : result Z :=
  match g_x !! Board.state b with
  | Some v => Ok v
  | None => Raise KeyError
  end.

(** The body of [for child in children] in [astar_search]. *)
Definition astar_child (c : Board.cls) (b : Board.t) (st : as_state)
    (child : Board.t) : result as_state :=
  gb ← g_get (as_g_x st) b;
  let child_g_x := 1 + gb in
  let g_x :=
    if negb (bool_decide (Board.state child ∈ dom (as_g_x st)))
    then <[Board.state child := 100000000]> (as_g_x st)
    else as_g_x st in
  gc ← g_get g_x child;
  if child_g_x <? gc then
    let g_x := <[Board.state child := child_g_x]> g_x in
    r ← get_heuristic_cost c (as_self st) (Some child);
    let h_x := fst r in
    let child := default child (snd r) in
    gc' ← g_get g_x child;
    let child_total_cost := h_x + gc' in
    let n := (child_total_cost, Board.state child) in
    if negb (bool_decide (n ∈ as_visited st)) then
      Ok (mkas (heappush (as_nodes st) (child_total_cost, child)) g_x
               ({[n]} ∪ as_visited st) (as_self st))
    else Ok (mkas (as_nodes st) g_x (as_visited st) (as_self st))
  else Ok (mkas (as_nodes st) g_x (as_visited st) (as_self st)).

(** One turn of the [while] loop of [astar_search]. *)
Definition astar_body (c : Board.cls) (st : as_state)
  : result (as_state + Board.t) :=
  p ← heappop (as_nodes st);
  let '((cost, b), nodes) := p in
  if Board.is_final_state c b then Ok (inr b)
  else
    r ← expand b None;
    let children := fst r in
    let self :=
      set_count_nodes_expanded (as_self st)
        (count_nodes_expanded (as_self st) + 1) in
    st' ← for_ children (astar_child c b)
            (mkas nodes (as_g_x st) (as_visited st) self);
    Ok (inl (mkas (as_nodes st') (as_g_x st') (as_visited st')
               (update_max_queue_size (as_self st') (as_nodes st')))).

Fixpoint astar_loop (c : Board.cls) (fuel : nat) (st : as_state)
  : option (result (option Board.t * t)) :=
  match fuel with
  | O => None
  | S fuel' =>
      if len (as_nodes st) >? 0 then
        match astar_body c st with
        | Raise e => Some (Raise e)
        | Ok (inl st') => astar_loop c fuel' st'
        | Ok (inr b) => Some (Ok (Some b, as_self st))
        end
      else Some (Ok (None, as_self st))
  end.

(** The state of [astar_search] when the loop is entered. *)
Definition astar_start (self : t) : result as_state :=
  board_start ← Board.init (initial_state self) None;
  Ok (mkas (heappush [] (0, board_start))
        (<[Board.state board_start := 0]> ∅) ∅ self).

(** [Search.astar_search] *)
Definition astar_search (c : Board.cls) (fuel : nat) (self : t)
  : option (result (option Board.t * t)) :=
  match astar_start self with
  | Raise e => Some (Raise e)
  | Ok st => astar_loop c fuel st
  end.

(** What [print_search_stats] prints, the elapsed time apart. *)
Inductive report : Type :=
| NotSolvable (nodes_expanded max_queue : Z)
| Solved (solution_depth nodes_expanded max_queue : Z).

(** [Search.print_search_stats] *)
Definition print_search_stats (self : t) (node : option Board.t)
  : t * report :=
  match node with
  | None =>
      (self, NotSolvable (count_nodes_expanded self) (max_queue_size self))
  | Some n =>
      let self := set_depth self (Board.get_cost (Board.parent n)) in
      (self,
       Solved (depth self) (count_nodes_expanded self) (max_queue_size self))
  end.

(** [Search.search] *)
Definition search (c : Board.cls) (fuel : nat) (self : t)
  : option (result (option Board.t * t * report)) :=
  let self := mk (algorithm self) (heuristic self) (initial_state self) 0 0 0 in
  let run :=
    if algorithm self =? UNIFORM_COST then uc_search c fuel self
    else if algorithm self =? A_STAR then astar_search c fuel self
    else Some (Ok (None, self)) in
  match run with
  | None => None
  | Some (Raise e) => Some (Raise e)
  | Some (Ok (final_node, self)) =>
      let '(self, rep) := print_search_stats self final_node in
      Some (Ok (final_node, self, rep))
  end.

End Search.

(** * Properties *)

(** ** Specification-level notions *)

(** The number of parent links from a board to the root of its chain. *)
Fixpoint parent_links (b : Board.t) : Z :=
  match Board.parent b with
  | None => 0
  | Some p => 1 + parent_links p
  end.

(** A root object over the goal contents, as [Board(final, None)] builds
    it. *)
Definition goal_root : Board.t :=
  Board.mk (Board.final Board.cls0) [] 3 None (-1) (-1) 0 0 2 2 [].

(** A grid of [n] rows of [n] cells. *)
Definition square (n : Z) (g : Board.grid) : Prop :=
  len g = n /\ Forall (fun row => len row = n) g.

(** The elements of a list beside their positions, counted from [k]. *)
Fixpoint enum_from {A} (k : Z) (l : list A) : list (Z * A) :=
  match l with
  | [] => []
  | x :: l' => (k, x) :: enum_from (k + 1) l'
  end.

(** The cells of a grid in row-major order: row, column, value. *)
Definition cells (g : Board.grid) : list (Z * Z * Z) :=
  flat_map (fun ir => map (fun jv => (ir.1, jv.1, jv.2)) (enum_from 0 ir.2))
    (enum_from 0 g).

(** The value at a position of the grid. *)
Definition cell (g : Board.grid) (p : Z * Z) : option Z :=
  if (0 <=? p.1) && (0 <=? p.2)
  then g !! Z.to_nat p.1 ≫= fun row => row !! Z.to_nat p.2
  else None.

(** The grid with [v] at position [p]. *)
Definition put (g : Board.grid) (p : Z * Z) (v : Z) : Board.grid :=
  alter (fun row => <[Z.to_nat p.2:=v]> row) (Z.to_nat p.1) g.

(** The grid with the values at [p] and [q] exchanged. *)
Definition swap_cells (g : Board.grid) (p q : Z * Z) : Board.grid :=
  match cell g p, cell g q with
  | Some a, Some b => put (put g p b) q a
  | _, _ => g
  end.

Definition in_bounds (n : Z) (p : Z * Z) : Prop :=
  0 <= p.1 < n /\ 0 <= p.2 < n.

(** [q] is one of the four non-diagonal neighbours of [p]. *)
Definition orthogonal (p q : Z * Z) : Prop :=
  Z.abs (p.1 - q.1) + Z.abs (p.2 - q.2) = 1.

(** [g'] is [g] after one move: the blank, at [p], is exchanged with an
    orthogonal neighbour inside the [n] by [n] grid. *)
Definition slide_from (n : Z) (g : Board.grid) (p : Z * Z)
    (g' : Board.grid) : Prop :=
  exists q, in_bounds n q /\ orthogonal p q /\ g' = swap_cells g p q.

(** The blank is at a corner of the [n] by [n] grid. *)
Definition at_corner (n : Z) (p : Z * Z) : Prop :=
  (p.1 = 0 \/ p.1 = n - 1) /\ (p.2 = 0 \/ p.2 = n - 1).

(** The state of an object on which [generate_children] has not run yet:
    the attributes as [__init__] leaves them, whatever the depth. *)
Definition unexpanded (n : Z) (b : Board.t) : Prop :=
  square n (Board.state b) /\ Board.board_size b = n /\
  Board.children b = [] /\ Board.valid_positions b = [] /\
  cell (Board.state b) (Board.empty_row b, Board.empty_col b) = Some 0.

(** The one by one board. *)
Definition board_1x1 : Board.t :=
  Board.mk [[0]] [] 1 None (-1) (-1) 0 0 0 0 [].

(** The bounds test of [get_surrounding_valid_positions]. *)
Definition inside (n i : Z) : bool := negb ((i <? 0) || (i >=? n)).

Definition candidates (p : Z * Z) : list (Z * Z) :=
  [(p.1 - 1, p.2); (p.1, p.2 - 1); (p.1, p.2 + 1); (p.1 + 1, p.2)].

(** A successor object of [b] over the contents [s], as the loop of
    [generate_children] builds it. *)
Definition child_of (b : Board.t) (s : Board.grid) (k : Board.t) : Prop :=
  exists p er ec,
    k = Board.mk s [] (Board.board_size b) (Some p) (-1) (-1) 0
          (1 + Board.depth b) er ec [] /\
    Board.state p = Board.state b /\ Board.parent p = Board.parent b /\
    cell s (er, ec) = Some 0.

(** The test of [generate_children] that drops a candidate. *)
Definition dropped (visited : option (gset Board.grid)) (b : Board.t)
    (s : Board.grid) : bool :=
  match Board.parent b with
  | Some p => bool_decide (Board.state p = s)
  | None => false
  end
  || match visited with
     | Some vs => bool_decide (s ∈ vs)
     | None => false
     end.

Definition blank (b : Board.t) : Z * Z := (Board.empty_row b, Board.empty_col b).

Definition sumZ (l : list Z) : Z := fold_right Z.add 0 l.

(** What one cell adds to [m_dist] in [manhattan_distance]. *)
Definition manhattan_term (n : Z) (c : Z * Z * Z) : Z :=
  if c.2 =? 0 then 0
  else Z.abs ((Board.goal_cell n c.2).1 - c.1.1)
       + Z.abs ((Board.goal_cell n c.2).2 - c.1.2).

(** What one cell adds to [m_tile_count] in [misplaced_tile]. *)
Definition misplaced_term (fin : Board.grid) (c : Z * Z * Z) : Z :=
  if negb (c.2 =? 0) && negb (bool_decide (Some c.2 = cell fin c.1)) then 1
  else 0.

(** The Manhattan distance as the specification words it: the sum over the
    nonzero cells of the distance to the goal position of their value. *)
Definition manhattan_spec (n : Z) (g : Board.grid) : Z :=
  sumZ (map (fun c => Z.abs (c.1.1 - (c.2 - 1) / n)
                      + Z.abs (c.1.2 - (c.2 - 1) mod n))
          (List.filter (fun c => negb (c.2 =? 0)) (cells g))).

(** The number of misplaced tiles as the specification words it: the cells
    whose value is nonzero and differs from the goal at that position. *)
Definition misplaced_spec (fin g : Board.grid) : Z :=
  len (List.filter (fun c => negb (c.2 =? 0)
                             && negb (bool_decide (Some c.2 = cell fin c.1)))
         (cells g)).

(** The goal of dimension [n]: 1, 2, ... in row-major order, and 0 in the
    last cell. *)
Definition canonical_goal (n : Z) : Board.grid :=
  map (fun i => map (fun j => if (i =? n - 1) && (j =? n - 1) then 0
                              else i * n + j + 1) (range 0 n)) (range 0 n).

(** The cells of the board are the numbers [0 .. n*n-1], each once. *)
Definition permutation_board (n : Z) (g : Board.grid) : Prop :=
  Permutation (concat g) (range 0 (n * n)).

(** The memo fields of an object hold the sentinel or the value computed at
    an earlier call. *)
Definition memo_ok (c : Board.cls) (b : Board.t) : Prop :=
  (Board.m_dist b = -1 \/
   Board.m_dist b = sumZ (map (manhattan_term (Board.board_size b))
                            (cells (Board.state b)))) /\
  (Board.m_tile_count b = -1 \/
   Board.m_tile_count b = sumZ (map (misplaced_term (Board.final c))
                                  (cells (Board.state b)))).

(** An object of the class over an [n] by [n] grid. *)
Definition board_object (n : Z) (c : Board.cls) (b : Board.t) : Prop :=
  square n (Board.state b) /\ Board.board_size b = n /\ memo_ok c b.

(** The goal grid can be read wherever the board holds a tile. *)
Definition covers (fin g : Board.grid) : Prop :=
  forall q v, cell g q = Some v -> v <> 0 -> is_Some (cell fin q).

(** The two by two board one move away from its own goal. *)
Definition board_2x2 : Board.t :=
  Board.mk [[1; 2]; [3; 0]] [] 2 None (-1) (-1) 0 0 1 1 [].

(** The heap invariant of [heapq]: no element is below its parent, the
    parent of position [j] being position [(j - 1) >> 1]. *)
Definition heap_ok {A} (key : A -> Z) (h : list A) : Prop :=
  forall (j : nat) x y, (1 <= j)%nat ->
    h !! j = Some x -> h !! Nat.div2 (j - 1) = Some y -> key y <= key x.

(** [c] is the position of a child of position [p]. *)
Definition child_pos (p c : nat) : Prop :=
  (c = 2 * p + 1 \/ c = 2 * p + 2)%nat.

(** The state of the loop of [_siftdown]: the heap is in order but for the
    edge above [pos], and [newitem] may be put at [pos] as far as the
    elements below [pos] are concerned. *)
Definition sift_down_inv {A} (key : A -> Z) (heap : list A) (newitem : A)
    (pos : nat) : Prop :=
  (forall (j : nat) x y, (1 <= j)%nat -> j <> pos ->
     heap !! j = Some x -> heap !! Nat.div2 (j - 1) = Some y ->
     key y <= key x) /\
  (forall c x, child_pos pos c -> heap !! c = Some x ->
     key newitem <= key x) /\
  (forall c x y, child_pos pos c -> (1 <= pos)%nat ->
     heap !! c = Some x -> heap !! Nat.div2 (pos - 1) = Some y ->
     key y <= key x).

(** The state of the loop of [_siftup]: the heap is in order but for the
    edges below [pos], and the children of [pos] are not below the parent
    of [pos]. *)
Definition sift_up_inv {A} (key : A -> Z) (heap : list A) (pos : nat)
  : Prop :=
  (forall (j : nat) x y, (1 <= j)%nat -> Nat.div2 (j - 1) <> pos ->
     heap !! j = Some x -> heap !! Nat.div2 (j - 1) = Some y ->
     key y <= key x) /\
  (forall c x y, child_pos pos c -> (1 <= pos)%nat ->
     heap !! c = Some x -> heap !! Nat.div2 (pos - 1) = Some y ->
     key y <= key x).

(** The [cost] attribute is 0 on the object, on its ancestors and on the
    objects of its [children] list, and so on below them. *)
Fixpoint cost_zero (b : Board.t) : Prop :=
  Board.cost b = 0 /\
  match Board.parent b with
  | None => True
  | Some p => cost_zero p
  end /\
  (fix all (l : list Board.t) : Prop :=
     match l with
     | [] => True
     | k :: l' => cost_zero k /\ all l'
     end) (Board.children b).

(** The states of [uc_search] at the head of its loop, in the order a run
    over the initial state of [self] goes through them. *)
Inductive uc_reach (c : Board.cls) (self : Search.t) : Search.uc_state -> Prop :=
| uc_reach_start st :
    Search.uc_start self = Ok st -> uc_reach c self st
| uc_reach_step st st' :
    uc_reach c self st -> Search.uc_nodes st <> [] ->
    Search.uc_body c st = Ok (inl st') -> uc_reach c self st'.

(** The same for [astar_search]. *)
Inductive as_reach (c : Board.cls) (self : Search.t) : Search.as_state -> Prop :=
| as_reach_start st :
    Search.astar_start self = Ok st -> as_reach c self st
| as_reach_step st st' :
    as_reach c self st -> Search.as_nodes st <> [] ->
    Search.astar_body c st = Ok (inl st') -> as_reach c self st'.

(** The contents of the boards that the loop of [uc_search] expands (pops,
    finds not final and passes to [expand]), in order, over at most [fuel]
    turns. *)
Fixpoint uc_expanded (c : Board.cls) (fuel : nat) (st : Search.uc_state)
  : list Board.grid :=
  match fuel with
  | O => []
  | S fuel' =>
      if len (Search.uc_nodes st) >? 0 then
        match Search.heappop (Search.uc_nodes st), Search.uc_body c st with
        | Ok (e, _), Ok (inl st') =>
            Board.state e.2 :: uc_expanded c fuel' st'
        | _, _ => []
        end
      else []
  end.

(** What a finished search returns, as far as the statistics go: the
    contents of the board returned and the depth reported for it, and the
    number of nodes expanded. *)
Definition outcome (r : option (result (option Board.t * Search.t)))
  : option (option (Board.grid * Z) * Z) :=
  match r with
  | Some (Ok (b, self)) =>
      Some (match b with
            | Some b => Some (Board.state b, Board.get_cost (Board.parent b))
            | None => None
            end,
            Search.count_nodes_expanded self)
  | _ => None
  end.

(** A start seven moves away from the goal. *)
Definition start_7 : Board.grid := [[1; 3; 6]; [4; 2; 8]; [7; 0; 5]].

(** The board six moves away from [start_7] round either side of the lower
    left block. *)
Definition twice_6 : Board.grid := [[1; 3; 6]; [0; 7; 8]; [2; 4; 5]].

(** No successor has been generated from the object yet. *)
Definition no_children (b : Board.t) : Prop :=
  Board.children b = [] /\ Board.valid_positions b = [].

(** The successor of the goal root with the blank moved up. *)
Definition board_up : Board.t :=
  Board.mk [[1; 2; 3]; [4; 5; 0]; [7; 8; 6]] [] 3 (Some goal_root) (-1) (-1)
    0 1 1 2 [].

(** A visited set holding the contents of the goal. *)
Definition goal_visited : gset Board.grid := {[Board.final Board.cls0]}.

(** The state of [uc_search] on [start_7] when its loop is entered, and
    after the first turn. *)
Definition state_7_0 : Search.uc_state :=
  Eval vm_compute in
    match Search.uc_start (Search.mk Search.UNIFORM_COST 0 start_7 0 0 0) with
    | Ok st => st
    | Raise _ => Search.mkuc [] ∅ (Search.mk 0 0 [] 0 0 0)
    end.

Definition state_7_1 : Search.uc_state :=
  Eval vm_compute in
    match Search.uc_body Board.cls0 state_7_0 with
    | Ok (inl st) => st
    | _ => state_7_0
    end.

(** A board of the 8-puzzle: three rows of three cells holding 0 to 8, each
    once. *)
Definition valid3 (g : Board.grid) : Prop :=
  square 3 g /\ permutation_board 3 g.

(** One move of the puzzle: the blank is exchanged with an orthogonal
    neighbour. *)
Definition move (g g' : Board.grid) : Prop :=
  exists p, cell g p = Some 0 /\ slide_from 3 g p g'.

(** [reach s0 k s]: [s] is [k] moves away from [s0]. *)
Inductive reach (s0 : Board.grid) : Z -> Board.grid -> Prop :=
| reach_0 : reach s0 0 s0
| reach_S k s s' : reach s0 k s -> move s s' -> reach s0 (k + 1) s'.

(** [k] is the least number of moves from [s0] to [s]. *)
Definition shortest (s0 : Board.grid) (k : Z) (s : Board.grid) : Prop :=
  reach s0 k s /\ forall k', reach s0 k' s -> k <= k'.

(** What the search loops use of the successors of a board: [kids] are the
    objects [generate_children] returns for [b] under the filter. *)
Definition kids_of (visited : option (gset Board.grid)) (b : Board.t)
    (kids : list Board.t) : Prop :=
  (forall k, k ∈ kids ->
     move (Board.state b) (Board.state k) /\
     dropped visited b (Board.state k) = false /\
     unexpanded 3 k /\ valid3 (Board.state k) /\ Board.cost k = 0 /\
     Board.m_dist k = -1 /\ Board.m_tile_count k = -1 /\
     parent_links k = parent_links b + 1 /\
     exists p, Board.parent k = Some p /\ Board.state p = Board.state b) /\
  (forall s, move (Board.state b) s -> dropped visited b s = false ->
     exists k, k ∈ kids /\ Board.state k = s) /\
  (length kids <= 4)%nat.

(** The frontier entries are compared on boards whose [cost] is 0. *)
Definition cost0 (e : Search.entry) : Prop := Board.cost e.2 = 0.

(** An entry of the frontier of [uc_search] started on [s0], with the
    visited set [vs]: its priority is the length of its parent chain, which
    is a path of moves from [s0], and its parent has been expanded. *)
Definition uc_entry_ok (s0 : Board.grid) (vs : gset Board.grid)
    (e : Search.entry) : Prop :=
  unexpanded 3 e.2 /\ valid3 (Board.state e.2) /\ cost0 e /\
  e.1 = parent_links e.2 /\ reach s0 e.1 (Board.state e.2) /\
  forall p, Board.parent e.2 = Some p -> Board.state p ∈ vs.

(** Every board that is not visited yet and is the start or follows a
    visited board on a shortest path is in the frontier at its distance. *)
Definition uc_front (s0 : Board.grid) (vs : gset Board.grid)
    (nodes : list Search.entry) : Prop :=
  forall k y, shortest s0 k y -> y ∉ vs ->
    (k = 0 \/ exists x, x ∈ vs /\ shortest s0 (k - 1) x /\ move x y) ->
    exists b, (k, b) ∈ nodes /\ Board.state b = y.

(** The invariant of the loop of [uc_search] started on [s0], the goal
    being [dist] moves away. *)
Definition uc_inv (s0 : Board.grid) (dist : Z) (st : Search.uc_state) : Prop :=
  heap_ok fst (Search.uc_nodes st) /\
  Forall (uc_entry_ok s0 (Search.uc_visited st)) (Search.uc_nodes st) /\
  (Board.final Board.cls0 ∉ Search.uc_visited st) /\
  uc_front s0 (Search.uc_visited st) (Search.uc_nodes st) /\
  Forall (fun e => e.1 <= dist + 1) (Search.uc_nodes st).

(** The measure that decreases at each turn of the loop of [uc_search]. *)
Definition uc_weight (dist : Z) (nodes : list Search.entry) : Z :=
  sumZ (map (fun e => 5 ^ (dist + 1 - e.1)) nodes).

(** The value [get_heuristic_cost] returns for a board of contents [s]
    under the heuristic [heur], against the goal of the class. *)
Definition h_of (heur : Z) (s : Board.grid) : Z :=
  if heur =? Search.MANHATTAN_DISTANCE then
    sumZ (map (manhattan_term 3) (cells s))
  else if heur =? Search.MISPLACED_TILE then
    sumZ (map (misplaced_term (Board.final Board.cls0)) (cells s))
  else 0.

(** [k'] is the object [k] but for its memo fields. *)
Definition same_node (k k' : Board.t) : Prop :=
  Board.state k' = Board.state k /\ Board.parent k' = Board.parent k /\
  Board.children k' = Board.children k /\
  Board.valid_positions k' = Board.valid_positions k /\
  Board.board_size k' = Board.board_size k /\ Board.cost k' = Board.cost k /\
  Board.empty_row k' = Board.empty_row k /\ Board.empty_col k' = Board.empty_col k.

(** A number for each valid board that tells them apart: the first eight
    cells, read in base 9. *)
Definition board_code (g : Board.grid) : Z :=
  fold_right (fun x acc => x + 9 * acc) 0 (take 8 (concat g)).

(** The lists of [n] digits below 9. *)
Fixpoint tuples (n : nat) : list (list Z) :=
  match n with
  | O => [[]]
  | S n' => flat_map (fun x => map (cons x) (tuples n')) (range 0 9)
  end.

(** A list that holds every 3 by 3 grid of digits below 9. *)
Definition all_boards : list Board.grid :=
  map (fun l => [take 3 l; take 3 (drop 3 l); drop 6 l]) (tuples 9).

(** [g_x.get(s, 100000000)]: the sentinel stands for a missing key. *)
Definition g_of (g_x : gmap Board.grid Z) (s : Board.grid) : Z :=
  default 100000000 (g_x !! s).

(** The sum of [g_x] over all boards. *)
Definition as_potential (g_x : gmap Board.grid Z) : Z :=
  sumZ (map (g_of g_x) all_boards).

(** The measure that decreases at each turn of the loop of
    [astar_search]. *)
Definition as_weight (nodes : list Search.entry) (g_x : gmap Board.grid Z) : Z :=
  len nodes + 2 * as_potential g_x.

(** An entry of the frontier of [astar_search] started on [s0]: its parent
    chain is a path of moves from [s0], its priority is the heuristic of its
    board plus the length of that path, and [g_x] is no greater than the
    length, for the board and, by one, for its parent. *)
Definition as_entry_ok (s0 : Board.grid) (heur : Z) (g : gmap Board.grid Z)
    (e : Search.entry) : Prop :=
  unexpanded 3 e.2 /\ valid3 (Board.state e.2) /\ cost0 e /\
  reach s0 (parent_links e.2) (Board.state e.2) /\
  (e.1 = h_of heur (Board.state e.2) + parent_links e.2 \/
   (parent_links e.2 = 0 /\ e.1 = 0)) /\
  is_Some (g !! Board.state e.2) /\
  g_of g (Board.state e.2) <= parent_links e.2 /\
  g_of g (Board.state e.2) < 100000000 /\
  forall p, Board.parent e.2 = Some p ->
    g_of g (Board.state p) <= parent_links e.2 - 1.

(** A value of [g_x] below the sentinel is the length of a path from the
    start. *)
Definition g_ok (s0 : Board.grid) (g : gmap Board.grid Z) : Prop :=
  forall s, g_of g s = 100000000 \/
    (0 <= g_of g s < 100000000 /\ reach s0 (g_of g s) s).

(** The priorities in [visited] are not below the present ones. *)
Definition visited_ok (heur : Z) (g : gmap Board.grid Z)
    (visited : gset (Z * Board.grid)) : Prop :=
  forall f s, (f, s) ∈ visited -> h_of heur s + g_of g s <= f.

(** A board that has a value in [g_x] and is not settled is in the frontier
    with a parent chain of that length. *)
Definition open_ok (g : gmap Board.grid Z) (done : gset Board.grid)
    (nodes : list Search.entry) : Prop :=
  forall y, g_of g y < 100000000 -> y ∉ done ->
    exists e, e ∈ nodes /\ Board.state e.2 = y /\ parent_links e.2 = g_of g y.

(** The successors of a settled board are at most one further. *)
Definition closed_ok (g : gmap Board.grid Z) (done : gset Board.grid) : Prop :=
  forall x y, x ∈ done -> move x y -> g_of g y <= g_of g x + 1.

Definition as_core (s0 : Board.grid) (heur : Z) (done : gset Board.grid)
    (nodes : list Search.entry) (g : gmap Board.grid Z)
    (visited : gset (Z * Board.grid)) : Prop :=
  heap_ok fst nodes /\ Forall (as_entry_ok s0 heur g) nodes /\
  g_ok s0 g /\ visited_ok heur g visited /\ open_ok g done nodes.

(** The invariant of the loop of [astar_search] started on [s0]. *)
Definition as_inv (s0 : Board.grid) (heur : Z) (st : Search.as_state) : Prop :=
  exists done : gset Board.grid,
    as_core s0 heur done (Search.as_nodes st) (Search.as_g_x st)
      (Search.as_visited st) /\
    (Board.final Board.cls0 ∉ done) /\
    closed_ok (Search.as_g_x st) done /\
    g_of (Search.as_g_x st) s0 = 0 /\
    Search.heuristic (Search.as_self st) = heur.

(** The invariant of [for child in children] while the board [B] is
    expanded: [g0] is [g_x] when the loop is entered, and the children in
    [processed] have been seen. *)
Definition as_mid (s0 : Board.grid) (heur : Z) (B : Board.grid)
    (g0 : gmap Board.grid Z) (done0 : gset Board.grid)
    (processed : list Board.t) (W : Z) (st : Search.as_state) : Prop :=
  exists done : gset Board.grid,
    as_core s0 heur done (Search.as_nodes st) (Search.as_g_x st)
      (Search.as_visited st) /\
    (forall s, g_of (Search.as_g_x st) s <= g_of g0 s) /\
    g_of (Search.as_g_x st) B = g_of g0 B /\
    is_Some (Search.as_g_x st !! B) /\
    done ⊆ done0 /\ (B ∈ done) /\
    closed_ok (Search.as_g_x st) (done ∖ {[B]}) /\
    (forall k, k ∈ processed ->
       g_of (Search.as_g_x st) (Board.state k) <= 1 + g_of g0 B) /\
    Search.heuristic (Search.as_self st) = heur /\
    as_weight (Search.as_nodes st) (Search.as_g_x st) <= W.

(** A board one move away from the goal. *)
Definition start_1 : Board.grid := [[1; 2; 3]; [4; 5; 0]; [7; 8; 6]].

(** The object [board_up] after [generate_children(None)], and its children. *)
Definition board_up_kids : list Board.t * Board.t :=
  Eval vm_compute in
    match Board.generate_children board_up None with
    | Ok r => r
    | Raise _ => ([], board_up)
    end.

(** The two boards next to [board_up] that are not its parent. *)
Definition up_neighbours : gset Board.grid :=
  {[ [[1; 2; 0]; [4; 5; 3]; [7; 8; 6]]; [[1; 2; 3]; [4; 0; 5]; [7; 8; 6]] ]}.

(** The object [board_up] after a call of [generate_children] that found
    every successor visited. *)
Definition board_up_empty : Board.t :=
  Eval vm_compute in
    match Board.generate_children board_up (Some up_neighbours) with
    | Ok r => r.2
    | Raise _ => board_up
    end.

(** A grid with two cells holding 0. *)
Definition two_blanks : Board.grid := [[0; 1]; [2; 0]].

(** A grid whose second row is short. *)
Definition ragged : Board.grid := [[1; 2]; [0]].

(** A grid without a blank. *)
Definition no_blank : Board.grid := [[1; 2]; [3; 4]].

(** The contents of the boards on the parent chain of [b], the root
    first. *)
Fixpoint chain (b : Board.t) : list Board.grid :=
  match Board.parent b with
  | None => []
  | Some p => chain p
  end ++ [Board.state b].

(** Every board of the list is one move away from the one before. *)
Definition legal_path (l : list Board.grid) : Prop :=
  forall (i : nat) x y, l !! i = Some x -> l !! S i = Some y -> move x y.

(** The parent chain of [b] starts at [s0] and goes by moves. *)
Fixpoint legal_chain (s0 : Board.grid) (b : Board.t) : Prop :=
  match Board.parent b with
  | None => Board.state b = s0
  | Some p => move (Board.state p) (Board.state b) /\ legal_chain s0 p
  end.

(** An entry of the frontier of either search started on [s0]. *)
Definition entry_safe (s0 : Board.grid) (e : Search.entry) : Prop :=
  unexpanded 3 e.2 /\ valid3 (Board.state e.2) /\ legal_chain s0 e.2.

(** What a run of either search started on [s0] may give: no exception,
    and a board only if it is the goal at the end of a path of moves from
    [s0], which is what its parent chain holds. *)
Definition sound_result (s0 : Board.grid)
    (r : option (result (option Board.t * Search.t))) : Prop :=
  match r with
  | Some (Raise _) => False
  | Some (Ok (Some b, _)) =>
      Board.state b = Board.final Board.cls0 /\
      head (chain b) = Some s0 /\
      last (chain b) = Some (Board.final Board.cls0) /\
      legal_path (chain b)
  | _ => True
  end.

(** An entry of the frontier of [astar_search]: its board is a key of
    [g_x]. *)
Definition as_safe (s0 : Board.grid) (g : gmap Board.grid Z)
    (e : Search.entry) : Prop :=
  entry_safe s0 e /\ is_Some (g !! Board.state e.2).

(** The state of [astar_search] while the board [b] is expanded. *)
Definition as_safe_state (s0 : Board.grid) (b : Board.t)
    (st : Search.as_state) : Prop :=
  Forall (as_safe s0 (Search.as_g_x st)) (Search.as_nodes st) /\
  is_Some (Search.as_g_x st !! Board.state b).

(** A 4 by 4 board, as its constructor builds it. *)
Definition board_4x4 : Board.t :=
  Board.mk [[1; 2; 3; 4]; [5; 6; 7; 8]; [9; 10; 11; 12]; [13; 14; 15; 0]]
    [] 4 None (-1) (-1) 0 0 3 3 [].

(** The run has not returned a board. *)
Definition no_board (r : option (result (option Board.t * Search.t))) : Prop :=
  match r with
  | Some (Ok (Some _, _)) => False
  | _ => True
  end.

(** The goal of the 2 by 2 puzzle, which is not [Board.final]. *)
Definition goal_2x2 : Board.grid := [[1; 2]; [3; 0]].

(** * Proofs *)

(** ** Subscripts, ranges and loops *)

Lemma index_ok {A} (l : list A) (i : Z) :
  0 <= i < len l -> index l i = Ok (Z.to_nat i).
Proof.
  intros H. unfold index.
  destruct (Z.ltb_spec i 0); [lia|].
  destruct (Z.leb_spec 0 i); [|lia].
  destruct (Z.ltb_spec i (len l)); [|lia]. reflexivity.
Qed.

Lemma getitem_ok {A} (l : list A) (k : nat) (x : A) :
  l !! k = Some x -> getitem l (Z.of_nat k) = Ok x.
Proof.
  intros H. unfold getitem.
  rewrite index_ok.
  - cbn. rewrite Nat2Z.id, H. reflexivity.
  - apply lookup_lt_Some in H. unfold len. lia.
Qed.

Lemma setitem_ok {A} (l : list A) (k : nat) (x : A) :
  (k < length l)%nat -> setitem l (Z.of_nat k) x = Ok (<[k:=x]> l).
Proof.
  intros H. unfold setitem. rewrite index_ok by (unfold len; lia).
  cbn. rewrite Nat2Z.id. reflexivity.
Qed.

Lemma range_cons (lo hi : Z) :
  lo < hi -> range lo hi = lo :: range (lo + 1) hi.
Proof.
  intros H. unfold range.
  replace (Z.to_nat (hi - lo)) with (S (Z.to_nat (hi - (lo + 1)))) by lia.
  cbn [seq map]. f_equal; [lia|].
  rewrite <- seq_shift, map_map. apply map_ext. intros; lia.
Qed.

Lemma range_nil (lo hi : Z) : hi <= lo -> range lo hi = [].
Proof.
  intros H. unfold range.
  replace (Z.to_nat (hi - lo)) with O by lia. reflexivity.
Qed.

(** ** [Board.get_cost] (C4) *)

Lemma get_cost_of_links (b : Board.t) :
  Board.get_cost_of b = parent_links b + 1.
Proof.
  revert b. fix IH 1. intros [st ch n [p|] md mt co de er ec vp]; cbn.
  - rewrite (IH p). lia.
  - reflexivity.
Qed.

(** C4, as stated, fails at a root: [get_cost] of a root object is 1, while
    the root has no parent link. *)
Lemma get_cost_root_counterexample :
  Board.init (Board.final Board.cls0) None = Ok goal_root /\
  parent_links goal_root = 0 /\
  Board.get_cost (Some goal_root) <> parent_links goal_root.
Proof. split; [reflexivity|]. split; [reflexivity|]. cbn. lia. Qed.

(** C4, amended: [get_cost] returns 0 for [None]; for a board it returns one
    more than the number of parent links from it to the root, so that
    [get_cost] of the parent of a board, which is what
    [print_search_stats] reports, is the number of parent links of the
    board. *)
Theorem get_cost_counts_chain :
  Board.get_cost None = 0 /\
  (forall b, Board.get_cost (Some b) = parent_links b + 1) /\
  (forall b, Board.get_cost (Board.parent b) = parent_links b) /\
  (forall self b,
     Search.depth (fst (Search.print_search_stats self (Some b)))
     = parent_links b).
Proof.
  split; [reflexivity|]. split; [intros b; apply get_cost_of_links|].
  assert (H : forall b, Board.get_cost (Board.parent b) = parent_links b).
  { intros [st ch n [p|] md mt co de er ec vp]; cbn; [|reflexivity].
    rewrite get_cost_of_links. lia. }
  split; [exact H|]. intros self b. cbn. apply H.
Qed.

(** ** [Board.get_board_size] (C5) *)

(** C5: called with an integer dimension, the routine raises [TypeError]
    at its first [for] and writes no cell of the goal grid. *)
Theorem get_board_size_raises (d : Z) (c : Board.cls) :
  Board.get_board_size (VInt d) c = Raise TypeError.
Proof. reflexivity. Qed.

Lemma cell_Some (g : Board.grid) (p : Z * Z) (v : Z) :
  cell g p = Some v <->
  0 <= p.1 /\ 0 <= p.2 /\
  exists row, g !! Z.to_nat p.1 = Some row /\ row !! Z.to_nat p.2 = Some v.
Proof.
  unfold cell. destruct (Z.leb_spec 0 p.1), (Z.leb_spec 0 p.2); cbn;
    try (split; [discriminate | intros (? & ? & _); lia]).
  destruct (g !! Z.to_nat p.1) as [row|]; cbn.
  - split.
    + intros Hv. repeat split; try assumption. exists row. auto.
    + intros (_ & _ & row' & [= <-] & Hv). exact Hv.
  - split; [discriminate|]. intros (_ & _ & row' & [=] & _).
Qed.

Lemma cell_getitem2 (g : Board.grid) (r c v : Z) :
  cell g (r, c) = Some v -> getitem2 g r c = Ok v.
Proof.
  intros (Hr & Hc & row & Hrow & Hv)%cell_Some. cbn in *.
  unfold getitem2.
  rewrite <- (Z2Nat.id r), (getitem_ok _ _ _ Hrow) by assumption. cbn.
  rewrite <- (Z2Nat.id c) by assumption. apply getitem_ok, Hv.
Qed.

Lemma square_cell (n : Z) (g : Board.grid) (p : Z * Z) :
  square n g -> in_bounds n p -> exists v, cell g p = Some v.
Proof.
  intros [Hn Hrows] [Hr Hc].
  destruct (lookup_lt_is_Some_2 g (Z.to_nat p.1)) as [row Hrow].
  { unfold len in Hn. lia. }
  assert (Hlen : len row = n).
  { rewrite Forall_forall in Hrows. apply Hrows.
    eapply list_elem_of_lookup_2, Hrow. }
  destruct (lookup_lt_is_Some_2 row (Z.to_nat p.2)) as [v Hv].
  { unfold len in Hlen. lia. }
  exists v. apply cell_Some. repeat split; try lia. eauto.
Qed.

Lemma cell_in_bounds (n : Z) (g : Board.grid) (p : Z * Z) (v : Z) :
  square n g -> cell g p = Some v -> in_bounds n p.
Proof.
  intros [Hn Hrows] (Hr & Hc & row & Hrow & Hv)%cell_Some.
  assert (Hlen : len row = n).
  { rewrite Forall_forall in Hrows. apply Hrows.
    eapply list_elem_of_lookup_2, Hrow. }
  apply lookup_lt_Some in Hrow, Hv. unfold len in *.
  split; lia.
Qed.

Lemma setitem2_put (g : Board.grid) (r c v w : Z) :
  cell g (r, c) = Some w -> setitem2 g r c v = Ok (put g (r, c) v).
Proof.
  intros (Hr & Hc & row & Hrow & Hv)%cell_Some. cbn in *.
  unfold setitem2.
  rewrite <- (Z2Nat.id r) at 1 by assumption.
  rewrite (getitem_ok _ _ _ Hrow). cbn.
  rewrite <- (Z2Nat.id c) at 1 by assumption.
  rewrite setitem_ok by (eapply lookup_lt_Some, Hv). cbn.
  rewrite <- (Z2Nat.id r) at 1 by assumption.
  rewrite setitem_ok by (eapply lookup_lt_Some, Hrow).
  f_equal. unfold put. cbn [fst snd].
  apply list_eq. intros i.
  destruct (decide (i = Z.to_nat r)) as [->|Hne].
  - rewrite list_lookup_insert_eq by (eapply lookup_lt_Some, Hrow).
    rewrite list_lookup_alter_eq, Hrow. reflexivity.
  - rewrite list_lookup_insert_ne, list_lookup_alter_ne by congruence. reflexivity.
Qed.

Lemma square_put (n : Z) (g : Board.grid) (p : Z * Z) (v : Z) :
  square n g -> square n (put g p v).
Proof.
  intros [Hn Hrows]. unfold put, square, len in *. split.
  - rewrite length_alter. exact Hn.
  - rewrite Forall_forall in *. intros row Hin.
    apply list_elem_of_lookup_1 in Hin as [i Hi].
    destruct (decide (i = Z.to_nat p.1)) as [->|Hne].
    + rewrite list_lookup_alter_eq in Hi.
      destruct (g !! Z.to_nat p.1) as [row0|] eqn:E; [|discriminate].
      injection Hi as <-. rewrite length_insert. apply Hrows.
      eapply list_elem_of_lookup_2, E.
    + rewrite list_lookup_alter_ne in Hi by congruence.
      apply Hrows. eapply list_elem_of_lookup_2, Hi.
Qed.

Lemma cell_put (g : Board.grid) (p q : Z * Z) (v w : Z) :
  cell g p = Some w ->
  cell (put g p v) q = if decide (p = q) then Some v else cell g q.
Proof.
  intros (Hr & Hc & row & Hrow & Hv)%cell_Some.
  destruct p as [r c], q as [r' c']; cbn in *.
  unfold cell, put; cbn [fst snd].
  destruct (Z.leb_spec 0 r'), (Z.leb_spec 0 c'); cbn [andb];
    try (destruct (decide _) as [[=]|]; [lia|reflexivity]).
  destruct (decide (Z.to_nat r = Z.to_nat r')) as [Er|Er].
  - rewrite <- Er, list_lookup_alter_eq, Hrow. cbn.
    destruct (decide (Z.to_nat c = Z.to_nat c')) as [Ec|Ec].
    + rewrite <- Ec, list_lookup_insert_eq by (eapply lookup_lt_Some, Hv).
      assert (r = r') by lia. assert (c = c') by lia. subst.
      rewrite decide_True by reflexivity. reflexivity.
    + rewrite list_lookup_insert_ne by assumption.
      rewrite decide_False by (intros [=]; lia). reflexivity.
  - rewrite list_lookup_alter_ne by assumption.
    rewrite decide_False by (intros [=]; lia). reflexivity.
Qed.

Lemma range_3 (x : Z) : range (x - 1) (x + 2) = [x - 1; x; x + 1].
Proof.
  rewrite range_cons by lia. replace (x - 1 + 1) with x by lia.
  rewrite range_cons by lia. rewrite range_cons by lia.
  rewrite range_nil by lia. reflexivity.
Qed.

Lemma valid_positions_eq (b : Board.t) :
  (Board.get_surrounding_valid_positions b).1 =
  Board.valid_positions b ++
  List.filter (fun q => inside (Board.board_size b) q.1 && inside (Board.board_size b) q.2)
    (candidates (Board.empty_row b, Board.empty_col b)).
Proof.
  unfold Board.get_surrounding_valid_positions, candidates, inside.
  cbn [fst snd]. rewrite !range_3. cbn [fold_left].
  set (n := Board.board_size b). set (er := Board.empty_row b).
  set (ec := Board.empty_col b). set (vp := Board.valid_positions b).
  rewrite !Z.eqb_refl.
  replace (er =? er - 1) with false by (symmetry; apply Z.eqb_neq; lia).
  replace (er =? er + 1) with false by (symmetry; apply Z.eqb_neq; lia).
  replace (ec =? ec - 1) with false by (symmetry; apply Z.eqb_neq; lia).
  replace (ec =? ec + 1) with false by (symmetry; apply Z.eqb_neq; lia).
  cbn [xorb].
  cbn [List.filter fst snd].
  destruct ((er - 1 <? 0) || (er - 1 >=? n)), ((er <? 0) || (er >=? n)),
    ((er + 1 <? 0) || (er + 1 >=? n)), ((ec - 1 <? 0) || (ec - 1 >=? n)),
    ((ec <? 0) || (ec >=? n)), ((ec + 1 <? 0) || (ec + 1 >=? n));
    cbn; rewrite <- ?app_assoc; cbn; rewrite ?app_nil_r; reflexivity.
Qed.

Lemma bind_Ok {A B} (a : A) (k : A -> result B) : (x ← Ok a; k x) = k a.
Proof. reflexivity. Qed.

Lemma for_app {A B} (l1 l2 : list A) (body : B -> A -> result B) (acc : B) :
  for_ (l1 ++ l2) body acc = acc' ← for_ l1 body acc; for_ l2 body acc'.
Proof.
  revert acc. induction l1 as [|x l1 IH]; intros acc; cbn; [reflexivity|].
  destruct (body acc x) as [acc'|e]; cbn; [apply IH|reflexivity].
Qed.

Lemma for_ext_in {A B} (l : list A) (body body' : B -> A -> result B) (acc : B) :
  (forall a x, In x l -> body a x = body' a x) ->
  for_ l body acc = for_ l body' acc.
Proof.
  revert acc. induction l as [|x l IH]; intros acc H; cbn; [reflexivity|].
  rewrite H by (left; reflexivity).
  destruct (body' acc x) as [acc'|e]; cbn; [|reflexivity].
  apply IH. intros a y Hy. apply H. right. exact Hy.
Qed.

Lemma for_map {A B C} (f : C -> A) (l : list C) (body : B -> A -> result B) (acc : B) :
  for_ (map f l) body acc = for_ l (fun a x => body a (f x)) acc.
Proof.
  revert acc. induction l as [|x l IH]; intros acc; cbn; [reflexivity|].
  destruct (body acc (f x)) as [acc'|e]; cbn; [apply IH|reflexivity].
Qed.

Lemma for_flat_map {A B C} (f : C -> list A) (l : list C) (body : B -> A -> result B) (acc : B) :
  for_ (flat_map f l) body acc = for_ l (fun a x => for_ (f x) body a) acc.
Proof.
  revert acc. induction l as [|x l IH]; intros acc; cbn; [reflexivity|].
  rewrite for_app.
  destruct (for_ (f x) body acc) as [acc'|e]; cbn; [apply IH|reflexivity].
Qed.

Lemma in_range (lo hi x : Z) : In x (range lo hi) <-> lo <= x < hi.
Proof.
  unfold range. rewrite in_map_iff. split.
  - intros (i & <- & Hi%in_seq). lia.
  - intros H. exists (Z.to_nat (x - lo)). split; [lia|]. apply in_seq. lia.
Qed.

Lemma for_range_enum {A B} (pre l : list A) (F : B -> Z -> A -> result B) (acc : B) :
  for_ (range (len pre) (len pre + len l))
    (fun acc i => x ← getitem (pre ++ l) i; F acc i x) acc
  = for_ (enum_from (len pre) l) (fun acc p => F acc p.1 p.2) acc.
Proof.
  revert pre acc. induction l as [|x l IH]; intros pre acc.
  - rewrite range_nil by (unfold len; cbn; lia). reflexivity.
  - rewrite range_cons by (unfold len; cbn [length]; lia).
    cbn [for_ enum_from fst snd].
    assert (Hx : getitem (pre ++ x :: l) (len pre) = Ok x).
    { apply getitem_ok. rewrite lookup_app_r, Nat.sub_diag by lia. reflexivity. }
    rewrite Hx, bind_Ok.
    destruct (F acc (len pre) x) as [acc'|e]; cbn; [|reflexivity].
    specialize (IH (pre ++ [x]) acc').
    rewrite <- app_assoc in IH. cbn [app] in IH.
    replace (len (pre ++ [x])) with (len pre + 1) in IH
      by (unfold len; rewrite length_app; cbn; lia).
    replace (len pre + len (x :: l)) with (len pre + 1 + len l)
      by (unfold len; cbn [length]; lia).
    exact IH.
Qed.

Lemma for_range_enum0 {A B} (l : list A) (F : B -> Z -> A -> result B) (acc : B) :
  for_ (range 0 (len l)) (fun acc i => x ← getitem l i; F acc i x) acc
  = for_ (enum_from 0 l) (fun acc p => F acc p.1 p.2) acc.
Proof. apply (for_range_enum [] l F acc). Qed.

Lemma square_row (n : Z) (g : Board.grid) (r : Z) :
  square n g -> 0 <= r < n ->
  exists row, g !! Z.to_nat r = Some row /\ len row = n.
Proof.
  intros [Hn Hrows] Hr.
  destruct (lookup_lt_is_Some_2 g (Z.to_nat r)) as [row Hrow].
  { unfold len in Hn. lia. }
  exists row. split; [exact Hrow|].
  rewrite Forall_forall in Hrows. apply Hrows.
  eapply list_elem_of_lookup_2, Hrow.
Qed.

(** On a square grid the two nested loops over [range(n)] visit the cells
    in row-major order. *)
Lemma for_cells {B} (n : Z) (g : Board.grid) (F : B -> Z -> Z -> Z -> result B)
    (acc : B) :
  square n g ->
  for_ (range 0 n) (fun acc row =>
    for_ (range 0 n) (fun acc col =>
      v ← getitem2 g row col; F acc row col v) acc) acc
  = for_ (cells g) (fun acc c => F acc c.1.1 c.1.2 c.2) acc.
Proof.
  intros Hsq. unfold cells. rewrite for_flat_map.
  rewrite (for_ext_in _ _
    (fun acc row => rowl ← getitem g row;
       for_ (enum_from 0 rowl) (fun acc p => F acc row p.1 p.2) acc)).
  - destruct Hsq as [<- _].
    rewrite (for_range_enum0 g (fun acc row rowl =>
      for_ (enum_from 0 rowl) (fun acc p => F acc row p.1 p.2) acc)).
    apply for_ext_in. intros a [i rowl] _. cbn [fst snd].
    rewrite for_map. reflexivity.
  - intros a row Hrow%in_range.
    destruct (square_row n g row Hsq Hrow) as (rowl & Hl & Hlen).
    assert (Hg : getitem g row = Ok rowl).
    { rewrite <- (Z2Nat.id row) by lia. apply getitem_ok, Hl. }
    rewrite Hg, bind_Ok.
    rewrite <- Hlen, <- (for_range_enum0 rowl (fun acc i x => F acc row i x)).
    apply for_ext_in. intros a' col _. unfold getitem2.
    rewrite Hg, bind_Ok. reflexivity.
Qed.

Lemma in_enum_from {A} (k : Z) (l : list A) (i : Z) (x : A) :
  In (i, x) (enum_from k l) <-> k <= i /\ l !! Z.to_nat (i - k) = Some x.
Proof.
  revert k. induction l as [|y l IH]; intros k; cbn.
  - split; [tauto|]. intros [_ H]. discriminate.
  - rewrite IH. split.
    + intros [[= <- <-]|[Hk Hl]].
      * split; [lia|]. rewrite Z.sub_diag. reflexivity.
      * split; [lia|]. replace (Z.to_nat (i - k)) with (S (Z.to_nat (i - (k + 1)))) by lia.
        exact Hl.
    + intros [Hk Hl]. destruct (Z.eq_dec i k) as [->|Hne].
      * rewrite Z.sub_diag in Hl. cbn in Hl. injection Hl as ->. left. reflexivity.
      * right. split; [lia|].
        replace (Z.to_nat (i - k)) with (S (Z.to_nat (i - (k + 1)))) in Hl by lia.
        exact Hl.
Qed.

Lemma in_cells (g : Board.grid) (r c v : Z) :
  In (r, c, v) (cells g) <-> cell g (r, c) = Some v.
Proof.
  unfold cells. rewrite in_flat_map, cell_Some. cbn [fst snd]. split.
  - intros ([i row] & Hi%in_enum_from & Hin). cbn [fst snd] in Hin.
    apply in_map_iff in Hin as ([j w] & [= -> -> ->] & Hj%in_enum_from).
    rewrite Z.sub_0_r in Hi, Hj. destruct Hi, Hj. eauto.
  - intros (Hr & Hc & row & Hrow & Hv). exists (r, row). split.
    + apply in_enum_from. rewrite Z.sub_0_r. auto.
    + cbn [fst snd]. apply in_map_iff. exists (c, v). split; [reflexivity|].
      apply in_enum_from. rewrite Z.sub_0_r. auto.
Qed.

Lemma scan_blank (cs : list (Z * Z * Z)) (e0 : Z * Z) :
  exists e,
    for_ cs (fun acc c => Ok (if c.2 =? 0 then (c.1.1, c.1.2) else acc)) e0
    = Ok e /\
    ((e = e0 /\ forall c, In c cs -> c.2 <> 0) \/ In (e.1, e.2, 0) cs).
Proof.
  revert e0. induction cs as [|[[r c] v] cs IH]; intros e0; cbn [for_ fst snd].
  - exists e0. split; [reflexivity|]. left. split; [reflexivity|]. intros c [].
  - rewrite bind_Ok.
    destruct (IH (if v =? 0 then (r, c) else e0)) as (e & He & Hcase).
    exists e. split; [exact He|].
    destruct Hcase as [[-> Hnz]|Hin].
    + destruct (Z.eqb_spec v 0) as [->|Hv].
      * right. left. reflexivity.
      * left. split; [reflexivity|]. intros c' [<-|Hc']; [exact Hv|auto].
    + right. right. exact Hin.
Qed.

(** [__init__] on a square grid: the blank it records is a cell holding 0,
    when there is one. *)
Lemma init_square (n : Z) (g : Board.grid) (p : option Board.t) :
  square n g ->
  exists er ec,
    Board.init g p = Ok (Board.mk g [] n p (-1) (-1) 0 0 er ec []) /\
    (cell g (er, ec) = Some 0 \/ forall q, cell g q <> Some 0).
Proof.
  intros Hsq. unfold Board.init.
  replace (len g) with n by (symmetry; apply Hsq).
  rewrite (for_cells n g (fun e row col v => Ok (if v =? 0 then (row, col) else e)))
    by exact Hsq.
  destruct (scan_blank (cells g) (-1, -1)) as (e & -> & Hcase).
  rewrite bind_Ok. exists e.1, e.2. split; [reflexivity|].
  destruct Hcase as [[-> Hnz]|Hin].
  - right. intros [r c] Hq%in_cells. apply (Hnz _ Hq). reflexivity.
  - left. apply in_cells, Hin.
Qed.

Lemma swap_blank (n : Z) (g : Board.grid) (p q : Z * Z) :
  square n g -> cell g p = Some 0 -> in_bounds n q ->
  exists v, cell g q = Some v /\ swap_cells g p q = put (put g p v) q 0 /\
    cell (swap_cells g p q) q = Some 0 /\ square n (swap_cells g p q).
Proof.
  intros Hsq Hp Hq. destruct (square_cell n g q Hsq Hq) as [v Hv].
  exists v. split; [exact Hv|]. unfold swap_cells. rewrite Hp, Hv.
  split; [reflexivity|].
  assert (Hq' : cell (put g p v) q = Some (if decide (p = q) then v else v)).
  { rewrite (cell_put g p q v 0 Hp). destruct (decide (p = q)); [reflexivity|exact Hv]. }
  split.
  - rewrite (cell_put _ q q 0 _ Hq'). rewrite decide_True by reflexivity. reflexivity.
  - apply square_put, square_put, Hsq.
Qed.

Lemma generate_child_ok (n : Z) (visited : option (gset Board.grid))
    (self : Board.t) (q : Z * Z) :
  square n (Board.state self) -> Board.board_size self = n ->
  cell (Board.state self) (blank self) = Some 0 ->
  in_bounds n q ->
  let s := swap_cells (Board.state self) (blank self) q in
  exists k, child_of self s k /\
    Board.generate_child visited self q =
    Ok (if dropped visited self s then self
        else Board.set_children self (Board.children self ++ [k])).
Proof.
  intros Hsq Hn Hb Hq s.
  destruct (swap_blank n _ _ q Hsq Hb Hq) as (v & Hv & Hs & Hzero & Hsq').
  fold s in Hs, Hzero, Hsq'.
  destruct (init_square n s (Some self) Hsq') as (er & ec & Hinit & Hcase).
  destruct Hcase as [Hcell|Hno]; [|exfalso; apply (Hno q), Hzero].
  exists (Board.mk s [] n (Some self) (-1) (-1) 0 (1 + Board.depth self) er ec []).
  split.
  { exists self, er, ec. rewrite Hn. auto. }
  unfold Board.generate_child. destruct q as [r c].
  rewrite (cell_getitem2 _ _ _ _ Hv), bind_Ok.
  unfold blank in *.
  rewrite (setitem2_put _ _ _ v 0 Hb), bind_Ok.
  assert (Hq' : cell (put (Board.state self) (Board.empty_row self, Board.empty_col self) v) (r, c)
                = Some (if decide ((Board.empty_row self, Board.empty_col self) = (r, c)) then v else v)).
  { rewrite (cell_put _ _ (r, c) v 0 Hb). destruct (decide _); [reflexivity|exact Hv]. }
  rewrite (setitem2_put _ _ _ 0 _ Hq'), bind_Ok. rewrite <- Hs.
  unfold dropped.
  destruct (Board.parent self) as [p|] eqn:Hp.
  - destruct (bool_decide (Board.state p = s)); cbn [orb]; [reflexivity|].
    rewrite Hinit, bind_Ok. cbn [Board.state Board.set_depth].
    destruct visited as [vs|]; [|reflexivity].
    destruct (bool_decide (s ∈ vs)); reflexivity.
  - cbn [orb]. rewrite Hinit, bind_Ok. cbn [Board.state Board.set_depth].
    destruct visited as [vs|]; [|reflexivity].
    destruct (bool_decide (s ∈ vs)); reflexivity.
Qed.

Lemma generate_loop (n : Z) (visited : option (gset Board.grid))
    (qs : list (Z * Z)) (self : Board.t) :
  square n (Board.state self) -> Board.board_size self = n ->
  cell (Board.state self) (blank self) = Some 0 ->
  Forall (in_bounds n) qs ->
  exists kids,
    for_ qs (Board.generate_child visited) self
    = Ok (Board.set_children self (Board.children self ++ kids)) /\
    Forall2 (child_of self)
      (List.filter (fun s => negb (dropped visited self s))
         (map (swap_cells (Board.state self) (blank self)) qs)) kids.
Proof.
  revert self. induction qs as [|q qs IH]; intros self Hsq Hn Hb Hqs.
  - exists []. cbn. rewrite app_nil_r. split; [|constructor].
    destruct self; reflexivity.
  - apply Forall_cons in Hqs as [Hq Hqs]. cbn [for_ map List.filter].
    destruct (generate_child_ok n visited self q Hsq Hn Hb Hq) as (k & Hk & ->).
    rewrite bind_Ok.
    destruct (dropped visited self _) eqn:Hd; cbn [negb].
    + apply IH; assumption.
    + set (self1 := Board.set_children self (Board.children self ++ [k])).
      destruct (IH self1) as (kids & Hfor & Hkids); try assumption.
      exists (k :: kids). split.
      * rewrite Hfor. unfold self1. cbn. rewrite <- app_assoc. reflexivity.
      * constructor; [exact Hk|]. exact Hkids.
Qed.

Lemma in_candidates (p q : Z * Z) : In q (candidates p) <-> orthogonal p q.
Proof.
  destruct p as [r c], q as [r' c']. unfold candidates, orthogonal. cbn.
  split.
  - intros [H|[H|[H|[H|[]]]]]; injection H as <- <-; lia.
  - intros H.
    assert (Hc : (r' = r - 1 /\ c' = c) \/ (r' = r /\ c' = c - 1) \/
                 (r' = r /\ c' = c + 1) \/ (r' = r + 1 /\ c' = c)) by lia.
    destruct Hc as [[-> ->]|[[-> ->]|[[-> ->]|[-> ->]]]]; auto.
Qed.

Lemma inside_spec (n i : Z) : inside n i = true <-> 0 <= i < n.
Proof.
  unfold inside. destruct (Z.ltb_spec i 0), (Z.geb_spec i n); cbn; split; intros; try lia; try discriminate; reflexivity.
Qed.

Lemma in_valid_positions (n : Z) (b : Board.t) (q : Z * Z) :
  Board.board_size b = n -> Board.valid_positions b = [] ->
  In q (Board.get_surrounding_valid_positions b).1 <->
  in_bounds n q /\ orthogonal (blank b) q.
Proof.
  intros Hn Hvp. rewrite valid_positions_eq, Hvp, Hn. cbn [app].
  rewrite filter_In, in_candidates, andb_true_iff, !inside_spec.
  unfold in_bounds, blank. tauto.
Qed.

Lemma child_of_states (b : Board.t) (ss : list Board.grid) (kids : list Board.t) :
  Forall2 (child_of b) ss kids -> map Board.state kids = ss.
Proof.
  induction 1 as [|s k ss kids (p & er & ec & -> & _) _ IH]; cbn; [reflexivity|].
  f_equal. exact IH.
Qed.

Lemma dropped_false (visited : option (gset Board.grid)) (b : Board.t) (s : Board.grid) :
  dropped visited b s = false <->
  (forall p, Board.parent b = Some p -> s <> Board.state p) /\
  (forall vs, visited = Some vs -> s ∉ vs).
Proof.
  unfold dropped. rewrite orb_false_iff. split.
  - intros [Hp Hv]. split.
    + intros p Ep. rewrite Ep in Hp. apply bool_decide_eq_false in Hp. congruence.
    + intros vs ->. apply bool_decide_eq_false in Hv. exact Hv.
  - intros [Hp Hv]. split.
    + destruct (Board.parent b) as [p|]; [|reflexivity].
      apply bool_decide_eq_false. intros E. apply (Hp p); congruence.
    + destruct visited as [vs|]; [|reflexivity].
      apply bool_decide_eq_false. apply Hv. reflexivity.
Qed.

(** [generate_children] on an object that has not been expanded. *)
Lemma generate_children_ok (n : Z) (b : Board.t)
    (visited : option (gset Board.grid)) :
  unexpanded n b ->
  exists kids b',
    Board.generate_children b visited = Ok (kids, b') /\
    Forall2 (child_of b)
      (List.filter (fun s => negb (dropped visited b s))
         (map (swap_cells (Board.state b) (blank b))
            (Board.get_surrounding_valid_positions b).1)) kids.
Proof.
  intros (Hsq & Hn & Hch & Hvp & Hb).
  unfold Board.generate_children. rewrite Hch. cbn [len length Z.of_nat Z.eqb negb].
  set (b1 := (Board.get_surrounding_valid_positions b).2).
  assert (Hvp1 : Board.valid_positions b1 = (Board.get_surrounding_valid_positions b).1)
    by reflexivity.
  destruct (generate_loop n visited (Board.valid_positions b1) b1) as (kids & Hfor & Hkids);
    try assumption.
  { rewrite Hvp1. apply Forall_forall. intros q Hq%list_elem_of_In.
    apply (in_valid_positions n b q Hn Hvp) in Hq. tauto. }
  exists kids, (Board.set_children b1 (Board.children b1 ++ kids)).
  rewrite Hfor, bind_Ok. cbn [Board.children Board.set_children].
  split.
  - unfold b1. cbn. rewrite Hch. reflexivity.
  - rewrite Hvp1 in Hkids. exact Hkids.
Qed.

Lemma corner_positions (n : Z) (b : Board.t) :
  Board.board_size b = n -> Board.valid_positions b = [] ->
  at_corner n (blank b) -> 2 <= n ->
  length (Board.get_surrounding_valid_positions b).1 = 2%nat.
Proof.
  intros Hn Hvp [Hr Hc] H2. rewrite valid_positions_eq, Hvp, Hn. cbn [app].
  unfold candidates, blank in *. cbn [fst snd List.filter] in *.
  unfold inside.
  destruct Hr as [-> | ->], Hc as [-> | ->];
    repeat match goal with
    | |- context [?x <? ?y] => destruct (Z.ltb_spec x y); try lia
    | |- context [?x >=? ?y] => destruct (Z.geb_spec x y); try lia
    end; reflexivity.
Qed.

(** C2, amended: on an object of an [n] by [n] board that has not been
    expanded, [generate_children] returns exactly the boards one orthogonal
    in-bounds move of the blank away, without the board of the parent and
    without the boards in the filter when one is given; the positions
    [get_surrounding_valid_positions] reports are the in-bounds orthogonal
    neighbours of the blank, and for a root with the blank at a corner of a
    board of dimension at least 2 there are exactly 2 of them. *)
Theorem generate_children_exact (n : Z) (b : Board.t)
    (visited : option (gset Board.grid)) :
  unexpanded n b ->
  (exists kids b',
     Board.generate_children b visited = Ok (kids, b') /\
     forall s, In s (map Board.state kids) <->
       slide_from n (Board.state b) (blank b) s /\
       (forall p, Board.parent b = Some p -> s <> Board.state p) /\
       (forall vs, visited = Some vs -> s ∉ vs)) /\
  (forall q, In q (Board.get_surrounding_valid_positions b).1 <->
     in_bounds n q /\ orthogonal (blank b) q) /\
  (Board.parent b = None -> at_corner n (blank b) -> 2 <= n ->
   length (Board.get_surrounding_valid_positions b).1 = 2%nat).
Proof.
  intros Hun. pose proof Hun as (Hsq & Hn & Hch & Hvp & Hb).
  split; [|split].
  - destruct (generate_children_ok n b visited Hun) as (kids & b' & Hgen & Hkids).
    exists kids, b'. split; [exact Hgen|]. intros s.
    rewrite (child_of_states _ _ _ Hkids), filter_In, in_map_iff, negb_true_iff,
      dropped_false.
    unfold slide_from. split.
    + intros [(q & <- & Hq) Hd]. split; [|exact Hd].
      apply (in_valid_positions n b q Hn Hvp) in Hq as [Hq1 Hq2]. eauto.
    + intros [(q & Hq1 & Hq2 & ->) Hd]. split; [|exact Hd].
      exists q. split; [reflexivity|]. apply (in_valid_positions n b q Hn Hvp). auto.
  - intros q. apply in_valid_positions; assumption.
  - intros _. apply corner_positions; assumption.
Qed.

(** C2, as stated, fails on the one by one board: the blank is at a corner
    and has no neighbour position. *)
Lemma corner_1x1_counterexample :
  Board.init [[0]] None = Ok board_1x1 /\
  unexpanded 1 board_1x1 /\
  Board.parent board_1x1 = None /\
  at_corner 1 (blank board_1x1) /\
  (Board.get_surrounding_valid_positions board_1x1).1 = [] /\
  Board.generate_children board_1x1 None
  = Ok ([], board_1x1).
Proof.
  split; [reflexivity|]. split.
  { repeat split. constructor; [reflexivity|constructor]. }
  split; [reflexivity|]. split; [cbv; auto|]. split; reflexivity.
Qed.


Lemma for_sum {A} (w : A -> Z) (l : list A) (acc : Z) :
  for_ l (fun acc x => Ok (acc + w x)) acc = Ok (acc + sumZ (map w l)).
Proof.
  revert acc. induction l as [|x l IH]; intros acc; cbn [for_ map sumZ fold_right].
  - f_equal. lia.
  - rewrite bind_Ok, IH. f_equal. fold (sumZ (map w l)). lia.
Qed.

Lemma sumZ_nonneg (l : list Z) : (forall x, In x l -> 0 <= x) -> 0 <= sumZ l.
Proof.
  induction l as [|x l IH]; intros H; cbn [sumZ fold_right]; [lia|].
  fold (sumZ l).
  assert (0 <= x) by (apply H; left; reflexivity).
  assert (0 <= sumZ l) by (apply IH; intros y Hy; apply H; right; exact Hy). lia.
Qed.

Lemma sumZ_le {A} (f g : A -> Z) (l : list A) :
  (forall x, In x l -> f x <= g x) -> sumZ (map f l) <= sumZ (map g l).
Proof.
  induction l as [|x l IH]; intros H; cbn [sumZ fold_right map]; [lia|].
  fold (sumZ (map f l)). fold (sumZ (map g l)).
  assert (f x <= g x) by (apply H; left; reflexivity).
  assert (sumZ (map f l) <= sumZ (map g l)) by (apply IH; intros y Hy; apply H; right; exact Hy).
  lia.
Qed.

Lemma sumZ_zero {A} (f : A -> Z) (l : list A) :
  (forall x, In x l -> 0 <= f x) ->
  sumZ (map f l) = 0 <-> forall x, In x l -> f x = 0.
Proof.
  induction l as [|x l IH]; intros H; cbn [sumZ fold_right map].
  - split; [intros _ y []|reflexivity].
  - fold (sumZ (map f l)). assert (0 <= f x) by (apply H; left; reflexivity).
    assert (Hl : forall y, In y l -> 0 <= f y) by (intros y Hy; apply H; right; exact Hy).
    pose proof (sumZ_nonneg (map f l)) as Hnn.
    assert (0 <= sumZ (map f l)).
    { apply Hnn. intros y (z & <- & Hz)%in_map_iff. apply Hl, Hz. }
    specialize (IH Hl). split.
    + intros Hs y [<-|Hy]; [lia|]. apply IH; [lia|exact Hy].
    + intros Hall. rewrite (Hall x) by (left; reflexivity).
      rewrite (proj2 IH); [reflexivity|]. intros y Hy. apply Hall. right. exact Hy.
Qed.

Lemma sumZ_filter {A} (f : A -> Z) (p : A -> bool) (l : list A) :
  sumZ (map f (List.filter p l)) = sumZ (map (fun x => if p x then f x else 0) l).
Proof.
  induction l as [|x l IH]; cbn [List.filter map]; [reflexivity|].
  destruct (p x); cbn [sumZ fold_right map]; fold (sumZ (map f (List.filter p l)));
    rewrite IH; reflexivity.
Qed.

Lemma len_filter {A} (p : A -> bool) (l : list A) :
  len (List.filter p l) = sumZ (map (fun x => if p x then 1 else 0) l).
Proof.
  unfold len. induction l as [|x l IH]; cbn [List.filter map sumZ fold_right]; [reflexivity|].
  fold (sumZ (map (fun x => if p x then 1 else 0) l)).
  destruct (p x); cbn [length]; lia.
Qed.

(** The goal position the code computes is the one of the specification. *)
Lemma goal_cell_spec (n k : Z) :
  0 < n -> 0 < k -> Board.goal_cell n k = ((k - 1) / n, (k - 1) mod n).
Proof.
  intros Hn Hk. unfold Board.goal_cell.
  pose proof (Z.div_mod k n ltac:(lia)) as Hdm.
  pose proof (Z.mod_pos_bound k n Hn) as Hb.
  destruct (Z.eqb_spec (k mod n) 0) as [E|E].
  - f_equal.
    + apply (Z.div_unique _ _ _ (n - 1)); lia.
    + apply (Z.mod_unique _ _ (k / n - 1)); lia.
  - rewrite Z.quot_div_nonneg by lia. f_equal.
    + apply (Z.div_unique _ _ _ (k mod n - 1)); lia.
    + apply (Z.mod_unique _ _ (k / n)); lia.
Qed.

Lemma manhattan_term_nonneg (n : Z) (c : Z * Z * Z) : 0 <= manhattan_term n c.
Proof. unfold manhattan_term. destruct (c.2 =? 0); lia. Qed.

Lemma misplaced_term_nonneg (fin : Board.grid) (c : Z * Z * Z) :
  0 <= misplaced_term fin c.
Proof. unfold misplaced_term. destruct (_ && _); lia. Qed.

Lemma manhattan_sum_spec (n : Z) (g : Board.grid) :
  0 < n -> (forall q v, cell g q = Some v -> 0 <= v) ->
  sumZ (map (manhattan_term n) (cells g)) = manhattan_spec n g.
Proof.
  intros Hn Hpos. unfold manhattan_spec. rewrite sumZ_filter.
  f_equal. apply map_ext_in. intros [[row col] k] Hin%in_cells.
  unfold manhattan_term. cbn [fst snd].
  destruct (Z.eqb_spec k 0) as [->|Hk]; cbn [negb]; [reflexivity|].
  rewrite goal_cell_spec by (try assumption; specialize (Hpos _ _ Hin); lia).
  cbn [fst snd]. lia.
Qed.

Lemma misplaced_sum_spec (fin g : Board.grid) :
  sumZ (map (misplaced_term fin) (cells g)) = misplaced_spec fin g.
Proof. unfold misplaced_spec. rewrite len_filter. reflexivity. Qed.

(** [manhattan_distance] on an object whose memo field is unset. *)
Lemma manhattan_distance_fresh (n : Z) (b : Board.t) :
  square n (Board.state b) -> Board.board_size b = n -> Board.m_dist b = -1 ->
  Board.manhattan_distance b
  = Ok (sumZ (map (manhattan_term n) (cells (Board.state b))),
        Board.set_m_dist b (sumZ (map (manhattan_term n) (cells (Board.state b))))).
Proof.
  intros Hsq Hn Hm. unfold Board.manhattan_distance. rewrite Hm, Hn.
  cbn [Z.eqb negb].
  rewrite (for_cells n _ (fun d row col k =>
     if k =? 0 then Ok d else
     let '(r, c) := Board.goal_cell n k in
     Ok (d + Z.abs (r - row) + Z.abs (c - col)))) by exact Hsq.
  rewrite (for_ext_in _ _ (fun d c => Ok (d + manhattan_term n c))).
  - rewrite for_sum, bind_Ok. reflexivity.
  - intros d [[row col] k] _. unfold manhattan_term. cbn [fst snd].
    destruct (k =? 0); [f_equal; lia|].
    destruct (Board.goal_cell n k) as [r c]. cbn [fst snd]. f_equal. lia.
Qed.

Lemma manhattan_distance_ok (c : Board.cls) (n : Z) (b : Board.t) :
  square n (Board.state b) -> Board.board_size b = n -> memo_ok c b ->
  exists b',
    Board.manhattan_distance b
    = Ok (sumZ (map (manhattan_term n) (cells (Board.state b))), b') /\
    Board.state b' = Board.state b /\ Board.board_size b' = n /\
    Board.parent b' = Board.parent b /\ memo_ok c b'.
Proof.
  intros Hsq Hn [[Hm|Hm] Ht].
  - rewrite (manhattan_distance_fresh n b Hsq Hn Hm). eexists. split; [reflexivity|].
    repeat split; try assumption. right. cbn. rewrite Hn. reflexivity.
  - exists b. split.
    + unfold Board.manhattan_distance.
      destruct (Z.eqb_spec (Board.m_dist b) (-1)) as [E|E]; cbn [negb].
      * pose proof (sumZ_nonneg (map (manhattan_term (Board.board_size b)) (cells (Board.state b)))) as Hnn.
        rewrite <- Hm in Hnn. exfalso.
        assert (0 <= Board.m_dist b); [|lia].
        apply Hnn. intros x (y & <- & _)%in_map_iff. apply manhattan_term_nonneg.
      * rewrite Hm, Hn. reflexivity.
    + repeat split; try assumption. right. exact Hm.
Qed.

Lemma misplaced_tile_fresh (c : Board.cls) (n : Z) (b : Board.t) :
  square n (Board.state b) -> Board.board_size b = n ->
  covers (Board.final c) (Board.state b) -> Board.m_tile_count b = -1 ->
  Board.misplaced_tile c b
  = Ok (sumZ (map (misplaced_term (Board.final c)) (cells (Board.state b))),
        Board.set_m_tile_count b
          (sumZ (map (misplaced_term (Board.final c)) (cells (Board.state b))))).
Proof.
  intros Hsq Hn Hcov Hm. unfold Board.misplaced_tile. rewrite Hm, Hn.
  cbn [Z.eqb negb].
  rewrite (for_cells n _ (fun m row col v =>
     if negb (v =? 0)
     then v' ← getitem2 (Board.state b) row col;
          f ← getitem2 (Board.final c) row col;
          Ok (if negb (v' =? f) then m + 1 else m)
     else Ok m)) by exact Hsq.
  rewrite (for_ext_in _ _ (fun m x => Ok (m + misplaced_term (Board.final c) x))).
  - rewrite for_sum, bind_Ok. reflexivity.
  - intros m [[row col] v] Hin%in_cells. unfold misplaced_term. cbn [fst snd].
    destruct (Z.eqb_spec v 0) as [->|Hv]; cbn [negb andb]; [f_equal; lia|].
    rewrite (cell_getitem2 _ _ _ _ Hin), bind_Ok.
    destruct (Hcov _ _ Hin Hv) as [f Hf].
    rewrite (cell_getitem2 _ _ _ _ Hf), bind_Ok, Hf.
    destruct (Z.eqb_spec v f) as [->|Hne]; cbn [negb].
    + rewrite bool_decide_eq_true_2 by reflexivity. cbn [negb]. f_equal. lia.
    + rewrite bool_decide_eq_false_2 by congruence. reflexivity.
Qed.

Lemma misplaced_tile_ok (c : Board.cls) (n : Z) (b : Board.t) :
  board_object n c b -> covers (Board.final c) (Board.state b) ->
  exists b',
    Board.misplaced_tile c b
    = Ok (sumZ (map (misplaced_term (Board.final c)) (cells (Board.state b))), b') /\
    Board.state b' = Board.state b /\ Board.parent b' = Board.parent b /\
    board_object n c b'.
Proof.
  intros (Hsq & Hn & Hd & [Hm|Hm]) Hcov.
  - rewrite (misplaced_tile_fresh c n b Hsq Hn Hcov Hm). eexists. split; [reflexivity|].
    split; [reflexivity|]. split; [reflexivity|]. split; [exact Hsq|].
    split; [exact Hn|]. split; [exact Hd|right; reflexivity].
  - exists b. split.
    + unfold Board.misplaced_tile.
      destruct (Z.eqb_spec (Board.m_tile_count b) (-1)) as [E|E]; cbn [negb].
      * pose proof (sumZ_nonneg (map (misplaced_term (Board.final c)) (cells (Board.state b)))) as Hnn.
        rewrite <- Hm in Hnn. exfalso.
        assert (0 <= Board.m_tile_count b); [|lia].
        apply Hnn. intros x (y & <- & _)%in_map_iff. apply misplaced_term_nonneg.
      * rewrite Hm. reflexivity.
    + split; [reflexivity|]. split; [reflexivity|]. split; [exact Hsq|].
      split; [exact Hn|]. split; [exact Hd|right; exact Hm].
Qed.

Lemma manhattan_distance_object (c : Board.cls) (n : Z) (b : Board.t) :
  board_object n c b ->
  exists b',
    Board.manhattan_distance b
    = Ok (sumZ (map (manhattan_term n) (cells (Board.state b))), b') /\
    Board.state b' = Board.state b /\ Board.parent b' = Board.parent b /\
    board_object n c b'.
Proof.
  intros (Hsq & Hn & Hm).
  destruct (manhattan_distance_ok c n b Hsq Hn Hm) as (b' & H1 & H2 & H3 & H4 & H5).
  exists b'. split; [exact H1|]. split; [exact H2|]. split; [exact H4|].
  split; [rewrite H2; exact Hsq|]. split; assumption.
Qed.

Lemma square_pos (n : Z) (g : Board.grid) (q : Z * Z) (v : Z) :
  square n g -> cell g q = Some v -> 0 < n.
Proof. intros Hsq Hq. destruct (cell_in_bounds n g q v Hsq Hq). lia. Qed.

(** C6: on an object of an [n] by [n] board of non-negative cells,
    [manhattan_distance] returns the sum over the nonzero cells of
    [|row - (k-1) div n| + |col - (k-1) mod n|], at the first call and, from
    the memo, at the next. *)
Theorem manhattan_distance_is_spec (c : Board.cls) (n : Z) (b : Board.t) :
  board_object n c b ->
  (forall q v, cell (Board.state b) q = Some v -> 0 <= v) ->
  exists b',
    Board.manhattan_distance b = Ok (manhattan_spec n (Board.state b), b') /\
    Board.manhattan_distance b' = Ok (manhattan_spec n (Board.state b), b').
Proof.
  intros Hobj Hpos.
  assert (Heq : sumZ (map (manhattan_term n) (cells (Board.state b)))
                = manhattan_spec n (Board.state b)).
  { destruct (cells (Board.state b)) as [|[[row col] v] cs] eqn:E.
    - unfold manhattan_spec. rewrite E. reflexivity.
    - rewrite <- E. apply manhattan_sum_spec; [|exact Hpos].
      apply (square_pos n (Board.state b) (row, col) v); [apply Hobj|].
      apply in_cells. rewrite E. left. reflexivity. }
  destruct (manhattan_distance_object c n b Hobj) as (b' & H1 & H2 & H3 & Hobj').
  destruct (manhattan_distance_object c n b' Hobj') as (b'' & H1' & _).
  exists b'. rewrite <- Heq. split; [exact H1|].
  rewrite H2 in H1'.
  (* the second call returns the memo *)
  destruct Hobj' as (_ & Hn' & [Hm|Hm] & _).
  - exfalso.
    destruct Hobj as (Hsq & Hn & [Hm0|Hm0] & _).
    + rewrite (manhattan_distance_fresh n b Hsq Hn Hm0) in H1.
      injection H1 as <-. cbn in Hm.
      pose proof (sumZ_nonneg (map (manhattan_term n) (cells (Board.state b)))) as Hnn.
      rewrite Hm in Hnn. assert (0 <= -1); [|lia].
      apply Hnn. intros x (y & <- & _)%in_map_iff. apply manhattan_term_nonneg.
    + unfold Board.manhattan_distance in H1.
      destruct (Z.eqb_spec (Board.m_dist b) (-1)) as [E|E]; cbn [negb] in H1.
      * pose proof (sumZ_nonneg (map (manhattan_term (Board.board_size b)) (cells (Board.state b)))) as Hnn.
        rewrite <- Hm0, E in Hnn. assert (0 <= -1); [|lia].
        apply Hnn. intros x (y & <- & _)%in_map_iff. apply manhattan_term_nonneg.
      * injection H1 as _ <-. contradiction.
  - unfold Board.manhattan_distance.
    destruct (Z.eqb_spec (Board.m_dist b') (-1)) as [E|E]; cbn [negb].
    + pose proof (sumZ_nonneg (map (manhattan_term (Board.board_size b')) (cells (Board.state b')))) as Hnn.
      rewrite <- Hm, E in Hnn. assert (0 <= -1); [|lia].
      apply Hnn. intros x (y & <- & _)%in_map_iff. apply manhattan_term_nonneg.
    + rewrite Hm, Hn', H2. reflexivity.
Qed.

Lemma range_lookup (lo hi i : Z) :
  0 <= i < hi - lo -> range lo hi !! Z.to_nat i = Some (lo + i).
Proof.
  intros H. unfold range. rewrite list_lookup_fmap.
  rewrite lookup_seq_lt by lia. cbn. f_equal. lia.
Qed.

Lemma cell_canonical (n : Z) (q : Z * Z) :
  in_bounds n q ->
  cell (canonical_goal n) q
  = Some (if (q.1 =? n - 1) && (q.2 =? n - 1) then 0 else q.1 * n + q.2 + 1).
Proof.
  intros [Hr Hc]. unfold cell, canonical_goal.
  destruct (Z.leb_spec 0 q.1); [|lia]. destruct (Z.leb_spec 0 q.2); [|lia].
  cbn [andb]. rewrite list_lookup_fmap, range_lookup by lia. cbn [fmap option_fmap option_map mbind option_bind].
  rewrite list_lookup_fmap, range_lookup by lia. reflexivity.
Qed.

Lemma cell_in_concat (g : Board.grid) (q : Z * Z) (v : Z) :
  cell g q = Some v -> In v (concat g).
Proof.
  intros (_ & _ & row & Hrow & Hv)%cell_Some.
  apply in_concat. exists row. split.
  - apply list_elem_of_In. eapply list_elem_of_lookup_2, Hrow.
  - apply list_elem_of_In. eapply list_elem_of_lookup_2, Hv.
Qed.

Lemma permutation_board_range (n : Z) (g : Board.grid) (q : Z * Z) (v : Z) :
  permutation_board n g -> cell g q = Some v -> 0 <= v < n * n.
Proof.
  intros Hp Hq%cell_in_concat.
  apply (Permutation_in _ Hp), in_range in Hq. lia.
Qed.

(** A tile away from its cell of the canonical goal is at distance 1 at
    least. *)
Lemma misplaced_le_manhattan_term (n : Z) (c : Z * Z * Z) :
  in_bounds n c.1 -> 0 <= c.2 < n * n ->
  misplaced_term (canonical_goal n) c <= manhattan_term n c.
Proof.
  destruct c as [[row col] k]. cbn [fst snd]. intros Hq Hk.
  pose proof (manhattan_term_nonneg n (row, col, k)) as Hnn.
  unfold misplaced_term, manhattan_term in *. cbn [fst snd] in *.
  destruct (Z.eqb_spec k 0) as [->|Hk0]; cbn [negb andb]; [lia|].
  rewrite (cell_canonical n (row, col) Hq). cbn [fst snd].
  destruct (bool_decide _) eqn:Hd; cbn [negb]; [exact Hnn|].
  apply bool_decide_eq_false in Hd.
  destruct Hq as [Hr Hc]. cbn [fst snd] in Hr, Hc.
  rewrite goal_cell_spec in * by lia. cbn [fst snd] in *.
  pose proof (Z.div_mod (k - 1) n ltac:(lia)) as Hdm.
  pose proof (Z.mod_pos_bound (k - 1) n ltac:(lia)) as Hb.
  destruct (Z.eq_dec ((k - 1) / n) row) as [Er|Er]; [|lia].
  destruct (Z.eq_dec ((k - 1) mod n) col) as [Ec|Ec]; [|lia].
  exfalso. apply Hd. f_equal.
  destruct (Z.eqb_spec row (n - 1)) as [E1|E1];
    destruct (Z.eqb_spec col (n - 1)) as [E2|E2]; cbn [andb]; nia.
Qed.

Lemma canonical_goal_3 : canonical_goal 3 = Board.final Board.cls0.
Proof. reflexivity. Qed.

Lemma covers_canonical (n : Z) (g : Board.grid) :
  square n g -> covers (canonical_goal n) g.
Proof.
  intros Hsq q v Hq _. rewrite cell_canonical; [eauto|].
  eapply cell_in_bounds; eassumption.
Qed.

(** C8, amended: for every [n] by [n] permutation board, when the goal
    grid [Board.final] is the canonical goal of the same dimension (as the
    class sets it for [n = 3] only), [manhattan_distance] is at least
    [misplaced_tile]. *)
Theorem manhattan_ge_misplaced (c : Board.cls) (n : Z) (b : Board.t) :
  board_object n c b -> permutation_board n (Board.state b) ->
  Board.final c = canonical_goal n ->
  exists md mt b1 b2,
    Board.manhattan_distance b = Ok (md, b1) /\
    Board.misplaced_tile c b = Ok (mt, b2) /\
    md >= mt.
Proof.
  intros Hobj Hperm Hfin.
  destruct (manhattan_distance_object c n b Hobj) as (b1 & H1 & _).
  destruct (misplaced_tile_ok c n b Hobj) as (b2 & H2 & _).
  { rewrite Hfin. apply covers_canonical, Hobj. }
  do 4 eexists. split; [exact H1|]. split; [exact H2|].
  apply Z.le_ge. rewrite Hfin. apply sumZ_le.
  intros [[row col] k] Hin%in_cells.
  apply misplaced_le_manhattan_term; cbn [fst snd].
  - eapply cell_in_bounds; [apply Hobj|exact Hin].
  - eapply permutation_board_range; eassumption.
Qed.

(** C8, as stated, fails at dimension 2: against the three by three goal of
    the class the board [[1, 2], [3, 0]] has one misplaced tile and
    Manhattan distance 0. *)
Lemma manhattan_lt_misplaced_2x2 :
  Board.init [[1; 2]; [3; 0]] None = Ok board_2x2 /\
  board_object 2 Board.cls0 board_2x2 /\
  permutation_board 2 (Board.state board_2x2) /\
  Board.manhattan_distance board_2x2 = Ok (0, Board.set_m_dist board_2x2 0) /\
  Board.misplaced_tile Board.cls0 board_2x2
  = Ok (1, Board.set_m_tile_count board_2x2 1).
Proof.
  split; [reflexivity|]. split.
  { split; [split; [reflexivity|repeat constructor]|].
    split; [reflexivity|]. split; left; reflexivity. }
  split; [|split; reflexivity].
  unfold permutation_board. apply (bool_decide_unpack _). vm_compute. exact I.
Qed.

Lemma square_3_inv (g : Board.grid) :
  square 3 g ->
  exists a b c d e f g' h i, g = [[a; b; c]; [d; e; f]; [g'; h; i]].
Proof.
  intros [Hlen Hrows]. unfold len in *.
  destruct g as [|r0 [|r1 [|r2 [|]]]]; cbn in Hlen; try lia.
  apply Forall_cons in Hrows as [H0 Hrows].
  apply Forall_cons in Hrows as [H1 Hrows].
  apply Forall_cons in Hrows as [H2 _].
  destruct r0 as [|a [|b [|c [|]]]]; cbn in H0; try lia.
  destruct r1 as [|d [|e [|f [|]]]]; cbn in H1; try lia.
  destruct r2 as [|g' [|h [|i [|]]]]; cbn in H2; try lia.
  repeat eexists.
Qed.

Lemma misplaced_term_zero (fin : Board.grid) (q : Z * Z) (k f : Z) :
  cell fin q = Some f -> misplaced_term fin (q, k) = 0 -> k = 0 \/ k = f.
Proof.
  intros Hf. unfold misplaced_term. cbn [fst snd]. rewrite Hf.
  destruct (Z.eqb_spec k 0) as [->|Hk]; [auto|]. cbn [negb andb].
  destruct (bool_decide (Some k = Some f)) eqn:Hd; cbn [negb]; [|lia].
  apply bool_decide_eq_true in Hd. injection Hd as ->. auto.
Qed.

(** On a three by three permutation board, no misplaced tile means the
    goal. *)
Lemma misplaced_zero_goal (g : Board.grid) :
  square 3 g -> permutation_board 3 g ->
  sumZ (map (misplaced_term (Board.final Board.cls0)) (cells g)) = 0 ->
  g = Board.final Board.cls0.
Proof.
  intros Hsq Hperm Hsum.
  pose proof (proj1 (sumZ_zero _ _ (fun x _ => misplaced_term_nonneg _ x)) Hsum)
    as Hall. clear Hsum. rename Hall into Hsum.
  destruct (square_3_inv g Hsq) as (a & b & c & d & e & f & g' & h & i & ->).
  assert (Hnd : NoDup [a; b; c; d; e; f; g'; h; i]).
  { change (NoDup (concat [[a; b; c]; [d; e; f]; [g'; h; i]])).
    unfold permutation_board in Hperm. rewrite Hperm.
    apply (bool_decide_unpack _). vm_compute. exact I. }
  rewrite NoDup_alt in Hnd.
  assert (Hi : forall (j : nat) x, [a; b; c; d; e; f; g'; h; i] !! j = Some x ->
                 (j < 8)%nat -> x <> i).
  { intros j x Hj Hlt ->. specialize (Hnd j 8%nat i Hj eq_refl). lia. }
  assert (Ha := Hi 0%nat a eq_refl ltac:(lia)).
  assert (Hb := Hi 1%nat b eq_refl ltac:(lia)).
  assert (Hc := Hi 2%nat c eq_refl ltac:(lia)).
  assert (Hd := Hi 3%nat d eq_refl ltac:(lia)).
  assert (He := Hi 4%nat e eq_refl ltac:(lia)).
  assert (Hf := Hi 5%nat f eq_refl ltac:(lia)).
  assert (Hg := Hi 6%nat g' eq_refl ltac:(lia)).
  assert (Hh := Hi 7%nat h eq_refl ltac:(lia)).
  pose proof (fun q k f Hin Hc => misplaced_term_zero (Board.final Board.cls0) q k f Hc (Hsum (q, k) Hin)) as Hz.
  pose proof (Hz (0, 0) a 1 ltac:(cbn; auto 10) eq_refl).
  pose proof (Hz (0, 1) b 2 ltac:(cbn; auto 10) eq_refl).
  pose proof (Hz (0, 2) c 3 ltac:(cbn; auto 10) eq_refl).
  pose proof (Hz (1, 0) d 4 ltac:(cbn; auto 10) eq_refl).
  pose proof (Hz (1, 1) e 5 ltac:(cbn; auto 10) eq_refl).
  pose proof (Hz (1, 2) f 6 ltac:(cbn; auto 10) eq_refl).
  pose proof (Hz (2, 0) g' 7 ltac:(cbn; auto 10) eq_refl).
  pose proof (Hz (2, 1) h 8 ltac:(cbn; auto 10) eq_refl).
  pose proof (Hz (2, 2) i 0 ltac:(cbn; auto 10) eq_refl).
  clear Hz Hsum Hperm Hsq Hnd Hi.
  assert (i = 0) as -> by (destruct H7; assumption). clear H7.
  repeat match goal with
         | Hne : ?x <> 0, Hx : ?x = 0 \/ ?x = _ |- _ =>
             destruct Hx as [Hx|Hx]; [contradiction|subst x]
         end.
  reflexivity.
Qed.

(** C7: for every three by three permutation board, [misplaced_tile]
    returns 0 exactly when the board is the goal board, and so does
    [manhattan_distance]; [is_final_state] tests the same equality. *)
Theorem heuristics_zero_iff_goal (b : Board.t) :
  board_object 3 Board.cls0 b -> permutation_board 3 (Board.state b) ->
  exists mt md b1 b2,
    Board.misplaced_tile Board.cls0 b = Ok (mt, b1) /\
    Board.manhattan_distance b = Ok (md, b2) /\
    (mt = 0 <-> Board.state b = Board.final Board.cls0) /\
    (md = 0 <-> Board.state b = Board.final Board.cls0) /\
    (Board.is_final_state Board.cls0 b = true
     <-> Board.state b = Board.final Board.cls0).
Proof.
  intros Hobj Hperm.
  destruct (manhattan_distance_object _ 3 b Hobj) as (b2 & H2 & _).
  destruct (misplaced_tile_ok _ 3 b Hobj) as (b1 & H1 & _).
  { rewrite <- canonical_goal_3. apply covers_canonical, Hobj. }
  do 4 eexists. split; [exact H1|]. split; [exact H2|].
  assert (Hmt : sumZ (map (misplaced_term (Board.final Board.cls0)) (cells (Board.state b))) = 0
                <-> Board.state b = Board.final Board.cls0).
  { split.
    - apply misplaced_zero_goal; [apply Hobj|exact Hperm].
    - intros ->. reflexivity. }
  split; [exact Hmt|]. split.
  - split.
    + intros Hmd. apply Hmt.
      apply sumZ_zero; [intros; apply misplaced_term_nonneg|].
      pose proof (proj1 (sumZ_zero _ _ (fun x _ => manhattan_term_nonneg _ x)) Hmd)
        as Hall. clear Hmd. rename Hall into Hmd.
      intros [[row col] k] Hin. specialize (Hmd _ Hin). apply in_cells in Hin.
      pose proof (misplaced_term_nonneg (Board.final Board.cls0) (row, col, k)).
      pose proof (misplaced_le_manhattan_term 3 (row, col, k)) as Hle.
      rewrite canonical_goal_3 in Hle.
      assert (misplaced_term (Board.final Board.cls0) (row, col, k) <= manhattan_term 3 (row, col, k)); [|lia].
      apply Hle; cbn [fst snd].
      * eapply cell_in_bounds; [apply Hobj|exact Hin].
      * eapply (permutation_board_range 3); eassumption.
    + intros ->. reflexivity.
  - unfold Board.is_final_state. apply bool_decide_eq_true.
Qed.

Lemma parent_pos (j : nat) :
  (1 <= j)%nat ->
  (j = 2 * Nat.div2 (j - 1) + 1 \/ j = 2 * Nat.div2 (j - 1) + 2)%nat.
Proof.
  intros H. pose proof (Nat.div2_odd (j - 1)) as E.
  destruct (Nat.odd (j - 1)); cbn [Nat.b2n] in E; lia.
Qed.

Lemma child_parent (p c : nat) :
  (c = 2 * p + 1 \/ c = 2 * p + 2)%nat -> Nat.div2 (c - 1) = p.
Proof.
  intros H. pose proof (Nat.div2_odd (c - 1)) as E.
  destruct (Nat.odd (c - 1)); cbn [Nat.b2n] in E; lia.
Qed.

Lemma insert_head_perm {A} (l : list A) (j : nat) (a b : A) :
  l !! j = Some b -> b :: <[j:=a]> l ≡ₚ a :: l.
Proof.
  revert j. induction l as [|x l IH]; intros [|j] H; try discriminate.
  - injection H as ->. cbn. apply Permutation_swap.
  - cbn in H. cbn [list_insert]. change (b :: x :: <[j:=a]> l ≡ₚ a :: x :: l).
    rewrite (Permutation_swap x b), (Permutation_swap x a).
    apply Permutation_cons; [reflexivity|]. apply IH, H.
Qed.

(** Exchanging two elements of a list permutes it. *)
Lemma swap_perm {A} (l : list A) (i j : nat) (a b : A) :
  l !! i = Some a -> l !! j = Some b -> <[i:=b]> (<[j:=a]> l) ≡ₚ l.
Proof.
  revert i j. induction l as [|x l IH]; intros i j Hi Hj; [discriminate|].
  destruct i as [|i], j as [|j]; cbn in Hi, Hj.
  - injection Hi as ->. injection Hj as ->. reflexivity.
  - injection Hi as ->. cbn. apply insert_head_perm, Hj.
  - injection Hj as ->. cbn. apply insert_head_perm, Hi.
  - cbn. apply Permutation_cons; [reflexivity|]. apply IH; assumption.
Qed.

Section HeapFacts.

Context {A : Type} (lt : A -> A -> bool) (key : A -> Z) (P : A -> Prop).
Hypothesis lt_key : forall x y, P x -> P y -> lt x y = (key x <? key y).

Lemma siftdown_loop_perm (fuel : nat) (heap : list A) (newitem : A)
    (startpos pos : nat) :
  (pos < length heap)%nat ->
  Heapq.siftdown_loop lt fuel heap newitem startpos pos
  ≡ₚ <[pos:=newitem]> heap.
Proof.
  revert heap pos. induction fuel as [|fuel IH]; intros heap pos Hpos;
    cbn [Heapq.siftdown_loop]; [reflexivity|].
  destruct (bool_decide (startpos < pos)%nat) eqn:Hlt; [|reflexivity].
  apply bool_decide_eq_true in Hlt.
  destruct (heap !! Nat.div2 (pos - 1)) as [parent|] eqn:Hpar; [|reflexivity].
  destruct (lt newitem parent); [|reflexivity].
  assert (Hpp : (Nat.div2 (pos - 1) < pos)%nat).
  { destruct (parent_pos pos); lia. }
  rewrite IH by (rewrite length_insert; lia).
  rewrite <- (swap_perm (<[pos:=newitem]> heap) (Nat.div2 (pos - 1)) pos
                parent newitem).
  - rewrite list_insert_insert_eq. reflexivity.
  - rewrite list_lookup_insert_ne by lia. exact Hpar.
  - apply list_lookup_insert_eq. exact Hpos.
Qed.

Lemma siftup_loop_perm (fuel : nat) (heap : list A) (endpos pos : nat)
    (heap' : list A) (leaf : nat) :
  Heapq.siftup_loop lt fuel heap endpos pos = (heap', leaf) ->
  (pos < length heap)%nat ->
  length heap' = length heap /\ (pos <= leaf < length heap)%nat /\
  forall x, <[leaf:=x]> heap' ≡ₚ <[pos:=x]> heap.
Proof.
  revert heap pos. induction fuel as [|fuel IH]; intros heap pos Hloop Hpos;
    cbn [Heapq.siftup_loop] in Hloop.
  { injection Hloop as <- <-. split; [reflexivity|]. split; [lia|reflexivity]. }
  destruct (bool_decide (2 * pos + 1 < endpos)%nat) eqn:Hc;
    [|injection Hloop as <- <-; split; [reflexivity|]; split; [lia|reflexivity]].
  set (cp := match heap !! (2 * pos + 1)%nat, heap !! (2 * pos + 1 + 1)%nat with
             | Some l, Some r =>
                 if bool_decide (2 * pos + 1 + 1 < endpos)%nat && negb (lt l r)
                 then (2 * pos + 1 + 1)%nat else (2 * pos + 1)%nat
             | _, _ => (2 * pos + 1)%nat
             end) in Hloop.
  assert (Hcp : child_pos pos cp).
  { unfold cp, child_pos. destruct (heap !! _); [|lia].
    destruct (heap !! _); [|lia]. destruct (_ && _); lia. }
  destruct (heap !! cp) as [c|] eqn:Hv;
    [|injection Hloop as <- <-; split; [reflexivity|]; split; [lia|reflexivity]].
  assert (Hcplt : (cp < length heap)%nat) by (eapply lookup_lt_Some, Hv).
  destruct (IH _ _ Hloop) as (Hlen & Hleaf & Hperm).
  { rewrite length_insert. exact Hcplt. }
  rewrite length_insert in Hlen, Hleaf.
  split; [exact Hlen|]. split; [unfold child_pos in Hcp; lia|].
  intros x. rewrite Hperm.
  rewrite <- (swap_perm (<[pos:=x]> heap) cp pos c x).
  - rewrite list_insert_insert_eq. reflexivity.
  - rewrite list_lookup_insert_ne by (unfold child_pos in Hcp; lia). exact Hv.
  - apply list_lookup_insert_eq. exact Hpos.
Qed.

Lemma siftdown_perm (heap : list A) (startpos pos : nat) :
  Heapq._siftdown lt heap startpos pos ≡ₚ heap.
Proof.
  unfold Heapq._siftdown. destruct (heap !! pos) as [newitem|] eqn:E; [|reflexivity].
  rewrite siftdown_loop_perm by (eapply lookup_lt_Some, E).
  rewrite list_insert_id by exact E. reflexivity.
Qed.

Lemma siftup_perm (heap : list A) (pos : nat) :
  Heapq._siftup lt heap pos ≡ₚ heap.
Proof.
  unfold Heapq._siftup. destruct (heap !! pos) as [newitem|] eqn:E; [|reflexivity].
  destruct (Heapq.siftup_loop lt (length heap) heap (length heap) pos)
    as [heap' leaf] eqn:Hloop.
  destruct (siftup_loop_perm _ _ _ _ _ _ Hloop) as (Hlen & Hleaf & Hperm).
  { eapply lookup_lt_Some, E. }
  rewrite siftdown_perm, Hperm, list_insert_id by exact E. reflexivity.
Qed.

Lemma heappush_perm (heap : list A) (item : A) :
  Heapq.heappush lt heap item ≡ₚ item :: heap.
Proof.
  unfold Heapq.heappush. rewrite siftdown_perm.
  symmetry. apply Permutation_cons_append.
Qed.

Lemma last_removelast (heap : list A) (x : A) :
  last heap = Some x -> heap = removelast heap ++ [x].
Proof.
  induction heap as [|a [|b l] IH]; intros H; [discriminate| |].
  - injection H as ->. reflexivity.
  - change (a :: b :: l = a :: (removelast (b :: l) ++ [x])).
    f_equal. apply IH. exact H.
Qed.

Lemma heappop_perm (heap : list A) (x : A) (heap' : list A) :
  Heapq.heappop lt heap = Ok (x, heap') -> heap ≡ₚ x :: heap'.
Proof.
  unfold Heapq.heappop. destruct (last heap) as [lastelt|] eqn:Hl; [|discriminate].
  apply last_removelast in Hl. rewrite Hl at 2.
  destruct (removelast heap) as [|returnitem rest].
  - intros [= <- <-]. reflexivity.
  - intros [= <- <-]. rewrite siftup_perm. cbn.
    apply Permutation_cons; [reflexivity|].
    symmetry. apply Permutation_cons_append.
Qed.

End HeapFacts.

Section HeapOrder.

Context {A : Type} (lt : A -> A -> bool) (key : A -> Z) (P : A -> Prop).
Hypothesis lt_key : forall x y, P x -> P y -> lt x y = (key x <? key y).

Lemma place_ok (heap : list A) (newitem : A) (pos : nat) :
  sift_down_inv key heap newitem pos ->
  (pos = 0%nat \/
   exists parent, heap !! Nat.div2 (pos - 1) = Some parent /\
                  key parent <= key newitem) ->
  heap_ok key (<[pos:=newitem]> heap).
Proof.
  intros (Ha & Hb & Hc) Htop j x y Hj Hx Hy.
  apply list_lookup_insert_Some in Hx as [(<- & <- & Hlen)|[Hne Hx]];
    apply list_lookup_insert_Some in Hy as [(Hp & <- & Hlen')|[Hne' Hy]].
  - destruct (parent_pos pos Hj); lia.
  - destruct Htop as [->|(parent & Hpar & Hle)]; [lia|].
    rewrite Hpar in Hy. injection Hy as <-. exact Hle.
  - apply (Hb j x); [|exact Hx]. unfold child_pos. destruct (parent_pos j Hj); lia.
  - apply (Ha j x y); first [assumption | lia].
Qed.

Lemma siftdown_loop_ok (fuel : nat) (heap : list A) (newitem : A) (pos : nat) :
  (pos <= fuel)%nat -> (pos < length heap)%nat ->
  Forall P heap -> P newitem ->
  sift_down_inv key heap newitem pos ->
  heap_ok key (Heapq.siftdown_loop lt fuel heap newitem 0 pos).
Proof.
  revert heap pos. induction fuel as [|fuel IH];
    intros heap pos Hfuel Hpos HP HPn Hinv; cbn [Heapq.siftdown_loop].
  { apply place_ok; [exact Hinv|left; lia]. }
  destruct (bool_decide (0 < pos)%nat) eqn:Hlt;
    [apply bool_decide_eq_true in Hlt
    |apply bool_decide_eq_false in Hlt; apply place_ok; [exact Hinv|left; lia]].
  assert (Hpp : (Nat.div2 (pos - 1) < pos)%nat) by (destruct (parent_pos pos); lia).
  destruct (lookup_lt_is_Some_2 heap (Nat.div2 (pos - 1))) as [parent Hpar]; [lia|].
  rewrite Hpar.
  assert (HPp : P parent).
  { rewrite Forall_forall in HP. apply HP. eapply list_elem_of_lookup_2, Hpar. }
  rewrite (lt_key _ _ HPn HPp).
  destruct (Z.ltb_spec (key newitem) (key parent)) as [Hk|Hk];
    [|apply place_ok; [exact Hinv|right; eauto]].
  destruct Hinv as (Ha & Hb & Hc).
  apply IH; [lia|rewrite length_insert; lia| |exact HPn|].
  { apply Forall_insert; assumption. }
  set (pp := Nat.div2 (pos - 1)) in *.
  assert (Hins : forall k x, <[pos:=parent]> heap !! k = Some x ->
            (k = pos /\ x = parent) \/ (k <> pos /\ heap !! k = Some x)).
  { intros k x Hk'. apply list_lookup_insert_Some in Hk' as [(<- & <- & _)|[? ?]]; auto. }
  split; [|split].
  - intros j x y Hj Hne Hx Hy.
    apply Hins in Hx as [[-> ->]|[Hjp Hx]]; apply Hins in Hy as [[Hq ->]|[Hq Hy]].
    + lia.
    + fold pp in Hy. rewrite Hpar in Hy. injection Hy as <-. lia.
    + apply (Hc j x parent);
        [unfold child_pos; destruct (parent_pos j Hj); lia|lia|exact Hx|exact Hpar].
    + apply (Ha j x y); assumption.
  - intros c x Hchild Hx.
    apply Hins in Hx as [[-> ->]|[Hcp Hx]]; [lia|].
    assert (Hparent : Nat.div2 (c - 1) = pp) by (apply child_parent, Hchild).
    assert (key parent <= key x); [|lia].
    apply (Ha c x parent); try assumption.
    + unfold child_pos in Hchild. lia.
    + rewrite Hparent. exact Hpar.
  - intros c x y Hchild Hpp1 Hx Hy.
    assert (Hgp : (Nat.div2 (pp - 1) < pp)%nat) by (destruct (parent_pos pp); lia).
    apply Hins in Hy as [[Hq _]|[_ Hy]]; [lia|].
    assert (Hle : key y <= key parent).
    { apply (Ha pp parent y); try assumption. lia. }
    apply Hins in Hx as [[-> ->]|[Hcp Hx]]; [exact Hle|].
    assert (Hparent : Nat.div2 (c - 1) = pp) by (apply child_parent, Hchild).
    assert (key parent <= key x); [|lia].
    apply (Ha c x parent); try assumption.
    + unfold child_pos in Hchild. lia.
    + rewrite Hparent. exact Hpar.
Qed.

Lemma siftup_loop_ok (fuel : nat) (heap : list A) (pos : nat)
    (heap' : list A) (leaf : nat) :
  Heapq.siftup_loop lt fuel heap (length heap) pos = (heap', leaf) ->
  (length heap <= fuel + pos)%nat -> (pos < length heap)%nat ->
  Forall P heap -> sift_up_inv key heap pos ->
  heap_ok key heap' /\ (length heap <= 2 * leaf + 1)%nat /\ Forall P heap'.
Proof.
  revert heap pos. induction fuel as [|fuel IH];
    intros heap pos Hloop Hfuel Hpos HP (Ha & Hc); cbn [Heapq.siftup_loop] in Hloop.
  { lia. }
  destruct (bool_decide (2 * pos + 1 < length heap)%nat) eqn:Hch.
  2:{ apply bool_decide_eq_false in Hch. injection Hloop as <- <-.
      split; [|split; [lia|exact HP]].
      intros j x y Hj Hx Hy. apply (Ha j x y); try assumption.
      apply lookup_lt_Some in Hx. destruct (parent_pos j Hj); lia. }
  apply bool_decide_eq_true in Hch.
  destruct (lookup_lt_is_Some_2 heap (2 * pos + 1)) as [l Hl]; [lia|].
  rewrite Hl in Hloop.
  set (cp := match heap !! (2 * pos + 1 + 1)%nat with
             | Some r =>
                 if bool_decide (2 * pos + 1 + 1 < length heap)%nat && negb (lt l r)
                 then (2 * pos + 1 + 1)%nat else (2 * pos + 1)%nat
             | None => (2 * pos + 1)%nat
             end) in Hloop.
  assert (HPl : P l).
  { rewrite Forall_forall in HP. apply HP. eapply list_elem_of_lookup_2, Hl. }
  (* the chosen child is not above its sibling *)
  assert (Hcp : exists v, heap !! cp = Some v /\ child_pos pos cp /\
            forall c x, child_pos pos c -> heap !! c = Some x -> key v <= key x).
  { unfold cp. destruct (heap !! (2 * pos + 1 + 1)%nat) as [r|] eqn:Hr.
    - assert (HPr : P r).
      { rewrite Forall_forall in HP. apply HP. eapply list_elem_of_lookup_2, Hr. }
      rewrite (lt_key _ _ HPl HPr).
      rewrite bool_decide_eq_true_2 by (eapply lookup_lt_Some, Hr). cbn [andb].
      destruct (Z.ltb_spec (key l) (key r)) as [Hk|Hk]; cbn [negb].
      + exists l. split; [exact Hl|]. split; [left; reflexivity|].
        intros c x [->| ->] Hx.
        * rewrite Hl in Hx. injection Hx as <-. lia.
        * replace (2 * pos + 2)%nat with (2 * pos + 1 + 1)%nat in Hx by lia.
          rewrite Hr in Hx. injection Hx as <-. lia.
      + exists r. split; [exact Hr|]. split; [right; lia|].
        intros c x [->| ->] Hx.
        * rewrite Hl in Hx. injection Hx as <-. lia.
        * replace (2 * pos + 2)%nat with (2 * pos + 1 + 1)%nat in Hx by lia.
          rewrite Hr in Hx. injection Hx as <-. lia.
    - exists l. split; [exact Hl|]. split; [left; reflexivity|].
      intros c x [->| ->] Hx.
      + rewrite Hl in Hx. injection Hx as <-. lia.
      + replace (2 * pos + 2)%nat with (2 * pos + 1 + 1)%nat in Hx by lia.
        rewrite Hr in Hx. discriminate. }
  destruct Hcp as (v & Hv & Hchild & Hmin). rewrite Hv in Hloop.
  assert (Hcplt : (cp < length heap)%nat) by (eapply lookup_lt_Some, Hv).
  assert (HPv : P v).
  { rewrite Forall_forall in HP. apply HP. eapply list_elem_of_lookup_2, Hv. }
  assert (Hins : forall k x, <[pos:=v]> heap !! k = Some x ->
            (k = pos /\ x = v) \/ (k <> pos /\ heap !! k = Some x)).
  { intros k x Hk'. apply list_lookup_insert_Some in Hk' as [(<- & <- & _)|[? ?]]; auto. }
  rewrite <- (length_insert heap pos v) in Hloop.
  destruct (IH _ _ Hloop) as (Hok & Hleaf & HP').
  - rewrite length_insert. unfold child_pos in Hchild. lia.
  - rewrite length_insert. exact Hcplt.
  - apply Forall_insert; assumption.
  - split.
    + intros j x y Hj Hne Hx Hy.
      apply Hins in Hx as [[-> ->]|[Hjp Hx]]; apply Hins in Hy as [[Hq ->]|[Hq Hy]].
      * destruct (parent_pos pos Hj); lia.
      * apply (Hc cp v y); assumption.
      * apply (Hmin j x); [|exact Hx]. unfold child_pos.
        destruct (parent_pos j Hj); lia.
      * apply (Ha j x y); assumption.
    + intros c x y Hcc Hcp1 Hx Hy.
      assert (Hpar : Nat.div2 (cp - 1) = pos) by (apply child_parent, Hchild).
      rewrite Hpar in Hy. rewrite list_lookup_insert_eq in Hy by exact Hpos.
      injection Hy as <-.
      apply Hins in Hx as [[-> ->]|[Hne Hx]]; [lia|].
      apply (Ha c x v); try assumption.
      * unfold child_pos in Hcc. lia.
      * rewrite (child_parent cp c Hcc). unfold child_pos in Hchild. lia.
      * rewrite (child_parent cp c Hcc). exact Hv.
  - rewrite length_insert in Hleaf. auto.
Qed.

End HeapOrder.

Section HeapOps.

Context {A : Type} (lt : A -> A -> bool) (key : A -> Z) (P : A -> Prop).
Hypothesis lt_key : forall x y, P x -> P y -> lt x y = (key x <? key y).

(** The root of a heap in order is a least element. *)
Lemma heap_min (h : list A) (m : A) :
  heap_ok key h -> h !! 0%nat = Some m ->
  forall (j : nat) x, h !! j = Some x -> key m <= key x.
Proof.
  intros Hok Hm j. induction j as [j IH] using lt_wf_ind. intros x Hx.
  destruct j as [|j]; [rewrite Hm in Hx; injection Hx as <-; lia|].
  assert (Hp : (Nat.div2 (S j - 1) < S j)%nat) by (destruct (parent_pos (S j)); lia).
  destruct (lookup_lt_is_Some_2 h (Nat.div2 (S j - 1))) as [y Hy].
  { apply lookup_lt_Some in Hx. lia. }
  specialize (IH _ Hp y Hy).
  specialize (Hok (S j) x y ltac:(lia) Hx Hy). lia.
Qed.

Lemma heappush_ok (h : list A) (x : A) :
  heap_ok key h -> Forall P h -> P x ->
  heap_ok key (Heapq.heappush lt h x).
Proof.
  intros Hok HP HPx. unfold Heapq.heappush, Heapq._siftdown.
  rewrite length_app. cbn [length].
  replace (length h + 1 - 1)%nat with (length h) by lia.
  assert (Hx : (h ++ [x]) !! length h = Some x).
  { rewrite lookup_app_r, Nat.sub_diag by lia. reflexivity. }
  rewrite Hx.
  apply (siftdown_loop_ok lt key P lt_key); try assumption.
  - lia.
  - rewrite length_app. cbn. lia.
  - apply Forall_app. split; [exact HP|]. constructor; [exact HPx|constructor].
  - split; [|split].
    + intros j a b Hj Hne Ha Hb.
      assert (Hjlt : (j < length h)%nat).
      { apply lookup_lt_Some in Ha. rewrite length_app in Ha. cbn in Ha. lia. }
      rewrite lookup_app_l in Ha by lia.
      rewrite lookup_app_l in Hb by (destruct (parent_pos j Hj); lia).
      apply (Hok j a b); assumption.
    + intros c a [->| ->] Ha; apply lookup_lt_Some in Ha;
        rewrite length_app in Ha; cbn in Ha; lia.
    + intros c a b [->| ->] _ Ha; apply lookup_lt_Some in Ha;
        rewrite length_app in Ha; cbn in Ha; lia.
Qed.

Lemma siftup_root_ok (x : A) (rest : list A) (old : A) :
  heap_ok key (old :: rest) -> Forall P (x :: rest) ->
  heap_ok key (Heapq._siftup lt (x :: rest) 0).
Proof.
  intros Hok HP. unfold Heapq._siftup. cbn [lookup list_lookup].
  destruct (Heapq.siftup_loop lt (length (x :: rest)) (x :: rest)
              (length (x :: rest)) 0) as [heap' leaf] eqn:Hloop.
  destruct (siftup_loop_perm lt _ _ _ _ _ _ Hloop) as (Hlen & Hleaf & _);
    [cbn; lia|].
  destruct (siftup_loop_ok lt key P lt_key _ _ _ _ _ Hloop) as (Hok' & Hnoch & HP');
    [lia|cbn; lia|exact HP| |].
  { split.
    - intros j a b Hj Hne Ha Hb.
      destruct j as [|j]; [lia|].
      destruct (Nat.div2 (S j - 1)) as [|p] eqn:Hp; [contradiction|].
      apply (Hok (S j) a b); [lia|exact Ha|]. rewrite Hp. exact Hb.
    - intros c a b _ H0. lia. }
  unfold Heapq._siftdown.
  rewrite list_lookup_insert_eq by lia.
  apply (siftdown_loop_ok lt key P lt_key).
  - lia.
  - rewrite length_insert. lia.
  - apply Forall_insert; [exact HP'|]. apply Forall_cons in HP. apply HP.
  - apply Forall_cons in HP. apply HP.
  - assert (Hins : forall k a, <[leaf:=x]> heap' !! k = Some a ->
              (k = leaf /\ a = x) \/ (k <> leaf /\ heap' !! k = Some a)).
    { intros k a Hk. apply list_lookup_insert_Some in Hk as [(<- & <- & _)|[? ?]]; auto. }
    split; [|split].
    + intros j a b Hj Hne Ha Hb.
      apply Hins in Ha as [[-> ->]|[_ Ha]]; [contradiction|].
      apply Hins in Hb as [[Hq ->]|[_ Hb]].
      * apply lookup_lt_Some in Ha. destruct (parent_pos j Hj); lia.
      * apply (Hok' j a b); assumption.
    + intros c a [->| ->] Ha; apply lookup_lt_Some in Ha;
        rewrite length_insert in Ha; lia.
    + intros c a b [->| ->] _ Ha; apply lookup_lt_Some in Ha;
        rewrite length_insert in Ha; lia.
Qed.

Lemma heappop_ok (h : list A) (x : A) (h' : list A) :
  heap_ok key h -> Forall P h -> Heapq.heappop lt h = Ok (x, h') ->
  heap_ok key h' /\ h !! 0%nat = Some x.
Proof.
  intros Hok HP. unfold Heapq.heappop.
  destruct (last h) as [lastelt|] eqn:Hl; [|discriminate].
  apply last_removelast in Hl.
  destruct (removelast h) as [|returnitem rest] eqn:Hr.
  - intros [= <- <-]. split.
    + intros j a b _ Ha. destruct j; discriminate.
    + rewrite Hl. reflexivity.
  - intros [= <- <-]. split; [|rewrite Hl; reflexivity].
    apply (siftup_root_ok _ _ returnitem).
    + intros j a b Hj Ha Hb. apply (Hok j a b Hj).
      * rewrite Hl. apply lookup_app_l_Some. exact Ha.
      * rewrite Hl. apply lookup_app_l_Some. exact Hb.
    + rewrite Hl in HP. apply Forall_app in HP as [HP1 HP2].
      apply Forall_cons in HP1 as [_ HP1]. apply Forall_cons in HP2 as [HPl _].
      constructor; assumption.
Qed.

End HeapOps.

(** C9: started on the goal board, both searches return the root at the
    first pop, before anything is expanded: the depth reported is 0 and the
    number of nodes expanded is 0. *)
Theorem goal_start_not_expanded (fuel : nat) (algorithm heuristic q d n : Z) :
  let self := Search.mk algorithm heuristic (Board.final Board.cls0) q d n in
  Search.uc_search Board.cls0 (S fuel) self = Some (Ok (Some goal_root, self)) /\
  Search.astar_search Board.cls0 (S fuel) self
  = Some (Ok (Some goal_root, self)) /\
  Search.search Board.cls0 (S fuel)
    (Search.mk Search.UNIFORM_COST heuristic (Board.final Board.cls0) q d n)
  = Some (Ok (Some goal_root,
              Search.mk Search.UNIFORM_COST heuristic (Board.final Board.cls0) 0 0 0,
              Search.Solved 0 0 0)) /\
  Search.search Board.cls0 (S fuel)
    (Search.mk Search.A_STAR heuristic (Board.final Board.cls0) q d n)
  = Some (Ok (Some goal_root,
              Search.mk Search.A_STAR heuristic (Board.final Board.cls0) 0 0 0,
              Search.Solved 0 0 0)).
Proof. repeat split. Qed.

Lemma cost_zero_unfold (b : Board.t) :
  cost_zero b <->
  Board.cost b = 0 /\
  (forall p, Board.parent b = Some p -> cost_zero p) /\
  Forall cost_zero (Board.children b).
Proof.
  destruct b as [st ch n p md mt co de er ec vp]. cbn [cost_zero Board.cost Board.parent Board.children].
  assert (Hall : (fix all (l : list Board.t) : Prop :=
                    match l with [] => True | k :: l' => cost_zero k /\ all l' end) ch
                 <-> Forall cost_zero ch).
  { induction ch as [|k ch IH]; [split; [constructor|trivial]|].
    rewrite Forall_cons, IH. reflexivity. }
  rewrite Hall. destruct p as [p|].
  - split.
    + intros (H1 & H2 & H3). split; [exact H1|]. split; [|exact H3].
      intros p' [= <-]. exact H2.
    + intros (H1 & H2 & H3). split; [exact H1|]. split; [|exact H3]. apply H2. reflexivity.
  - split.
    + intros (H1 & _ & H3). split; [exact H1|]. split; [|exact H3]. intros p' [=].
    + intros (H1 & _ & H3). auto.
Qed.

Lemma init_shape (g : Board.grid) (p : option Board.t) (k : Board.t) :
  Board.init g p = Ok k ->
  exists er ec, k = Board.mk g [] (len g) p (-1) (-1) 0 0 er ec [].
Proof.
  unfold Board.init. destruct (for_ _ _ _) as [e|e]; [|discriminate].
  rewrite bind_Ok. intros [= <-]. eauto.
Qed.

Lemma generate_child_cost (visited : option (gset Board.grid)) (self self' : Board.t)
    (q : Z * Z) :
  cost_zero self -> Board.generate_child visited self q = Ok self' ->
  cost_zero self'.
Proof.
  intros Hz. unfold Board.generate_child. destruct q as [row col].
  destruct (getitem2 _ row col) as [v|]; [rewrite bind_Ok|discriminate].
  destruct (setitem2 _ _ _ v) as [b1|]; [rewrite bind_Ok|discriminate].
  destruct (setitem2 b1 row col 0) as [b2|]; [rewrite bind_Ok|discriminate].
  destruct (match Board.parent self with Some p => _ | None => _ end);
    [intros [= <-]; exact Hz|].
  destruct (Board.init b2 (Some self)) as [child|] eqn:Hinit; [rewrite bind_Ok|discriminate].
  apply init_shape in Hinit as (er & ec & ->).
  destruct (negb _); intros [= <-]; [|exact Hz].
  apply cost_zero_unfold in Hz as (H1 & H2 & H3).
  apply cost_zero_unfold. cbn [Board.cost Board.parent Board.children Board.set_children].
  split; [exact H1|]. split; [exact H2|].
  apply Forall_app. split; [exact H3|]. constructor; [|constructor].
  apply cost_zero_unfold. cbn. split; [reflexivity|]. split; [|constructor].
  intros p [= <-]. apply cost_zero_unfold. auto.
Qed.

Lemma generate_children_cost (visited : option (gset Board.grid))
    (self self' : Board.t) (kids : list Board.t) :
  cost_zero self -> Board.generate_children self visited = Ok (kids, self') ->
  Forall cost_zero kids /\ cost_zero self'.
Proof.
  intros Hz. unfold Board.generate_children.
  destruct (negb _).
  { intros [= <- <-]. split; [|exact Hz]. apply cost_zero_unfold in Hz. apply Hz. }
  set (self1 := (Board.get_surrounding_valid_positions self).2).
  assert (Hz1 : cost_zero self1).
  { apply cost_zero_unfold in Hz. apply cost_zero_unfold. exact Hz. }
  generalize (Board.valid_positions self1). intros qs.
  revert Hz1. generalize self1. clear. intros self.
  revert self. induction qs as [|q qs IH]; intros self Hz; cbn [for_].
  - rewrite bind_Ok. intros [= <- <-]. split; [|exact Hz].
    apply cost_zero_unfold in Hz. apply Hz.
  - destruct (Board.generate_child visited self q) as [self2|] eqn:Hq; [|discriminate].
    rewrite bind_Ok. apply IH. eapply generate_child_cost; eassumption.
Qed.

Lemma entry_lt_key (x y : Search.entry) :
  Board.cost x.2 = 0 -> Board.cost y.2 = 0 ->
  Search.entry_lt x y = (x.1 <? y.1).
Proof.
  intros Hx Hy. unfold Search.entry_lt, Board.eq, Board.lt. rewrite Hx, Hy.
  destruct (Z.eqb_spec x.1 y.1) as [E|E]; cbn [negb]; [|reflexivity].
  rewrite E, (Z.ltb_irrefl y.1).
  destruct (bool_decide _); reflexivity.
Qed.

Lemma lt_cost_zero (a b : Board.t) :
  Board.cost a = 0 -> Board.cost b = 0 ->
  Board.lt a b
  = bool_decide (Board.state a = Board.state b) && (Board.depth a <? Board.depth b).
Proof.
  intros Ha Hb. unfold Board.lt. rewrite Ha, Hb. cbn [Z.eqb andb].
  destruct (bool_decide _); reflexivity.
Qed.

Lemma push_perm (h : list Search.entry) (x : Search.entry) :
  Search.heappush h x ≡ₚ x :: h.
Proof. apply heappush_perm. Qed.

Lemma pop_perm (h h' : list Search.entry) (x : Search.entry) :
  Search.heappop h = Ok (x, h') -> h ≡ₚ x :: h'.
Proof. apply heappop_perm. Qed.

Lemma fold_push_perm {B} (f : B -> Search.entry) (kids : list B)
    (nodes : list Search.entry) :
  fold_left (fun nodes child => Search.heappush nodes (f child)) kids nodes
  ≡ₚ map f kids ++ nodes.
Proof.
  revert nodes. induction kids as [|k kids IH]; intros nodes; cbn [fold_left map app];
    [reflexivity|].
  rewrite IH, push_perm. symmetry. apply Permutation_middle.
Qed.

Lemma pop_nonempty (h : list Search.entry) :
  h <> [] -> exists x h', Search.heappop h = Ok (x, h').
Proof.
  intros Hne. unfold Search.heappop, Heapq.heappop.
  destruct (last h) as [l|] eqn:Hl.
  - destruct (removelast h); eauto.
  - apply last_None in Hl. contradiction.
Qed.

Lemma manhattan_distance_fields (b b' : Board.t) (v : Z) :
  Board.manhattan_distance b = Ok (v, b') ->
  exists m, b' = Board.set_m_dist b m.
Proof.
  unfold Board.manhattan_distance. destruct (negb _).
  - intros [= _ <-]. exists (Board.m_dist b). destruct b; reflexivity.
  - destruct (for_ _ _ _) as [d|]; [|discriminate]. rewrite bind_Ok.
    intros [= _ <-]. eauto.
Qed.

Lemma misplaced_tile_fields (c : Board.cls) (b b' : Board.t) (v : Z) :
  Board.misplaced_tile c b = Ok (v, b') ->
  exists m, b' = Board.set_m_tile_count b m.
Proof.
  unfold Board.misplaced_tile. destruct (negb _).
  - intros [= _ <-]. exists (Board.m_tile_count b). destruct b; reflexivity.
  - destruct (for_ _ _ _) as [d|]; [|discriminate]. rewrite bind_Ok.
    intros [= _ <-]. eauto.
Qed.

(** [get_heuristic_cost] changes at most a memo field of the node. *)
Lemma heuristic_fields (c : Board.cls) (self : Search.t) (b : Board.t)
    (v : Z) (r : option Board.t) :
  Search.get_heuristic_cost c self (Some b) = Ok (v, r) ->
  exists b', r = Some b' /\
    ((exists m, b' = Board.set_m_dist b m) \/
     (exists m, b' = Board.set_m_tile_count b m) \/ b' = b).
Proof.
  unfold Search.get_heuristic_cost.
  destruct (Search.heuristic self =? Search.MANHATTAN_DISTANCE).
  - destruct (Board.manhattan_distance b) as [[v' b']|] eqn:E; [|discriminate].
    rewrite bind_Ok. intros [= _ <-]. exists b'. split; [reflexivity|].
    left. eapply manhattan_distance_fields, E.
  - destruct (Search.heuristic self =? Search.MISPLACED_TILE).
    + destruct (Board.misplaced_tile c b) as [[v' b']|] eqn:E; [|discriminate].
      rewrite bind_Ok. intros [= _ <-]. exists b'. split; [reflexivity|].
      right. left. eapply misplaced_tile_fields, E.
    + intros [= _ <-]. eauto.
Qed.

Lemma heuristic_cost_zero (c : Board.cls) (self : Search.t) (b : Board.t)
    (v : Z) (r : option Board.t) :
  Search.get_heuristic_cost c self (Some b) = Ok (v, r) ->
  cost_zero b -> cost_zero (default b r).
Proof.
  intros (b' & -> & Hcase)%heuristic_fields Hz. cbn [default].
  apply cost_zero_unfold in Hz. apply cost_zero_unfold.
  destruct Hcase as [[m ->]|[[m ->]| ->]]; exact Hz.
Qed.

Lemma astar_child_cost (c : Board.cls) (b : Board.t) (st st' : Search.as_state)
    (child : Board.t) :
  Search.astar_child c b st child = Ok st' ->
  cost_zero child ->
  Forall (fun e => cost_zero e.2) (Search.as_nodes st) ->
  Forall (fun e => cost_zero e.2) (Search.as_nodes st').
Proof.
  unfold Search.astar_child. intros H Hz Hall.
  destruct (Search.g_get _ b) as [gb|]; [rewrite bind_Ok in H|discriminate].
  destruct (Search.g_get _ child) as [gc|]; [rewrite bind_Ok in H|discriminate].
  destruct (1 + gb <? gc); [|injection H as <-; exact Hall].
  destruct (Search.get_heuristic_cost _ _ _) as [[h r]|] eqn:Hh;
    [rewrite bind_Ok in H|discriminate].
  cbn [fst snd] in H.
  destruct (Search.g_get _ (default child r)) as [gc'|];
    [rewrite bind_Ok in H|discriminate].
  destruct (negb _); injection H as <-; [|exact Hall].
  cbn [Search.as_nodes]. rewrite push_perm. constructor; [|exact Hall].
  cbn [snd]. eapply heuristic_cost_zero; eassumption.
Qed.

Lemma astar_children_cost (c : Board.cls) (b : Board.t) (kids : list Board.t)
    (st st' : Search.as_state) :
  for_ kids (Search.astar_child c b) st = Ok st' ->
  Forall cost_zero kids ->
  Forall (fun e => cost_zero e.2) (Search.as_nodes st) ->
  Forall (fun e => cost_zero e.2) (Search.as_nodes st').
Proof.
  revert st. induction kids as [|k kids IH]; intros st H Hk Hall; cbn [for_] in H.
  - injection H as <-. exact Hall.
  - destruct (Search.astar_child c b st k) as [st1|] eqn:E; [|discriminate].
    rewrite bind_Ok in H. apply Forall_cons in Hk as [Hk1 Hk2].
    eapply IH; [exact H|exact Hk2|]. eapply astar_child_cost; eassumption.
Qed.

Lemma uc_body_cost (c : Board.cls) (st : Search.uc_state) :
  Forall (fun e => cost_zero e.2) (Search.uc_nodes st) ->
  match Search.uc_body c st with
  | Ok (inl st') => Forall (fun e => cost_zero e.2) (Search.uc_nodes st')
  | Ok (inr b) => cost_zero b
  | Raise _ => True
  end.
Proof.
  intros Hall. unfold Search.uc_body.
  destruct (Search.heappop (Search.uc_nodes st)) as [[[cost b] nodes]|] eqn:Hpop;
    [rewrite bind_Ok|exact I].
  apply pop_perm in Hpop. rewrite Hpop in Hall.
  apply Forall_cons in Hall as [Hb Hrest]. cbn [snd] in Hb.
  destruct (Board.is_final_state c b); [exact Hb|].
  unfold Search.expand.
  destruct (Board.generate_children b _) as [[kids b']|] eqn:Hgen; [rewrite bind_Ok|exact I].
  cbn [Search.uc_nodes fst]. rewrite fold_push_perm.
  apply Forall_app. split; [|exact Hrest].
  destruct (generate_children_cost _ _ _ _ Hb Hgen) as [Hk _].
  apply Forall_map. eapply Forall_impl; [exact Hk|]. intros k Hz. exact Hz.
Qed.

Lemma astar_body_cost (c : Board.cls) (st : Search.as_state) :
  Forall (fun e => cost_zero e.2) (Search.as_nodes st) ->
  match Search.astar_body c st with
  | Ok (inl st') => Forall (fun e => cost_zero e.2) (Search.as_nodes st')
  | Ok (inr b) => cost_zero b
  | Raise _ => True
  end.
Proof.
  intros Hall. unfold Search.astar_body.
  destruct (Search.heappop (Search.as_nodes st)) as [[[cost b] nodes]|] eqn:Hpop;
    [rewrite bind_Ok|exact I].
  apply pop_perm in Hpop. rewrite Hpop in Hall.
  apply Forall_cons in Hall as [Hb Hrest]. cbn [snd] in Hb.
  destruct (Board.is_final_state c b); [exact Hb|].
  unfold Search.expand.
  destruct (Board.generate_children b _) as [[kids b']|] eqn:Hgen; [rewrite bind_Ok|exact I].
  cbn [fst].
  destruct (for_ kids _ _) as [st'|] eqn:Hfor; [rewrite bind_Ok|exact I].
  cbn [Search.as_nodes].
  destruct (generate_children_cost _ _ _ _ Hb Hgen) as [Hk _].
  eapply astar_children_cost; [exact Hfor|exact Hk|exact Hrest].
Qed.

Lemma start_cost (g : Board.grid) (root : Board.t) :
  Board.init g None = Ok root ->
  Forall (fun e : Search.entry => cost_zero e.2) (Search.heappush [] (0, root)).
Proof.
  intros (er & ec & ->)%init_shape. rewrite push_perm.
  constructor; [|constructor]. cbn. auto.
Qed.

(** C10: in every state a run of [uc_search] or [astar_search] goes
    through, the [cost] attribute is 0 on every board of the frontier, on
    its ancestors and on their children, and on the board returned; on
    such boards [Board.__lt__] is the depth comparison when the contents
    are equal and false otherwise. *)
Theorem cost_stays_zero (c : Board.cls) (self : Search.t) :
  (forall st, uc_reach c self st ->
     Forall (fun e => cost_zero e.2) (Search.uc_nodes st) /\
     forall b, Search.uc_body c st = Ok (inr b) -> cost_zero b) /\
  (forall st, as_reach c self st ->
     Forall (fun e => cost_zero e.2) (Search.as_nodes st) /\
     forall b, Search.astar_body c st = Ok (inr b) -> cost_zero b) /\
  (forall a b, Board.cost a = 0 -> Board.cost b = 0 ->
     Board.lt a b
     = bool_decide (Board.state a = Board.state b)
       && (Board.depth a <? Board.depth b)).
Proof.
  split; [|split; [|exact lt_cost_zero]].
  - assert (H : forall st, uc_reach c self st ->
                  Forall (fun e => cost_zero e.2) (Search.uc_nodes st)).
    { induction 1 as [st Hst|st st' _ IH _ Hbody].
      - unfold Search.uc_start in Hst.
        destruct (Board.init _ None) as [root|] eqn:Hinit; [|discriminate].
        rewrite bind_Ok in Hst. injection Hst as <-. eapply start_cost, Hinit.
      - pose proof (uc_body_cost c st IH) as Hc. rewrite Hbody in Hc. exact Hc. }
    intros st Hst. split; [apply H, Hst|]. intros b Hb.
    pose proof (uc_body_cost c st (H st Hst)) as Hc. rewrite Hb in Hc. exact Hc.
  - assert (H : forall st, as_reach c self st ->
                  Forall (fun e => cost_zero e.2) (Search.as_nodes st)).
    { induction 1 as [st Hst|st st' _ IH _ Hbody].
      - unfold Search.astar_start in Hst.
        destruct (Board.init _ None) as [root|] eqn:Hinit; [|discriminate].
        rewrite bind_Ok in Hst. injection Hst as <-. eapply start_cost, Hinit.
      - pose proof (astar_body_cost c st IH) as Hc. rewrite Hbody in Hc. exact Hc. }
    intros st Hst. split; [apply H, Hst|]. intros b Hb.
    pose proof (astar_body_cost c st (H st Hst)) as Hc. rewrite Hb in Hc. exact Hc.
Qed.

(** C3, as stated, fails from [start_7]: the contents [twice_6] are
    pushed by two parents before they are first expanded, and are expanded
    at turn 63 and again at turn 88 of a run that expands 106 nodes. *)
Lemma uc_expands_twice :
  let self := Search.mk Search.UNIFORM_COST 0 start_7 0 0 0 in
  outcome (Search.uc_search Board.cls0 107 self)
  = Some (Some (Board.final Board.cls0, 7), 106) /\
  exists st, Search.uc_start self = Ok st /\
    (uc_expanded Board.cls0 107 st) !! 62%nat = Some twice_6 /\
    (uc_expanded Board.cls0 107 st) !! 87%nat = Some twice_6.
Proof.
  split; [vm_compute; reflexivity|].
  eexists. split; [reflexivity|]. split; vm_compute; reflexivity.
Qed.

Lemma generate_child_filter (vs : gset Board.grid) (self self' : Board.t)
    (q : Z * Z) :
  Board.generate_child (Some vs) self q = Ok self' ->
  Board.children self' = Board.children self \/
  exists k, Board.children self' = Board.children self ++ [k] /\
    (Board.state k ∉ vs) /\ no_children k.
Proof.
  unfold Board.generate_child. destruct q as [row col].
  destruct (getitem2 _ row col) as [v|]; [rewrite bind_Ok|discriminate].
  destruct (setitem2 _ _ _ v) as [b1|]; [rewrite bind_Ok|discriminate].
  destruct (setitem2 b1 row col 0) as [b2|]; [rewrite bind_Ok|discriminate].
  destruct (match Board.parent self with Some p => _ | None => _ end);
    [intros [= <-]; left; reflexivity|].
  destruct (Board.init b2 (Some self)) as [child|] eqn:Hinit; [rewrite bind_Ok|discriminate].
  apply init_shape in Hinit as (er & ec & ->).
  cbn [Board.state Board.set_depth].
  destruct (bool_decide (b2 ∈ vs)) eqn:Hin; cbn [negb]; intros [= <-];
    [left; reflexivity|].
  right. eexists. split; [reflexivity|]. cbn.
  apply bool_decide_eq_false in Hin. split; [exact Hin|]. split; reflexivity.
Qed.

Lemma generate_loop_filter (vs : gset Board.grid) (qs : list (Z * Z))
    (self self' : Board.t) :
  Forall (fun k => (Board.state k ∉ vs) /\ no_children k) (Board.children self) ->
  for_ qs (Board.generate_child (Some vs)) self = Ok self' ->
  Forall (fun k => (Board.state k ∉ vs) /\ no_children k) (Board.children self').
Proof.
  revert self. induction qs as [|q qs IH]; intros self Hall; cbn [for_].
  - intros [= <-]. exact Hall.
  - destruct (Board.generate_child (Some vs) self q) as [self2|] eqn:Hq; [|discriminate].
    rewrite bind_Ok. apply IH.
    apply generate_child_filter in Hq as [->|(k & -> & Hk)]; [exact Hall|].
    apply Forall_app. split; [exact Hall|]. constructor; [exact Hk|constructor].
Qed.

(** The successors that [generate_children] returns for an object without
    successors yet are outside the filter. *)
Lemma generate_children_filter (vs : gset Board.grid) (self self' : Board.t)
    (kids : list Board.t) :
  no_children self ->
  Board.generate_children self (Some vs) = Ok (kids, self') ->
  Forall (fun k => (Board.state k ∉ vs) /\ no_children k) kids.
Proof.
  intros [Hch Hvp]. unfold Board.generate_children. rewrite Hch.
  cbn [len length Z.of_nat Z.eqb negb].
  destruct (for_ _ _ _) as [self2|] eqn:Hfor; [|discriminate].
  rewrite bind_Ok. intros [= <- <-].
  eapply generate_loop_filter; [|exact Hfor].
  cbn. rewrite Hch. constructor.
Qed.

Lemma uc_frontier_no_children (c : Board.cls) (self : Search.t)
    (st : Search.uc_state) :
  uc_reach c self st ->
  Forall (fun e => no_children e.2) (Search.uc_nodes st).
Proof.
  induction 1 as [st Hst|st st' _ IH _ Hbody].
  - unfold Search.uc_start in Hst.
    destruct (Board.init _ None) as [root|] eqn:Hinit; [|discriminate].
    rewrite bind_Ok in Hst. injection Hst as <-. cbn [Search.uc_nodes].
    rewrite push_perm. apply init_shape in Hinit as (er & ec & ->).
    constructor; [split; reflexivity|constructor].
  - unfold Search.uc_body in Hbody.
    destruct (Search.heappop (Search.uc_nodes st)) as [[[cost b] nodes]|] eqn:Hpop;
      [rewrite bind_Ok in Hbody|discriminate].
    apply pop_perm in Hpop. rewrite Hpop in IH.
    apply Forall_cons in IH as [Hb Hrest]. cbn [snd] in Hb.
    destruct (Board.is_final_state c b); [discriminate|].
    unfold Search.expand in Hbody.
    destruct (Board.generate_children b _) as [[kids b']|] eqn:Hgen;
      [rewrite bind_Ok in Hbody|discriminate].
    injection Hbody as <-. cbn [Search.uc_nodes fst]. rewrite fold_push_perm.
    apply Forall_app. split; [|exact Hrest].
    apply Forall_map. eapply Forall_impl.
    + eapply generate_children_filter; eassumption.
    + intros k [_ Hk]. exact Hk.
Qed.

(** C3, amended: in every turn of the loop of [uc_search] the contents of
    the board popped join the visited set, the counter of expanded nodes
    goes up by one, and every entry the turn pushes holds contents outside
    the visited set: contents are pushed no more once they have been
    expanded. *)
Theorem visited_blocks_pushes (c : Board.cls) (self : Search.t)
    (st st' : Search.uc_state) :
  uc_reach c self st -> Search.uc_body c st = Ok (inl st') ->
  exists cost b rest pushed,
    Search.heappop (Search.uc_nodes st) = Ok ((cost, b), rest) /\
    Search.uc_visited st' = {[Board.state b]} ∪ Search.uc_visited st /\
    Search.count_nodes_expanded (Search.uc_self st')
    = Search.count_nodes_expanded (Search.uc_self st) + 1 /\
    Search.uc_nodes st' ≡ₚ pushed ++ rest /\
    Forall (fun e => (Board.state e.2 ∉ Search.uc_visited st') /\ e.1 = 1 + cost)
      pushed.
Proof.
  intros Hreach Hbody. pose proof (uc_frontier_no_children c self st Hreach) as Hnc.
  unfold Search.uc_body in Hbody.
  destruct (Search.heappop (Search.uc_nodes st)) as [[[cost b] nodes]|] eqn:Hpop;
    [rewrite bind_Ok in Hbody|discriminate].
  pose proof (pop_perm _ _ _ Hpop) as Hperm. rewrite Hperm in Hnc.
  apply Forall_cons in Hnc as [Hb _]. cbn [snd] in Hb.
  destruct (Board.is_final_state c b); [discriminate|].
  unfold Search.expand in Hbody.
  destruct (Board.generate_children b _) as [[kids b']|] eqn:Hgen;
    [rewrite bind_Ok in Hbody|discriminate].
  injection Hbody as <-. cbn [fst].
  exists cost, b, nodes, (map (fun child => (1 + cost, child)) kids).
  split; [reflexivity|]. split; [reflexivity|].
  split.
  { cbn [Search.uc_self]. unfold Search.update_max_queue_size.
    destruct (_ >? _); reflexivity. }
  split; [apply fold_push_perm|].
  cbn [Search.uc_visited]. apply Forall_map.
  eapply Forall_impl; [eapply generate_children_filter; eassumption|].
  intros k [Hk _]. split; [exact Hk|reflexivity].
Qed.

Lemma board_up_unexpanded : unexpanded 3 board_up.
Proof.
  split; [split; [reflexivity|repeat constructor]|].
  split; [reflexivity|]. split; [reflexivity|]. split; reflexivity.
Defined.

Lemma board_up_object : board_object 3 Board.cls0 board_up.
Proof.
  split; [split; [reflexivity|repeat constructor]|].
  split; [reflexivity|]. split; left; reflexivity.
Defined.

Lemma board_up_permutation : permutation_board 3 (Board.state board_up).
Proof. unfold permutation_board. apply (bool_decide_unpack _). vm_compute. exact I. Defined.

Lemma generate_children_exact_witness :
  (exists kids b',
     Board.generate_children board_up (Some goal_visited) = Ok (kids, b') /\
     forall s, In s (map Board.state kids) <->
       slide_from 3 (Board.state board_up) (blank board_up) s /\
       (forall p, Board.parent board_up = Some p -> s <> Board.state p) /\
       (forall vs, Some goal_visited = Some vs -> s ∉ vs)) /\
  (forall q, In q (Board.get_surrounding_valid_positions board_up).1 <->
     in_bounds 3 q /\ orthogonal (blank board_up) q) /\
  (Board.parent board_up = None -> at_corner 3 (blank board_up) -> 2 <= 3 ->
   length (Board.get_surrounding_valid_positions board_up).1 = 2%nat).
Proof. exact (generate_children_exact 3 board_up (Some goal_visited) board_up_unexpanded). Defined.

Lemma manhattan_distance_is_spec_witness :
  exists b',
    Board.manhattan_distance board_up
    = Ok (manhattan_spec 3 (Board.state board_up), b') /\
    Board.manhattan_distance b'
    = Ok (manhattan_spec 3 (Board.state board_up), b').
Proof.
  apply (manhattan_distance_is_spec Board.cls0 3 board_up board_up_object).
  intros q v Hq. apply (permutation_board_range 3 _ q v board_up_permutation) in Hq.
  lia.
Defined.

Lemma heuristics_zero_iff_goal_witness :
  exists mt md b1 b2,
    Board.misplaced_tile Board.cls0 board_up = Ok (mt, b1) /\
    Board.manhattan_distance board_up = Ok (md, b2) /\
    (mt = 0 <-> Board.state board_up = Board.final Board.cls0) /\
    (md = 0 <-> Board.state board_up = Board.final Board.cls0) /\
    (Board.is_final_state Board.cls0 board_up = true
     <-> Board.state board_up = Board.final Board.cls0).
Proof.
  exact (heuristics_zero_iff_goal board_up board_up_object board_up_permutation).
Defined.

Lemma manhattan_ge_misplaced_witness :
  exists md mt b1 b2,
    Board.manhattan_distance board_up = Ok (md, b1) /\
    Board.misplaced_tile Board.cls0 board_up = Ok (mt, b2) /\
    md >= mt.
Proof.
  exact (manhattan_ge_misplaced Board.cls0 3 board_up board_up_object
           board_up_permutation eq_refl).
Defined.

Lemma visited_blocks_pushes_witness :
  exists cost b rest pushed,
    Search.heappop (Search.uc_nodes state_7_0) = Ok ((cost, b), rest) /\
    Search.uc_visited state_7_1 = {[Board.state b]} ∪ Search.uc_visited state_7_0 /\
    Search.count_nodes_expanded (Search.uc_self state_7_1)
    = Search.count_nodes_expanded (Search.uc_self state_7_0) + 1 /\
    Search.uc_nodes state_7_1 ≡ₚ pushed ++ rest /\
    Forall (fun e => (Board.state e.2 ∉ Search.uc_visited state_7_1)
                     /\ e.1 = 1 + cost) pushed.
Proof.
  assert (Hstart : Search.uc_start (Search.mk Search.UNIFORM_COST 0 start_7 0 0 0)
                   = Ok state_7_0) by (vm_compute; reflexivity).
  assert (Hbody : Search.uc_body Board.cls0 state_7_0 = Ok (inl state_7_1))
    by (vm_compute; reflexivity).
  exact (visited_blocks_pushes Board.cls0 _ _ _ (uc_reach_start _ _ _ Hstart) Hbody).
Defined.

(** ** Moves, reachable boards and shortest paths *)

Lemma put_split (g : Board.grid) (p : Z * Z) (v a : Z) :
  cell g p = Some a ->
  exists g1 row g2,
    g = g1 ++ row :: g2 /\ row !! Z.to_nat p.2 = Some a /\
    put g p v = g1 ++ <[Z.to_nat p.2:=v]> row :: g2.
Proof.
  intros (Hr & Hc & row & Hrow & Hv)%cell_Some.
  exists (take (Z.to_nat p.1) g), row, (drop (S (Z.to_nat p.1)) g).
  split; [symmetry; apply take_drop_middle, Hrow|]. split; [exact Hv|].
  unfold put. apply list_eq. intros i.
  pose proof (lookup_lt_Some _ _ _ Hrow) as Hlt.
  destruct (decide (i = Z.to_nat p.1)) as [->|Hne].
  - rewrite list_lookup_alter_eq, Hrow.
    rewrite lookup_app_r by (rewrite length_take; lia).
    rewrite length_take. replace (Z.to_nat p.1 - _)%nat with 0%nat by lia. reflexivity.
  - rewrite list_lookup_alter_ne by congruence.
    rewrite <- (take_drop_middle g (Z.to_nat p.1) row Hrow) at 1.
    destruct (decide (i < Z.to_nat p.1)%nat).
    + rewrite !lookup_app_l by (rewrite length_take; lia). reflexivity.
    + rewrite !lookup_app_r by (rewrite length_take; lia).
      rewrite length_take.
      destruct (i - Z.to_nat p.1 `min` length g)%nat as [|j] eqn:E; [lia|]. reflexivity.
Qed.

Lemma concat_put_perm (g : Board.grid) (p : Z * Z) (v a : Z) :
  cell g p = Some a -> a :: concat (put g p v) ≡ₚ v :: concat g.
Proof.
  intros (g1 & row & g2 & -> & Hv & ->)%(put_split g p v a).
  rewrite !concat_app. cbn [concat].
  rewrite (Permutation_middle (concat g1) _ a), (Permutation_middle (concat g1) _ v).
  apply Permutation_app_head.
  change ((a :: <[Z.to_nat p.2:=v]> row) ++ concat g2 ≡ₚ (v :: row) ++ concat g2).
  apply Permutation_app_tail, insert_head_perm, Hv.
Qed.

(** Exchanging two cells keeps the cells of the board, as a multiset. *)
Lemma concat_swap_perm (g : Board.grid) (p q : Z * Z) :
  concat (swap_cells g p q) ≡ₚ concat g.
Proof.
  unfold swap_cells. destruct (cell g p) as [a|] eqn:Hp; [|reflexivity].
  destruct (cell g q) as [b|] eqn:Hq; [|reflexivity].
  assert (Hq' : cell (put g p b) q = Some b).
  { rewrite (cell_put g p q b a Hp). destruct (decide (p = q)); [reflexivity|exact Hq]. }
  apply (Permutation_cons_inv (a := b)).
  rewrite (concat_put_perm _ q a b Hq'), (concat_put_perm _ p b a Hp). reflexivity.
Qed.

Lemma square_swap (n : Z) (g : Board.grid) (p q : Z * Z) :
  square n g -> square n (swap_cells g p q).
Proof.
  intros Hsq. unfold swap_cells. destruct (cell g p); [|exact Hsq].
  destruct (cell g q); [|exact Hsq]. apply square_put, square_put, Hsq.
Qed.

Lemma move_valid (g g' : Board.grid) : valid3 g -> move g g' -> valid3 g'.
Proof.
  intros [Hsq Hperm] (p & Hp & q & Hq & Ho & ->). split.
  - apply square_swap, Hsq.
  - unfold permutation_board in *. rewrite concat_swap_perm. exact Hperm.
Qed.

Lemma reach_valid (s0 : Board.grid) (k : Z) (s : Board.grid) :
  valid3 s0 -> reach s0 k s -> valid3 s.
Proof. intros H0. induction 1; [exact H0|]. eapply move_valid; eassumption. Qed.

Lemma reach_nonneg (s0 : Board.grid) (k : Z) (s : Board.grid) :
  reach s0 k s -> 0 <= k.
Proof. induction 1; lia. Qed.

Lemma reach_inv (s0 : Board.grid) (k : Z) (s : Board.grid) :
  reach s0 k s ->
  (k = 0 /\ s = s0) \/ exists x, reach s0 (k - 1) x /\ move x s.
Proof.
  intros [|k' x s' Hx Hm]; [left; auto|right].
  exists x. replace (k' + 1 - 1) with k' by lia. auto.
Qed.

(** The step before the end of a shortest path ends a shortest path. *)
Lemma shortest_inv (s0 : Board.grid) (k : Z) (s : Board.grid) :
  shortest s0 k s ->
  (k = 0 /\ s = s0) \/ exists x, shortest s0 (k - 1) x /\ move x s.
Proof.
  intros [Hr Hmin]. destruct (reach_inv _ _ _ Hr) as [?|(x & Hx & Hm)]; [left; auto|right].
  exists x. split; [|exact Hm]. split; [exact Hx|].
  intros k' Hk'. specialize (Hmin (k' + 1) (reach_S _ _ _ _ Hk' Hm)). lia.
Qed.

Lemma shortest_unique (s0 : Board.grid) (k k' : Z) (s : Board.grid) :
  shortest s0 k s -> shortest s0 k' s -> k = k'.
Proof. intros [H1 H2] [H3 H4]. specialize (H2 _ H3). specialize (H4 _ H1). lia. Qed.

Lemma cell_flat3 (g : Board.grid) (p : Z * Z) :
  square 3 g -> in_bounds 3 p ->
  cell g p = concat g !! Z.to_nat (3 * p.1 + p.2).
Proof.
  intros Hsq [Hr Hc].
  destruct (square_3_inv g Hsq) as (a & b & c & d & e & f & g' & h & i & ->).
  destruct p as [r c']. cbn [fst snd] in *.
  assert (Hr' : r = 0 \/ r = 1 \/ r = 2) by lia.
  assert (Hc' : c' = 0 \/ c' = 1 \/ c' = 2) by lia.
  destruct Hr' as [->|[->| ->]], Hc' as [->|[->| ->]]; reflexivity.
Qed.

Lemma valid3_nodup (g : Board.grid) : valid3 g -> NoDup (concat g).
Proof.
  intros [_ Hperm]. unfold permutation_board in Hperm. rewrite Hperm.
  apply (bool_decide_unpack _). vm_compute. exact I.
Qed.

(** A valid board has one blank. *)
Lemma blank_unique (g : Board.grid) (p q : Z * Z) :
  valid3 g -> cell g p = Some 0 -> cell g q = Some 0 -> p = q.
Proof.
  intros Hv Hp Hq. pose proof (valid3_nodup g Hv) as Hnd.
  destruct Hv as [Hsq _].
  pose proof (cell_in_bounds 3 g p 0 Hsq Hp) as Hbp.
  pose proof (cell_in_bounds 3 g q 0 Hsq Hq) as Hbq.
  rewrite (cell_flat3 g p Hsq Hbp) in Hp. rewrite (cell_flat3 g q Hsq Hbq) in Hq.
  rewrite NoDup_alt in Hnd. specialize (Hnd _ _ _ Hp Hq).
  destruct p, q, Hbp, Hbq. cbn [fst snd] in *. f_equal; lia.
Qed.

Lemma valid3_has_blank (g : Board.grid) : valid3 g -> exists p, cell g p = Some 0.
Proof.
  intros [Hsq Hperm].
  assert (Hin : 0 ∈ concat g).
  { unfold permutation_board in Hperm. rewrite Hperm.
    apply (bool_decide_unpack _). vm_compute. exact I. }
  destruct (square_3_inv g Hsq) as (a & b & c & d & e & f & g' & h & i & ->).
  cbn [concat app] in Hin.
  repeat (apply elem_of_cons in Hin as [Hin|Hin]);
    [exists (0, 0)|exists (0, 1)|exists (0, 2)|exists (1, 0)|exists (1, 1)
    |exists (1, 2)|exists (2, 0)|exists (2, 1)|exists (2, 2)|];
    try (subst; reflexivity).
  apply elem_of_nil in Hin. contradiction.
Qed.

(** The root object [__init__] builds over a valid board. *)
Lemma init_valid (g : Board.grid) (p : option Board.t) :
  valid3 g ->
  exists er ec,
    Board.init g p = Ok (Board.mk g [] 3 p (-1) (-1) 0 0 er ec []) /\
    cell g (er, ec) = Some 0.
Proof.
  intros Hv. destruct (init_square 3 g p (proj1 Hv)) as (er & ec & Hinit & Hcase).
  exists er, ec. split; [exact Hinit|].
  destruct Hcase as [H|H]; [exact H|].
  destruct (valid3_has_blank g Hv) as [q Hq]. exfalso. apply (H q Hq).
Qed.

Lemma move_from_blank (b : Board.t) (s : Board.grid) :
  valid3 (Board.state b) -> cell (Board.state b) (blank b) = Some 0 ->
  move (Board.state b) s <-> slide_from 3 (Board.state b) (blank b) s.
Proof.
  intros Hv Hb. split.
  - intros (p & Hp & Hs). rewrite (blank_unique _ _ _ Hv Hb Hp). exact Hs.
  - intros Hs. exists (blank b). auto.
Qed.

Lemma parent_links_eq (p b : Board.t) :
  Board.parent p = Board.parent b -> parent_links p = parent_links b.
Proof. intros H. destruct p, b. cbn in *. rewrite H. reflexivity. Qed.

Lemma parent_links_nonneg (b : Board.t) : 0 <= parent_links b.
Proof. pose proof (get_cost_of_links b). revert b H. fix IH 1.
  intros [st ch n [p|] md mt co de er ec vp] _; cbn.
  - specialize (IH p (get_cost_of_links p)). lia.
  - lia.
Qed.

Lemma filter_length_le {A} (f : A -> bool) (l : list A) :
  (length (List.filter f l) <= length l)%nat.
Proof. induction l as [|x l IH]; cbn; [lia|]. destruct (f x); cbn; lia. Qed.

Lemma Forall2_in_r {A B} (R : A -> B -> Prop) (l1 : list A) (l2 : list B) (y : B) :
  Forall2 R l1 l2 -> y ∈ l2 -> exists x, In x l1 /\ R x y.
Proof.
  induction 1 as [|x y' l1 l2 Hxy _ IH]; intros Hy.
  - apply elem_of_nil in Hy. contradiction.
  - apply elem_of_cons in Hy as [->|Hy]; [exists x; split; [left; reflexivity|exact Hxy]|].
    destruct (IH Hy) as (x' & Hx' & HR). exists x'. split; [right; exact Hx'|exact HR].
Qed.

Lemma Forall2_in_l {A B} (R : A -> B -> Prop) (l1 : list A) (l2 : list B) (x : A) :
  Forall2 R l1 l2 -> In x l1 -> exists y, y ∈ l2 /\ R x y.
Proof.
  induction 1 as [|x' y l1 l2 Hxy _ IH]; intros Hx; [contradiction|].
  destruct Hx as [->|Hx]; [exists y; split; [left|exact Hxy]|].
  destruct (IH Hx) as (y' & Hy' & HR). exists y'. split; [right; exact Hy'|exact HR].
Qed.

Lemma generate_children_valid (visited : option (gset Board.grid)) (b : Board.t) :
  unexpanded 3 b -> valid3 (Board.state b) ->
  exists kids b',
    Board.generate_children b visited = Ok (kids, b') /\ kids_of visited b kids.
Proof.
  intros Hun Hv. pose proof Hun as (Hsq & Hn & Hch & Hvp & Hb).
  destruct (generate_children_ok 3 b visited Hun) as (kids & b' & Hgen & Hkids).
  exists kids, b'. split; [exact Hgen|].
  assert (Hss : forall s,
            In s (List.filter (fun s => negb (dropped visited b s))
                    (map (swap_cells (Board.state b) (blank b))
                       (Board.get_surrounding_valid_positions b).1)) <->
            move (Board.state b) s /\ dropped visited b s = false).
  { intros s. rewrite filter_In, in_map_iff, negb_true_iff.
    rewrite (move_from_blank b s Hv Hb). unfold slide_from. split.
    - intros [(q & <- & Hq) Hd]. split; [|exact Hd].
      apply (in_valid_positions 3 b q Hn Hvp) in Hq as [Hq1 Hq2]. eauto.
    - intros [(q & Hq1 & Hq2 & ->) Hd]. split; [|exact Hd].
      exists q. split; [reflexivity|]. apply (in_valid_positions 3 b q Hn Hvp). auto. }
  split; [|split].
  - intros k Hk. destruct (Forall2_in_r _ _ _ _ Hkids Hk) as (s & Hs & Hchild).
    apply Hss in Hs as [Hmove Hd].
    destruct Hchild as (p & er & ec & -> & Hps & Hpp & Hcell).
    cbn [Board.state Board.cost Board.m_dist Board.m_tile_count Board.parent].
    pose proof (move_valid _ _ Hv Hmove) as Hvs.
    split; [exact Hmove|]. split; [exact Hd|]. split.
    { split; [apply Hvs|]. rewrite Hn. repeat split. exact Hcell. }
    split; [exact Hvs|]. repeat (split; [reflexivity|]). split.
    + cbn [parent_links Board.parent]. rewrite (parent_links_eq p b Hpp). lia.
    + exists p. auto.
  - intros s Hmove Hd. destruct (Forall2_in_l _ _ _ s Hkids) as (k & Hk & Hchild).
    { apply Hss. auto. }
    exists k. split; [exact Hk|]. destruct Hchild as (p & er & ec & -> & _). reflexivity.
  - rewrite <- (Forall2_length _ _ _ Hkids).
    etransitivity; [apply filter_length_le|]. rewrite length_map, valid_positions_eq, Hvp.
    cbn [app]. etransitivity; [apply filter_length_le|]. cbn. lia.
Qed.

(** ** Uniform Cost Search finds a shortest path *)

Lemma first_unvisited (s0 : Board.grid) (vs : gset Board.grid) (k : Z)
    (y : Board.grid) :
  shortest s0 k y -> y ∉ vs ->
  exists i z, i <= k /\ shortest s0 i z /\ (z ∉ vs) /\
    (i = 0 \/ exists x, x ∈ vs /\ shortest s0 (i - 1) x /\ move x z).
Proof.
  intros Hs. pose proof (reach_nonneg _ _ _ (proj1 Hs)) as Hk.
  revert y Hs. pattern k. apply (natlike_ind _); [| |exact Hk]; clear k Hk.
  - intros y Hs Hy. exists 0, y. split; [lia|]. split; [exact Hs|]. split; [exact Hy|].
    left. reflexivity.
  - intros k Hk IH y Hs Hy.
    destruct (shortest_inv _ _ _ Hs) as [[Hk0 _]|(x & Hx & Hm)]; [lia|].
    replace (Z.succ k - 1) with k in Hx by lia.
    destruct (decide (x ∈ vs)) as [Hin|Hnin].
    + exists (Z.succ k), y. split; [lia|]. split; [exact Hs|]. split; [exact Hy|].
      right. exists x. replace (Z.succ k - 1) with k by lia. auto.
    + destruct (IH x Hx Hnin) as (i & z & Hi & Hz). exists i, z. split; [lia|exact Hz].
Qed.

Lemma search_pop (nodes : list Search.entry) :
  heap_ok fst nodes -> Forall cost0 nodes -> nodes <> [] ->
  exists x rest,
    Search.heappop nodes = Ok (x, rest) /\ nodes ≡ₚ x :: rest /\
    heap_ok fst rest /\ forall e, e ∈ nodes -> x.1 <= e.1.
Proof.
  intros Hok Hc Hne. destruct (pop_nonempty nodes Hne) as (x & rest & Hpop).
  exists x, rest. split; [exact Hpop|]. split; [apply pop_perm, Hpop|].
  destruct (heappop_ok Search.entry_lt fst cost0 entry_lt_key nodes x rest Hok Hc Hpop)
    as [Hok' H0].
  split; [exact Hok'|]. intros e He.
  apply list_elem_of_lookup_1 in He as [j Hj].
  eapply (heap_min fst nodes x Hok H0 j e Hj).
Qed.

Lemma fold_push_ok {B} (f : B -> Search.entry) (kids : list B)
    (nodes : list Search.entry) :
  heap_ok fst nodes -> Forall cost0 nodes -> Forall (fun k => cost0 (f k)) kids ->
  heap_ok fst (fold_left (fun nodes child => Search.heappush nodes (f child))
                 kids nodes).
Proof.
  revert nodes. induction kids as [|k kids IH]; intros nodes Hok Hc Hk;
    cbn [fold_left]; [exact Hok|].
  apply Forall_cons in Hk as [Hk1 Hk2]. apply IH; [| |exact Hk2].
  - apply (heappush_ok Search.entry_lt fst cost0 entry_lt_key); assumption.
  - rewrite push_perm. constructor; assumption.
Qed.

Lemma sumZ_perm (l l' : list Z) : l ≡ₚ l' -> sumZ l = sumZ l'.
Proof.
  induction 1 as [|x l l' _ IH|x y l|l l' l'' _ IH1 _ IH2]; cbn [sumZ fold_right];
    [reflexivity| | |congruence].
  - fold (sumZ l). fold (sumZ l'). lia.
  - fold (sumZ l). lia.
Qed.

Lemma sumZ_app (l l' : list Z) : sumZ (l ++ l') = sumZ l + sumZ l'.
Proof.
  induction l as [|x l IH]; cbn [sumZ fold_right app]; [reflexivity|].
  fold (sumZ (l ++ l')). fold (sumZ l). lia.
Qed.

Lemma sumZ_const {B} (f : B -> Z) (c : Z) (l : list B) :
  (forall x, In x l -> f x = c) -> sumZ (map f l) = Z.of_nat (length l) * c.
Proof.
  induction l as [|x l IH]; intros H; cbn [sumZ fold_right map length]; [lia|].
  fold (sumZ (map f l)). rewrite IH by (intros y Hy; apply H; right; exact Hy).
  rewrite (H x) by (left; reflexivity). lia.
Qed.

Lemma uc_weight_nonneg (dist : Z) (nodes : list Search.entry) :
  0 <= uc_weight dist nodes.
Proof.
  apply sumZ_nonneg. intros x (e & <- & _)%in_map_iff. apply Z.pow_nonneg. lia.
Qed.

Section UniformCost.

Variable s0 : Board.grid.
Variable dist : Z.
Hypothesis start_valid : valid3 s0.
Hypothesis goal_dist : shortest s0 dist (Board.final Board.cls0).

(** The cheapest entry is no dearer than the distance of any board that is
    not visited yet. *)
Lemma uc_min_bound (st : Search.uc_state) (x : Search.entry) (k : Z)
    (y : Board.grid) :
  uc_inv s0 dist st -> (forall e, e ∈ Search.uc_nodes st -> x.1 <= e.1) ->
  shortest s0 k y -> y ∉ Search.uc_visited st -> x.1 <= k.
Proof.
  intros (_ & _ & _ & Hfront & _) Hmin Hs Hy.
  destruct (first_unvisited s0 _ k y Hs Hy) as (i & z & Hi & Hz & Hzv & Hcond).
  destruct (Hfront i z Hz Hzv Hcond) as (b & Hb & _).
  specialize (Hmin _ Hb). cbn [fst] in Hmin. lia.
Qed.

Lemma uc_nonempty (st : Search.uc_state) :
  uc_inv s0 dist st -> Search.uc_nodes st <> [].
Proof.
  intros (_ & _ & Hgoal & Hfront & _) Hnil.
  destruct (first_unvisited s0 _ dist _ goal_dist Hgoal) as (i & z & Hi & Hz & Hzv & Hcond).
  destruct (Hfront i z Hz Hzv Hcond) as (b & Hb & _).
  rewrite Hnil in Hb. apply elem_of_nil in Hb. exact Hb.
Qed.

Lemma uc_entry_mono (vs vs' : gset Board.grid) (e : Search.entry) :
  vs ⊆ vs' -> uc_entry_ok s0 vs e -> uc_entry_ok s0 vs' e.
Proof.
  intros Hsub (H1 & H2 & H3 & H4 & H5 & H6). repeat (split; [assumption|]).
  intros p Hp. apply Hsub, H6, Hp.
Qed.

(** One turn of the loop: the goal is returned at its distance, or the
    invariant holds again and the measure has decreased. *)
Lemma uc_turn (st : Search.uc_state) :
  uc_inv s0 dist st ->
  (exists b, Search.uc_body Board.cls0 st = Ok (inr b) /\
     Board.state b = Board.final Board.cls0 /\ parent_links b = dist) \/
  (exists st', Search.uc_body Board.cls0 st = Ok (inl st') /\
     uc_inv s0 dist st' /\
     uc_weight dist (Search.uc_nodes st') < uc_weight dist (Search.uc_nodes st)).
Proof.
  intros Hinv. pose proof Hinv as (Hheap & Hall & Hgoal & Hfront & Hbound).
  destruct (search_pop (Search.uc_nodes st)) as (x & rest & Hpop & Hperm & Hheap' & Hmin);
    [exact Hheap| |apply uc_nonempty, Hinv|].
  { eapply Forall_impl; [exact Hall|]. intros e He. apply He. }
  destruct x as [c b].
  assert (Hx : uc_entry_ok s0 (Search.uc_visited st) (c, b)).
  { rewrite Forall_forall in Hall. apply Hall. rewrite Hperm. left. }
  destruct Hx as (Hun & Hval & Hc0 & Hc & Hreach & Hpar). cbn [fst snd] in *.
  assert (Hrest : forall e, e ∈ rest -> e ∈ Search.uc_nodes st).
  { intros e He. rewrite Hperm. right. exact He. }
  unfold Search.uc_body. rewrite Hpop, bind_Ok.
  unfold Board.is_final_state.
  destruct (bool_decide (Board.state b = Board.final Board.cls0)) eqn:Hfin.
  { apply bool_decide_eq_true in Hfin. left. exists b. split; [reflexivity|].
    split; [exact Hfin|].
    pose proof (uc_min_bound st (c, b) dist _ Hinv Hmin goal_dist Hgoal) as Hle.
    cbn [fst] in Hle. rewrite Hfin in Hreach.
    pose proof (proj2 goal_dist _ Hreach). lia. }
  apply bool_decide_eq_false in Hfin. right.
  set (vs' := {[Board.state b]} ∪ Search.uc_visited st).
  destruct (generate_children_valid (Some vs') b Hun Hval) as (kids & b' & Hgen & Hkids).
  unfold Search.expand. rewrite Hgen, bind_Ok. cbn [fst].
  eexists. split; [reflexivity|]. unfold uc_inv.
  cbn [Search.uc_nodes Search.uc_visited]. fold vs'.
  destruct Hkids as (Hk1 & Hk2 & Hk3).
  assert (Hcle : c <= dist).
  { apply (uc_min_bound st (c, b) dist _ Hinv Hmin goal_dist Hgoal). }
  assert (Hnodes' : fold_left
            (fun nodes child => Search.heappush nodes (1 + c, child)) kids rest
          ≡ₚ map (fun child => (1 + c, child)) kids ++ rest)
    by apply fold_push_perm.
  split; [split; [|split; [|split; [|split]]]|].
  - apply fold_push_ok; [exact Hheap'| |].
    + apply Forall_forall. intros e He. specialize (Hrest e He).
      rewrite Forall_forall in Hall. apply (Hall e Hrest).
    + apply Forall_forall. intros k Hk. apply (Hk1 k Hk).
  - rewrite Hnodes'. apply Forall_app. split.
    + apply Forall_map, Forall_forall. intros k Hk.
      destruct (Hk1 k Hk) as (Hm & Hd & Hunk & Hvk & Hck & _ & _ & Hlk & p & Hp & Hps).
      split; [exact Hunk|]. split; [exact Hvk|]. split; [exact Hck|].
      cbn [fst snd]. split; [lia|]. split.
      * replace (1 + c) with (c + 1) by lia. eapply reach_S; eassumption.
      * intros p' Hp'. rewrite Hp in Hp'. injection Hp' as <-. rewrite Hps.
        apply elem_of_union. left. apply elem_of_singleton. reflexivity.
    + apply Forall_forall. intros e He. apply (uc_entry_mono (Search.uc_visited st)).
      * apply union_subseteq_r.
      * rewrite Forall_forall in Hall. apply Hall, Hrest, He.
  - intros [H|H]%elem_of_union; [|contradiction].
    apply elem_of_singleton in H. congruence.
  - intros k y Hs Hy Hcond.
    assert (Hyb : y <> Board.state b).
    { intros ->. apply Hy, elem_of_union. left. apply elem_of_singleton. reflexivity. }
    assert (Hyv : y ∉ Search.uc_visited st).
    { intros H. apply Hy, elem_of_union. right. exact H. }
    assert (Hold : (k = 0 \/ exists x, x ∈ Search.uc_visited st /\
                      shortest s0 (k - 1) x /\ move x y) ->
                   exists b0, (k, b0) ∈ fold_left
                     (fun nodes child => Search.heappush nodes (1 + c, child)) kids rest
                     /\ Board.state b0 = y).
    { intros Hc'. destruct (Hfront k y Hs Hyv Hc') as (b0 & Hb0 & Hst).
      exists b0. split; [|exact Hst]. rewrite Hnodes'. apply elem_of_app. right.
      rewrite Hperm in Hb0. apply elem_of_cons in Hb0 as [[= -> ->]|Hb0]; [|exact Hb0].
      congruence. }
    destruct Hcond as [Hk0|(x & Hx & Hxs & Hm)]; [apply Hold; left; exact Hk0|].
    destruct (decide (x ∈ Search.uc_visited st)) as [Hxv|Hxv];
      [apply Hold; right; eauto|].
    assert (x = Board.state b) as ->.
    { apply elem_of_union in Hx as [Hx|Hx]; [|contradiction].
      apply elem_of_singleton in Hx. exact Hx. }
    assert (Hck : c = k - 1).
    { pose proof (proj2 Hxs _ Hreach).
      pose proof (uc_min_bound st (c, b) (k - 1) _ Hinv Hmin Hxs Hxv) as Hle.
      cbn [fst] in Hle. lia. }
    destruct (Hk2 y Hm) as (kid & Hkid & Hkst).
    { apply dropped_false. split.
      - intros p Hp Heq. apply Hyv. rewrite Heq. apply Hpar, Hp.
      - intros vs [= <-]. exact Hy. }
    exists kid. split; [|exact Hkst]. rewrite Hnodes'. apply elem_of_app. left.
    apply list_elem_of_fmap. exists kid. split; [f_equal; lia|exact Hkid].
  - rewrite Hnodes'. apply Forall_app. split.
    + apply Forall_map, Forall_forall. intros k _. cbn [fst]. lia.
    + apply Forall_forall. intros e He. rewrite Forall_forall in Hbound.
      apply Hbound, Hrest, He.
  - unfold uc_weight. rewrite (sumZ_perm _ _ (Permutation_map _ Hnodes')).
    rewrite (sumZ_perm _ _ (Permutation_map _ Hperm)).
    rewrite map_app, sumZ_app, map_map. cbn [map sumZ fold_right fst].
    fold (sumZ (map (fun e : Search.entry => 5 ^ (dist + 1 - e.1)) rest)).
    rewrite (sumZ_const _ (5 ^ (dist - c))).
    2:{ intros k _. cbn [fst]. f_equal. lia. }
    replace (dist + 1 - c) with (Z.succ (dist - c)) by lia.
    rewrite Z.pow_succ_r by lia.
    assert (0 < 5 ^ (dist - c)) by (apply Z.pow_pos_nonneg; lia).
    match goal with |- _ + ?a < _ + ?b => change b with a; generalize a end.
    intros rest_weight. remember (5 ^ (dist - c)) as pw.
    assert (Z.of_nat (length kids) * pw <= 4 * pw) by nia. lia.
Qed.

End UniformCost.

Lemma len_pos {A} (l : list A) : l <> [] -> (len l >? 0) = true.
Proof.
  destruct l; [contradiction|]. intros _. unfold len. cbn [length].
  destruct (Z.gtb_spec (Z.of_nat (S (length l))) 0); [reflexivity|lia].
Qed.

Lemma push_first (x : Search.entry) : Search.heappush [] x = [x].
Proof. reflexivity. Qed.

Lemma uc_loop_more (fuel fuel' : nat) (st : Search.uc_state)
    (r : result (option Board.t * Search.t)) :
  Search.uc_loop Board.cls0 fuel st = Some r -> (fuel <= fuel')%nat ->
  Search.uc_loop Board.cls0 fuel' st = Some r.
Proof.
  revert fuel' st. induction fuel as [|fuel IH]; intros fuel' st H Hle; [discriminate|].
  destruct fuel' as [|fuel']; [lia|]. cbn [Search.uc_loop] in *.
  destruct (len (Search.uc_nodes st) >? 0); [|exact H].
  destruct (Search.uc_body Board.cls0 st) as [[st'|b]|e]; try exact H.
  apply IH; [exact H|lia].
Qed.

Section UniformCostRun.

Variable s0 : Board.grid.
Variable dist : Z.
Hypothesis start_valid : valid3 s0.
Hypothesis goal_dist : shortest s0 dist (Board.final Board.cls0).

Lemma uc_loop_finds (n : nat) (st : Search.uc_state) :
  uc_inv s0 dist st -> uc_weight dist (Search.uc_nodes st) < Z.of_nat n ->
  exists fuel b self',
    Search.uc_loop Board.cls0 fuel st = Some (Ok (Some b, self')) /\
    Board.state b = Board.final Board.cls0 /\ parent_links b = dist.
Proof.
  revert st. induction n as [|n IH]; intros st Hinv Hw.
  { pose proof (uc_weight_nonneg dist (Search.uc_nodes st)). lia. }
  pose proof (len_pos _ (uc_nonempty s0 dist goal_dist st Hinv)) as Hlen.
  destruct (uc_turn s0 dist goal_dist st Hinv)
    as [(b & Hbody & Hb)|(st' & Hbody & Hinv' & Hlt)].
  - exists 1%nat, b, (Search.uc_self st). split; [|exact Hb].
    cbn [Search.uc_loop]. rewrite Hlen, Hbody. reflexivity.
  - destruct (IH st' Hinv') as (fuel & b & self' & Hloop & Hb); [lia|].
    exists (S fuel), b, self'. split; [|exact Hb].
    cbn [Search.uc_loop]. rewrite Hlen, Hbody. exact Hloop.
Qed.

Lemma reach_0_inv (s : Board.grid) : reach s0 0 s -> s = s0.
Proof.
  intros H. destruct (reach_inv _ _ _ H) as [[_ ->]|(x & Hx & _)]; [reflexivity|].
  apply reach_nonneg in Hx. lia.
Qed.

Lemma uc_start_inv (self : Search.t) :
  Search.initial_state self = s0 ->
  exists st, Search.uc_start self = Ok st /\ uc_inv s0 dist st.
Proof.
  intros Hs0. unfold Search.uc_start. rewrite Hs0.
  destruct (init_valid s0 None start_valid) as (er & ec & -> & Hblank).
  rewrite bind_Ok. eexists. split; [reflexivity|].
  unfold uc_inv. cbn [Search.uc_nodes Search.uc_visited]. rewrite push_first.
  pose proof (reach_nonneg _ _ _ (proj1 goal_dist)) as Hd.
  split; [|split; [|split; [|split]]].
  - intros j x y Hj Hx. destruct j; [lia|discriminate].
  - constructor; [|constructor].
    split; [|split; [exact start_valid|]].
    { split; [apply start_valid|]. repeat split. exact Hblank. }
    split; [reflexivity|]. split; [reflexivity|]. split; [constructor|].
    intros p [=].
  - apply not_elem_of_empty.
  - intros k y Hs _ [->|(x & Hx & _)].
    + eexists. split; [left|]. cbn. symmetry. apply reach_0_inv, Hs.
    + apply elem_of_empty in Hx. contradiction.
  - constructor; [cbn; lia|constructor].
Qed.

(** Uniform Cost Search returns a goal state at the least number of
    moves. *)
Lemma uc_search_optimal (self : Search.t) :
  Search.initial_state self = s0 ->
  exists fuel b self',
    (forall fuel', (fuel <= fuel')%nat ->
       Search.uc_search Board.cls0 fuel' self = Some (Ok (Some b, self'))) /\
    Board.state b = Board.final Board.cls0 /\ parent_links b = dist.
Proof.
  intros Hs0. destruct (uc_start_inv self Hs0) as (st & Hstart & Hinv).
  destruct (uc_loop_finds (S (Z.to_nat (uc_weight dist (Search.uc_nodes st)))) st Hinv)
    as (fuel & b & self' & Hloop & Hb).
  { pose proof (uc_weight_nonneg dist (Search.uc_nodes st)). lia. }
  exists fuel, b, self'. split; [|exact Hb].
  intros fuel' Hle. unfold Search.uc_search. rewrite Hstart.
  eapply uc_loop_more; eassumption.
Qed.

End UniformCostRun.

(** ** The heuristics do not overestimate *)

Lemma reach_prepend (x y g : Board.grid) (j : Z) :
  move x y -> reach y j g -> reach x (j + 1) g.
Proof.
  intros Hm. induction 1 as [|k s s' _ IH Hs].
  - apply (reach_S x 0 x y (reach_0 x) Hm).
  - apply (reach_S x (k + 1) s s' IH Hs).
Qed.

Lemma manhattan_term_adjacent (p q : Z * Z) (v : Z) :
  orthogonal p q -> manhattan_term 3 (q, v) <= manhattan_term 3 (p, v) + 1.
Proof.
  unfold orthogonal, manhattan_term. destruct p as [r c], q as [r' c'].
  cbn [fst snd]. intros Ho. destruct (v =? 0); [lia|].
  destruct (Board.goal_cell 3 v) as [gr gc]. cbn [fst snd]. lia.
Qed.

Lemma manhattan_term_blank (p : Z * Z) : manhattan_term 3 (p, 0) = 0.
Proof. reflexivity. Qed.

Lemma manhattan_sum_3 (a b c d e f g h i : Z) :
  sumZ (map (manhattan_term 3) (cells [[a; b; c]; [d; e; f]; [g; h; i]]))
  = manhattan_term 3 (0, 0, a) + manhattan_term 3 (0, 1, b)
    + manhattan_term 3 (0, 2, c) + manhattan_term 3 (1, 0, d)
    + manhattan_term 3 (1, 1, e) + manhattan_term 3 (1, 2, f)
    + manhattan_term 3 (2, 0, g) + manhattan_term 3 (2, 1, h)
    + manhattan_term 3 (2, 2, i).
Proof.
  change (cells [[a; b; c]; [d; e; f]; [g; h; i]])
    with [(0, 0, a); (0, 1, b); (0, 2, c); (1, 0, d); (1, 1, e); (1, 2, f);
          (2, 0, g); (2, 1, h); (2, 2, i)].
  cbn [map sumZ fold_right]. lia.
Qed.

(** One move changes the Manhattan distance by one at most. *)
Lemma manhattan_move (x y : Board.grid) :
  square 3 x -> move x y ->
  sumZ (map (manhattan_term 3) (cells x))
  <= sumZ (map (manhattan_term 3) (cells y)) + 1.
Proof.
  intros Hsq (p & Hp & q & Hq & Ho & ->).
  destruct (swap_blank 3 x p q Hsq Hp Hq) as (v & Hv & -> & _ & _).
  pose proof (manhattan_term_adjacent p q v Ho) as Hadj.
  pose proof (manhattan_term_blank p) as Hbp.
  pose proof (manhattan_term_blank q) as Hbq.
  pose proof (cell_in_bounds 3 x p 0 Hsq Hp) as [Hp1 Hp2].
  destruct Hq as [Hq1 Hq2].
  destruct (square_3_inv x Hsq) as (a & b & c & d & e & f & g & h & i & ->).
  destruct p as [pr pc], q as [qr qc]. unfold orthogonal in Ho. cbn [fst snd] in *.
  assert (Hpr : pr = 0 \/ pr = 1 \/ pr = 2) by lia.
  assert (Hpc : pc = 0 \/ pc = 1 \/ pc = 2) by lia.
  assert (Hqr : qr = 0 \/ qr = 1 \/ qr = 2) by lia.
  assert (Hqc : qc = 0 \/ qc = 1 \/ qc = 2) by lia.
  clear Hsq Hp1 Hp2 Hq1 Hq2.
  destruct Hpr as [->|[->| ->]], Hpc as [->|[->| ->]],
    Hqr as [->|[->| ->]], Hqc as [->|[->| ->]];
    try (exfalso; clear -Ho; lia); clear Ho;
    injection Hp as Hp; injection Hv as Hv; subst;
    match goal with
    | |- context [put (put ?g ?p ?v) ?q 0] =>
        let g' := eval cbv in (put (put g p v) q 0) in
        change (put (put g p v) q 0) with g'
    end;
    rewrite !manhattan_sum_3; lia.
Qed.

(** The Manhattan distance does not overestimate. *)
Lemma manhattan_reach (x y : Board.grid) (j : Z) :
  valid3 x -> reach x j y ->
  sumZ (map (manhattan_term 3) (cells x))
  <= j + sumZ (map (manhattan_term 3) (cells y)).
Proof.
  intros Hv. induction 1 as [|k s s' Hr IH Hs]; [lia|].
  pose proof (manhattan_move s s' (proj1 (reach_valid _ _ _ Hv Hr)) Hs). lia.
Qed.

Lemma h_of_nonneg (heur : Z) (s : Board.grid) : 0 <= h_of heur s.
Proof.
  unfold h_of. destruct (heur =? _); [|destruct (heur =? _); [|lia]].
  - apply sumZ_nonneg. intros x (c & <- & _)%in_map_iff. apply manhattan_term_nonneg.
  - apply sumZ_nonneg. intros x (c & <- & _)%in_map_iff. apply misplaced_term_nonneg.
Qed.

Lemma h_of_goal (heur : Z) : h_of heur (Board.final Board.cls0) = 0.
Proof. unfold h_of. destruct (heur =? _); [|destruct (heur =? _)]; reflexivity. Qed.

(** Either heuristic is admissible. *)
Lemma h_of_admissible (heur : Z) (x : Board.grid) (j : Z) :
  valid3 x -> reach x j (Board.final Board.cls0) -> h_of heur x <= j.
Proof.
  intros Hv Hr. pose proof (manhattan_reach _ _ _ Hv Hr) as Hm.
  change (sumZ (map (manhattan_term 3) (cells (Board.final Board.cls0)))) with 0 in Hm.
  unfold h_of. destruct (heur =? _); [lia|].
  destruct (heur =? _); [|pose proof (reach_nonneg _ _ _ Hr); lia].
  assert (sumZ (map (misplaced_term (Board.final Board.cls0)) (cells x))
          <= sumZ (map (manhattan_term 3) (cells x))); [|lia].
  apply sumZ_le. intros [[row col] k] Hin%in_cells.
  rewrite <- canonical_goal_3. apply misplaced_le_manhattan_term; cbn [fst snd].
  - eapply cell_in_bounds; [apply Hv|exact Hin].
  - eapply (permutation_board_range 3); [apply Hv|exact Hin].
Qed.

Lemma same_node_unexpanded (k k' : Board.t) :
  same_node k k' -> unexpanded 3 k -> unexpanded 3 k'.
Proof.
  intros (H1 & H2 & H3 & H4 & H5 & H6 & H7 & H8) (U1 & U2 & U3 & U4 & U5).
  unfold unexpanded. rewrite H1, H3, H4, H5, H7, H8. auto.
Qed.

Lemma same_node_links (k k' : Board.t) :
  same_node k k' -> parent_links k' = parent_links k.
Proof. intros (_ & H & _). apply parent_links_eq, H. Qed.

(** The heuristic of a fresh successor object. *)
Lemma heuristic_value (self : Search.t) (k : Board.t) :
  board_object 3 Board.cls0 k -> valid3 (Board.state k) ->
  exists k',
    Search.get_heuristic_cost Board.cls0 self (Some k)
    = Ok (h_of (Search.heuristic self) (Board.state k), Some k') /\
    same_node k k'.
Proof.
  intros Hobj Hv.
  assert (Hex : exists r, Search.get_heuristic_cost Board.cls0 self (Some k)
                  = Ok (h_of (Search.heuristic self) (Board.state k), r)).
  { unfold Search.get_heuristic_cost, h_of.
    destruct (Search.heuristic self =? Search.MANHATTAN_DISTANCE).
    - destruct (manhattan_distance_object _ 3 k Hobj) as (k' & -> & _).
      rewrite bind_Ok. eauto.
    - destruct (Search.heuristic self =? Search.MISPLACED_TILE); [|eauto].
      destruct (misplaced_tile_ok _ 3 k Hobj) as (k' & -> & _).
      { rewrite <- canonical_goal_3. apply covers_canonical, Hobj. }
      rewrite bind_Ok. eauto. }
  destruct Hex as [r Hr]. destruct (heuristic_fields _ _ _ _ _ Hr) as (k' & -> & Hcase).
  exists k'. split; [exact Hr|].
  destruct Hcase as [[m ->]|[[m ->]| ->]]; repeat split.
Qed.

(** ** A bound on the length of shortest paths *)

(** A list of distinct numbers below [n] has [n] elements at most. *)
Lemma nodup_bounded (l : list Z) (n : Z) :
  0 <= n -> NoDup l -> (forall x, x ∈ l -> 0 <= x < n) -> Z.of_nat (length l) <= n.
Proof.
  intros Hn Hnd Hb.
  assert (Hsub : l ⊆+ range 0 n).
  { apply NoDup_submseteq; [exact Hnd|]. intros x Hx.
    apply list_elem_of_In, in_range, Hb, Hx. }
  apply submseteq_length in Hsub. unfold range in Hsub.
  rewrite length_map, length_seq in Hsub. lia.
Qed.

Lemma board_code_bound (g : Board.grid) :
  valid3 g -> 0 <= board_code g < 9 ^ 8.
Proof.
  intros Hv. pose proof (fun q v => permutation_board_range 3 g q v (proj2 Hv)) as Hr.
  destruct (square_3_inv g (proj1 Hv)) as (a & b & c & d & e & f & g' & h & i & ->).
  pose proof (Hr (0, 0) a eq_refl). pose proof (Hr (0, 1) b eq_refl).
  pose proof (Hr (0, 2) c eq_refl). pose proof (Hr (1, 0) d eq_refl).
  pose proof (Hr (1, 1) e eq_refl). pose proof (Hr (1, 2) f eq_refl).
  pose proof (Hr (2, 0) g' eq_refl). pose proof (Hr (2, 1) h eq_refl).
  unfold board_code. cbn [concat app take fold_right].
  change (9 ^ 8) with 43046721. lia.
Qed.

Lemma digits_inj (l1 l2 : list Z) :
  length l1 = length l2 ->
  (forall x, In x l1 -> 0 <= x < 9) -> (forall x, In x l2 -> 0 <= x < 9) ->
  fold_right (fun x acc => x + 9 * acc) 0 l1
  = fold_right (fun x acc => x + 9 * acc) 0 l2 ->
  l1 = l2.
Proof.
  revert l2. induction l1 as [|x l1 IH]; intros [|y l2] Hlen H1 H2 Hc;
    try discriminate; [reflexivity|].
  cbn [fold_right] in Hc.
  pose proof (H1 x (or_introl eq_refl)) as Hx.
  pose proof (H2 y (or_introl eq_refl)) as Hy.
  remember (fold_right (fun x acc => x + 9 * acc) 0 l1) as u.
  remember (fold_right (fun x acc => x + 9 * acc) 0 l2) as v.
  assert (x = y /\ u = v) as [-> Huv] by lia. subst u v.
  f_equal. apply IH; [cbn [length] in Hlen; lia| | |exact Huv].
  - intros z Hz. apply H1. right. exact Hz.
  - intros z Hz. apply H2. right. exact Hz.
Qed.

Lemma board_code_inj (g1 g2 : Board.grid) :
  valid3 g1 -> valid3 g2 -> board_code g1 = board_code g2 -> g1 = g2.
Proof.
  intros Hv1 Hv2.
  pose proof (fun q v => permutation_board_range 3 g1 q v (proj2 Hv1)) as Hr1.
  pose proof (fun q v => permutation_board_range 3 g2 q v (proj2 Hv2)) as Hr2.
  pose proof (sumZ_perm _ _ (proj2 Hv1)) as Hs1.
  pose proof (sumZ_perm _ _ (proj2 Hv2)) as Hs2.
  destruct (square_3_inv g1 (proj1 Hv1)) as (a & b & c & d & e & f & g & h & i & ->).
  destruct (square_3_inv g2 (proj1 Hv2)) as (a' & b' & c' & d' & e' & f' & g' & h' & i' & ->).
  pose proof (Hr1 (0, 0) a eq_refl). pose proof (Hr1 (0, 1) b eq_refl).
  pose proof (Hr1 (0, 2) c eq_refl). pose proof (Hr1 (1, 0) d eq_refl).
  pose proof (Hr1 (1, 1) e eq_refl). pose proof (Hr1 (1, 2) f eq_refl).
  pose proof (Hr1 (2, 0) g eq_refl). pose proof (Hr1 (2, 1) h eq_refl).
  pose proof (Hr2 (0, 0) a' eq_refl). pose proof (Hr2 (0, 1) b' eq_refl).
  pose proof (Hr2 (0, 2) c' eq_refl). pose proof (Hr2 (1, 0) d' eq_refl).
  pose proof (Hr2 (1, 1) e' eq_refl). pose proof (Hr2 (1, 2) f' eq_refl).
  pose proof (Hr2 (2, 0) g' eq_refl). pose proof (Hr2 (2, 1) h' eq_refl).
  clear Hr1 Hr2 Hv1 Hv2.
  unfold board_code. cbn [concat app take].
  cbn [concat app sumZ fold_right] in Hs1, Hs2.
  change (sumZ (range 0 (3 * 3))) with 36 in Hs1, Hs2.
  intros Hc. apply digits_inj in Hc; [|reflexivity| |].
  - injection Hc as -> -> -> -> -> -> -> ->.
    assert (i = i') by lia. subst i'. reflexivity.
  - intros x Hx. cbn [In] in Hx.
    repeat (destruct Hx as [<-|Hx]; [lia|]). contradiction.
  - intros x Hx. cbn [In] in Hx.
    repeat (destruct Hx as [<-|Hx]; [lia|]). contradiction.
Qed.

(** The boards along a shortest path are distinct. *)
Lemma shortest_path_list (s0 : Board.grid) (k : Z) (y : Board.grid) :
  shortest s0 k y ->
  exists l : list Board.grid,
    Z.of_nat (length l) = k + 1 /\ NoDup l /\
    forall x, x ∈ l -> exists i, i <= k /\ reach s0 i x /\ shortest s0 i x.
Proof.
  intros Hs. pose proof (reach_nonneg _ _ _ (proj1 Hs)) as Hk.
  revert y Hs. pattern k. apply (natlike_ind _); [| |exact Hk]; clear k Hk.
  - intros y Hs. exists [y]. split; [reflexivity|]. split.
    + apply NoDup_singleton.
    + intros x ->%list_elem_of_singleton. exists 0. split; [lia|]. split; [apply Hs|exact Hs].
  - intros k Hk IH y Hs.
    destruct (shortest_inv _ _ _ Hs) as [[Hk0 _]|(x & Hx & Hm)]; [lia|].
    replace (Z.succ k - 1) with k in Hx by lia.
    destruct (IH x Hx) as (l & Hlen & Hnd & Hl).
    exists (y :: l). split; [cbn [length]; lia|]. split.
    + apply NoDup_cons. split; [|exact Hnd]. intros Hy.
      destruct (Hl y Hy) as (i & Hi & _ & Hsi).
      pose proof (shortest_unique _ _ _ _ Hs Hsi). lia.
    + intros z [->|Hz]%elem_of_cons.
      * exists (Z.succ k). split; [lia|]. split; [apply Hs|exact Hs].
      * destruct (Hl z Hz) as (i & Hi & Hz'). exists i. split; [lia|exact Hz'].
Qed.

(** No board is further than [9 ^ 8] moves from the start. *)
Lemma shortest_bound (s0 : Board.grid) (k : Z) (y : Board.grid) :
  valid3 s0 -> shortest s0 k y -> k < 9 ^ 8.
Proof.
  intros Hv Hs. destruct (shortest_path_list s0 k y Hs) as (l & Hlen & Hnd & Hl).
  assert (Hval : forall x, x ∈ l -> valid3 x).
  { intros x Hx. destruct (Hl x Hx) as (i & _ & Hr & _). eapply reach_valid; eassumption. }
  pose proof (nodup_bounded (map board_code l) (9 ^ 8)) as Hb.
  rewrite length_map in Hb. cut (Z.of_nat (length l) <= 9 ^ 8); [lia|]. apply Hb.
  - lia.
  - apply NoDup_fmap_2_strong; [|exact Hnd].
    intros x x' Hx Hx' Hc. apply board_code_inj; auto.
  - intros c (x & -> & Hx)%list_elem_of_fmap. apply board_code_bound, Hval, Hx.
Qed.

(** ** A* finds a shortest path *)

Lemma move_neq (x y : Board.grid) : valid3 x -> move x y -> x <> y.
Proof.
  intros Hv (p & Hp & q & Hq & Ho & ->) Heq.
  destruct (swap_blank 3 x p q (proj1 Hv) Hp Hq) as (v & _ & _ & H0 & _).
  rewrite <- Heq in H0. pose proof (blank_unique x p q Hv Hp H0) as ->.
  unfold orthogonal in Ho. lia.
Qed.

Lemma in_tuples (l : list Z) :
  (forall x, In x l -> 0 <= x < 9) -> In l (tuples (length l)).
Proof.
  induction l as [|x l IH]; intros H; cbn [length tuples]; [left; reflexivity|].
  apply in_flat_map. exists x. split.
  - apply in_range, H. left. reflexivity.
  - apply in_map, IH. intros y Hy. apply H. right. exact Hy.
Qed.

Lemma valid3_in_all (g : Board.grid) : valid3 g -> In g all_boards.
Proof.
  intros Hv. pose proof (fun q v => permutation_board_range 3 g q v (proj2 Hv)) as Hr.
  destruct (square_3_inv g (proj1 Hv)) as (a & b & c & d & e & f & g' & h & i & ->).
  pose proof (Hr (0, 0) a eq_refl). pose proof (Hr (0, 1) b eq_refl).
  pose proof (Hr (0, 2) c eq_refl). pose proof (Hr (1, 0) d eq_refl).
  pose proof (Hr (1, 1) e eq_refl). pose proof (Hr (1, 2) f eq_refl).
  pose proof (Hr (2, 0) g' eq_refl). pose proof (Hr (2, 1) h eq_refl).
  pose proof (Hr (2, 2) i eq_refl).
  unfold all_boards. apply in_map_iff. exists [a; b; c; d; e; f; g'; h; i].
  split; [reflexivity|]. apply (in_tuples [a; b; c; d; e; f; g'; h; i]).
  intros x Hx. cbn [In] in Hx.
  repeat (destruct Hx as [<-|Hx]; [lia|]). contradiction.
Qed.

Lemma sumZ_lt {A} (f g : A -> Z) (l : list A) (y : A) :
  (forall x, In x l -> f x <= g x) -> In y l -> f y < g y ->
  sumZ (map f l) < sumZ (map g l).
Proof.
  induction l as [|x l IH]; intros H Hy Hlt; [contradiction|].
  cbn [sumZ fold_right map]. fold (sumZ (map f l)). fold (sumZ (map g l)).
  assert (f x <= g x) by (apply H; left; reflexivity).
  assert (Hl : forall z, In z l -> f z <= g z) by (intros z Hz; apply H; right; exact Hz).
  pose proof (sumZ_le f g l Hl).
  destruct Hy as [->|Hy]; [lia|]. specialize (IH Hl Hy Hlt). lia.
Qed.

Lemma g_of_insert (g : gmap Board.grid Z) (y : Board.grid) (v : Z) (s : Board.grid) :
  g_of (<[y:=v]> g) s = if decide (s = y) then v else g_of g s.
Proof.
  unfold g_of. destruct (decide (s = y)) as [->|Hne].
  - rewrite lookup_insert_eq. reflexivity.
  - rewrite lookup_insert_ne by congruence. reflexivity.
Qed.

Lemma g_of_lookup (g : gmap Board.grid Z) (s : Board.grid) :
  is_Some (g !! s) -> g !! s = Some (g_of g s).
Proof. intros [v Hv]. unfold g_of. rewrite Hv. reflexivity. Qed.

(** A smaller [g_x] gives a smaller potential. *)
Lemma potential_le (g g' : gmap Board.grid Z) :
  (forall s, g_of g' s <= g_of g s) -> as_potential g' <= as_potential g.
Proof. intros H. apply sumZ_le. intros s _. apply H. Qed.

Lemma potential_lt (g g' : gmap Board.grid Z) (y : Board.grid) :
  (forall s, g_of g' s <= g_of g s) -> valid3 y -> g_of g' y < g_of g y ->
  as_potential g' < as_potential g.
Proof.
  intros H Hv Hlt. apply (sumZ_lt _ _ _ y); [intros s _; apply H| |exact Hlt].
  apply valid3_in_all, Hv.
Qed.

Lemma potential_nonneg (g : gmap Board.grid Z) :
  (forall s, 0 <= g_of g s) -> 0 <= as_potential g.
Proof.
  intros H. apply sumZ_nonneg. intros x (s & <- & _)%in_map_iff. apply H.
Qed.

Lemma entry_ok_mono (s0 : Board.grid) (heur : Z) (g g' : gmap Board.grid Z)
    (e : Search.entry) :
  (forall s, g_of g' s <= g_of g s) ->
  (forall s, is_Some (g !! s) -> is_Some (g' !! s)) ->
  as_entry_ok s0 heur g e -> as_entry_ok s0 heur g' e.
Proof.
  intros Hle Hdom (H1 & H2 & H3 & H4 & H5 & H6 & H7 & H8 & H9).
  repeat (split; [assumption|]).
  split; [apply Hdom, H6|].
  split; [specialize (Hle (Board.state e.2)); lia|].
  split; [specialize (Hle (Board.state e.2)); lia|].
  intros p Hp. specialize (H9 p Hp). specialize (Hle (Board.state p)). lia.
Qed.

Lemma len_push (nodes : list Search.entry) (x : Search.entry) :
  len (Search.heappush nodes x) = len nodes + 1.
Proof.
  unfold len. rewrite (Permutation_length (push_perm nodes x)). cbn [length]. lia.
Qed.

Lemma g_ok_le (s0 : Board.grid) (g : gmap Board.grid Z) (s : Board.grid) :
  g_ok s0 g -> 0 <= g_of g s <= 100000000.
Proof. intros H. destruct (H s) as [->|[? _]]; lia. Qed.

Section AStarStep.

Variable s0 : Board.grid.
Variable heur : Z.

(** One pass of the body of [for child in children]. *)
Lemma astar_child_step (b k : Board.t) (g0 : gmap Board.grid Z)
    (done0 : gset Board.grid) (processed : list Board.t) (W : Z)
    (st : Search.as_state) :
  valid3 (Board.state b) ->
  g_of g0 (Board.state b) <= parent_links b ->
  g_of g0 (Board.state b) < 100000000 ->
  ((forall y, move (Board.state b) y ->
      g_of g0 y <= g_of g0 (Board.state b) + 1) \/
   parent_links b = g_of g0 (Board.state b)) ->
  move (Board.state b) (Board.state k) -> unexpanded 3 k ->
  valid3 (Board.state k) -> Board.cost k = 0 ->
  Board.m_dist k = -1 -> Board.m_tile_count k = -1 ->
  parent_links k = parent_links b + 1 ->
  (exists p, Board.parent k = Some p /\ Board.state p = Board.state b) ->
  as_mid s0 heur (Board.state b) g0 done0 processed W st ->
  exists st',
    Search.astar_child Board.cls0 b st k = Ok st' /\
    as_mid s0 heur (Board.state b) g0 done0 (k :: processed) W st'.
Proof.
  intros HvB HgB HgB8 Hside Hmove Hun Hvk Hck Hmd Hmt Hlk (p & Hp & Hps) Hmid.
  destruct st as [nodes g visited self].
  destruct Hmid as (done & (Hheap & Hall & Hgok & Hvis & Hopen) & Hmono & HB &
                    HBin & Hsub & HBd & Hclosed & Hproc & Hheur & Hw).
  cbn [Search.as_nodes Search.as_g_x Search.as_visited Search.as_self] in *.
  assert (HneBY : Board.state b <> Board.state k) by (apply move_neq; assumption).
  unfold Search.astar_child.
  cbn [Search.as_nodes Search.as_g_x Search.as_visited Search.as_self].
  assert (Hgb : Search.g_get g b = Ok (g_of g (Board.state b))).
  { unfold Search.g_get. rewrite (g_of_lookup g _ HBin). reflexivity. }
  rewrite Hgb, bind_Ok.
  set (g1 := if negb (bool_decide (Board.state k ∈ dom g))
             then <[Board.state k:=100000000]> g else g).
  assert (Hg1 : forall s, g_of g1 s = g_of g s).
  { intros s. unfold g1. destruct (bool_decide (Board.state k ∈ dom g)) eqn:E;
      cbn [negb]; [reflexivity|].
    apply bool_decide_eq_false in E. rewrite g_of_insert.
    destruct (decide (s = Board.state k)) as [->|]; [|reflexivity].
    apply not_elem_of_dom in E. unfold g_of. rewrite E. reflexivity. }
  assert (Hd1 : forall s, is_Some (g !! s) -> is_Some (g1 !! s)).
  { intros s Hs. unfold g1. destruct (bool_decide (Board.state k ∈ dom g));
      cbn [negb]; [exact Hs|].
    apply lookup_insert_is_Some'. right. exact Hs. }
  assert (HY1 : is_Some (g1 !! Board.state k)).
  { unfold g1. destruct (bool_decide (Board.state k ∈ dom g)) eqn:E; cbn [negb].
    - apply bool_decide_eq_true in E. apply elem_of_dom in E. exact E.
    - apply lookup_insert_is_Some'. left. reflexivity. }
  assert (Hgk : Search.g_get g1 k = Ok (g_of g (Board.state k))).
  { unfold Search.g_get. rewrite (g_of_lookup g1 _ HY1), Hg1. reflexivity. }
  fold g1. rewrite Hgk, bind_Ok.
  pose proof (g_ok_le s0 g (Board.state k) Hgok) as HYle.
  destruct (Z.ltb_spec (1 + g_of g (Board.state b)) (g_of g (Board.state k)))
    as [Hlt|Hge].
  - (* the child is pushed *)
    assert (HlB : parent_links b = g_of g (Board.state b)).
    { destruct Hside as [Hcl|He]; [|lia].
      specialize (Hcl _ Hmove). specialize (Hmono (Board.state k)). lia. }
    assert (HrB : reach s0 (g_of g (Board.state b)) (Board.state b)).
    { destruct (Hgok (Board.state b)) as [H|[_ H]]; [lia|exact H]. }
    destruct (heuristic_value self k) as (k' & Hh & Hsame); [|exact Hvk|].
    { destruct Hun as (Hsq & Hn & _). split; [exact Hsq|]. split; [exact Hn|].
      split; left; assumption. }
    rewrite Hh, bind_Ok. cbn [fst snd from_option]. unfold id.
    pose proof Hsame as (Hst' & Hpar' & _ & _ & _ & Hcost' & _).
    unfold Search.g_get. rewrite Hst', lookup_insert_eq, bind_Ok, Hheur.
    set (cg := 1 + g_of g (Board.state b)) in *.
    set (Y := Board.state k) in *.
    assert (Hnv : (h_of heur Y + cg, Y) ∉ visited).
    { intros Hin. specialize (Hvis _ _ Hin). lia. }
    match goal with |- context [bool_decide ?P] => destruct (bool_decide P) eqn:E end.
    { apply bool_decide_eq_true in E. contradiction. }
    cbn [negb]. eexists. split; [reflexivity|].
    set (g2 := <[Y:=cg]> g1).
    assert (Hg2 : forall s, g_of g2 s = if decide (s = Y) then cg else g_of g s).
    { intros s. unfold g2. rewrite g_of_insert, Hg1. reflexivity. }
    assert (Hle2 : forall s, g_of g2 s <= g_of g s).
    { intros s. rewrite Hg2. destruct (decide (s = Y)) as [->|]; lia. }
    assert (Hd2 : forall s, is_Some (g !! s) -> is_Some (g2 !! s)).
    { intros s Hs. apply lookup_insert_is_Some'. right. apply Hd1, Hs. }
    assert (Hlk' : parent_links k' = cg).
    { rewrite (same_node_links k k' Hsame). unfold cg. lia. }
    assert (Hnew : as_entry_ok s0 heur g2 (h_of heur Y + cg, k')).
    { unfold as_entry_ok. cbn [fst snd]. rewrite Hst', Hlk', Hpar'. fold Y.
      split; [eapply same_node_unexpanded; eassumption|].
      split; [exact Hvk|]. split; [unfold cost0; cbn [snd]; lia|].
      split. { unfold cg. replace (1 + g_of g (Board.state b))
                 with (g_of g (Board.state b) + 1) by lia.
               eapply reach_S; eassumption. }
      split; [left; reflexivity|].
      split; [apply lookup_insert_is_Some'; left; reflexivity|].
      rewrite Hg2. destruct (decide (Y = Y)); [|congruence].
      split; [lia|]. split; [lia|].
      intros p' Hp'. rewrite Hp in Hp'. injection Hp' as <-. rewrite Hps, Hg2.
      destruct (decide (Board.state b = Y)); [contradiction|]. unfold cg. lia. }
    exists (done ∖ {[Y]}).
    cbn [Search.as_nodes Search.as_g_x Search.as_visited Search.as_self].
    fold g2.
    split; [split; [|split; [|split; [|split]]]|split; [|split; [|split; [|split;
      [|split; [|split; [|split; [|split]]]]]]]].
    + apply (heappush_ok Search.entry_lt fst cost0 entry_lt_key);
        [exact Hheap| |unfold cost0; cbn [snd]; lia].
      eapply Forall_impl; [exact Hall|]. intros e He. apply He.
    + rewrite push_perm. constructor; [exact Hnew|].
      eapply Forall_impl; [exact Hall|]. intros e. apply entry_ok_mono; assumption.
    + intros s. rewrite Hg2. destruct (decide (s = Y)) as [->|]; [|apply Hgok].
      right. split; [unfold cg in *; pose proof (g_ok_le s0 g (Board.state b) Hgok); lia|].
      unfold cg. replace (1 + g_of g (Board.state b))
        with (g_of g (Board.state b) + 1) by lia.
      eapply reach_S; eassumption.
    + intros f s [Hin|Hin]%elem_of_union.
      * apply elem_of_singleton in Hin. injection Hin as -> ->. rewrite Hg2.
        destruct (decide (Y = Y)); [lia|congruence].
      * specialize (Hvis f s Hin). specialize (Hle2 s). lia.
    + intros y Hy Hyd. destruct (decide (y = Y)) as [->|Hne].
      * exists (h_of heur Y + cg, k'). split; [rewrite push_perm; left|].
        cbn [snd]. rewrite Hg2. destruct (decide (Y = Y)); [|congruence]. auto.
      * rewrite Hg2 in Hy |- *. destruct (decide (y = Y)); [contradiction|].
        destruct (Hopen y Hy) as (e & He & Hes).
        { intros Hin. apply Hyd. apply elem_of_difference. split; [exact Hin|].
          intros Heq%elem_of_singleton. contradiction. }
        exists e. split; [rewrite push_perm; right; exact He|exact Hes].
    + intros s. specialize (Hle2 s). specialize (Hmono s). lia.
    + rewrite Hg2. destruct (decide (Board.state b = Y)); [contradiction|exact HB].
    + apply Hd2, HBin.
    + intros x [Hx _]%elem_of_difference. apply Hsub, Hx.
    + apply elem_of_difference. split; [exact HBd|].
      intros Heq%elem_of_singleton. contradiction.
    + intros x y [[Hx HxY]%elem_of_difference HxB]%elem_of_difference Hm.
      assert (x <> Y) by (intros ->; apply HxY, elem_of_singleton; reflexivity).
      rewrite (Hg2 x). destruct (decide (x = Y)); [contradiction|].
      specialize (Hle2 y).
      assert (g_of g y <= g_of g x + 1); [|lia].
      apply Hclosed; [|exact Hm]. apply elem_of_difference. auto.
    + intros k0 [->|Hk0]%elem_of_cons.
      * fold Y. rewrite Hg2. destruct (decide (Y = Y)); [|congruence].
        unfold cg. lia.
      * specialize (Hproc k0 Hk0). specialize (Hle2 (Board.state k0)). lia.
    + exact Hheur.
    + unfold as_weight in *. rewrite len_push.
      assert (as_potential g2 < as_potential g); [|lia].
      apply (potential_lt g g2 Y Hle2 Hvk). rewrite Hg2.
      destruct (decide (Y = Y)); [lia|congruence].
  - (* the child is left out *)
    eexists. split; [reflexivity|]. exists done.
    cbn [Search.as_nodes Search.as_g_x Search.as_visited Search.as_self].
    assert (Hle1 : forall s, g_of g1 s <= g_of g s) by (intros s; rewrite Hg1; lia).
    split; [split; [|split; [|split; [|split]]]|split; [|split; [|split; [|split;
      [|split; [|split; [|split; [|split]]]]]]]].
    + exact Hheap.
    + eapply Forall_impl; [exact Hall|]. intros e. apply entry_ok_mono; assumption.
    + intros s. rewrite Hg1. apply Hgok.
    + intros f s Hin. rewrite Hg1. apply Hvis, Hin.
    + intros y Hy Hyd. rewrite Hg1 in Hy |- *. apply Hopen; assumption.
    + intros s. rewrite Hg1. apply Hmono.
    + rewrite Hg1. exact HB.
    + apply Hd1, HBin.
    + exact Hsub.
    + exact HBd.
    + intros x y Hx Hm. rewrite !Hg1. apply Hclosed; assumption.
    + intros k0 [->|Hk0]%elem_of_cons; rewrite Hg1; [lia|apply Hproc, Hk0].
    + exact Hheur.
    + unfold as_weight in *.
      assert (as_potential g1 <= as_potential g) by (apply potential_le, Hle1). lia.
Qed.

End AStarStep.

Lemma update_max_heuristic (self : Search.t) (nodes : list Search.entry) :
  Search.heuristic (Search.update_max_queue_size self nodes) = Search.heuristic self.
Proof. unfold Search.update_max_queue_size. destruct (_ >? _); reflexivity. Qed.

Section AStar.

Variable s0 : Board.grid.
Variable dist : Z.
Variable heur : Z.
Hypothesis start_valid : valid3 s0.
Hypothesis goal_dist : shortest s0 dist (Board.final Board.cls0).

(** The whole of [for child in children]. *)
Lemma astar_children_loop (b : Board.t) (g0 : gmap Board.grid Z)
    (done0 : gset Board.grid) (W : Z) (kids : list Board.t) :
  valid3 (Board.state b) ->
  g_of g0 (Board.state b) <= parent_links b ->
  g_of g0 (Board.state b) < 100000000 ->
  ((forall y, move (Board.state b) y ->
      g_of g0 y <= g_of g0 (Board.state b) + 1) \/
   parent_links b = g_of g0 (Board.state b)) ->
  (forall k, k ∈ kids ->
     move (Board.state b) (Board.state k) /\
     dropped None b (Board.state k) = false /\
     unexpanded 3 k /\ valid3 (Board.state k) /\ Board.cost k = 0 /\
     Board.m_dist k = -1 /\ Board.m_tile_count k = -1 /\
     parent_links k = parent_links b + 1 /\
     exists p, Board.parent k = Some p /\ Board.state p = Board.state b) ->
  forall (processed : list Board.t) (st : Search.as_state),
    as_mid s0 heur (Board.state b) g0 done0 processed W st ->
    exists st' processed',
      for_ kids (Search.astar_child Board.cls0 b) st = Ok st' /\
      as_mid s0 heur (Board.state b) g0 done0 processed' W st' /\
      forall k, k ∈ kids \/ k ∈ processed -> k ∈ processed'.
Proof.
  intros HvB HgB HgB8 Hside. induction kids as [|k kids IH]; intros Hkids processed st Hmid.
  - exists st, processed. split; [reflexivity|]. split; [exact Hmid|].
    intros k [Hk|Hk]; [apply elem_of_nil in Hk; contradiction|exact Hk].
  - destruct (Hkids k) as (H1 & _ & H3 & H4 & H5 & H6 & H7 & H8 & H9); [left|].
    destruct (astar_child_step s0 heur b k g0 done0 processed W st
                HvB HgB HgB8 Hside H1 H3 H4 H5 H6 H7 H8 H9 Hmid) as (st1 & Hst1 & Hmid1).
    destruct (IH (fun k' Hk' => Hkids k' (list_elem_of_further _ _ _ Hk'))
                (k :: processed) st1 Hmid1) as (st' & processed' & Hfor & Hmid' & Hin).
    exists st', processed'. split; [cbn [for_]; rewrite Hst1, bind_Ok; exact Hfor|].
    split; [exact Hmid'|]. intros k0 [[->|Hk0]%elem_of_cons|Hk0]; apply Hin.
    + right. left.
    + left. exact Hk0.
    + right. right. exact Hk0.
Qed.

(** On a shortest path to the goal, the first board that is not settled is
    in the frontier, and its priority is at most the length of the path. *)
Lemma as_first_open (done : gset Board.grid) (nodes : list Search.entry)
    (g : gmap Board.grid Z) :
  Forall (as_entry_ok s0 heur g) nodes -> g_ok s0 g -> open_ok g done nodes ->
  closed_ok g done -> g_of g s0 = 0 ->
  forall k y j, shortest s0 k y -> reach y j (Board.final Board.cls0) ->
    k < 100000000 -> ~ (y ∈ done /\ g_of g y = k) ->
    exists e, e ∈ nodes /\ e.1 <= k + j.
Proof.
  intros Hall Hgok Hopen Hclosed Hg0 k y j Hs.
  pose proof (reach_nonneg _ _ _ (proj1 Hs)) as Hk.
  revert y j Hs. pattern k. apply (natlike_ind _); [| |exact Hk]; clear k Hk.
  - intros y j Hs Hj _ Hns.
    assert (y = s0) as -> by (apply reach_0_inv, Hs).
    destruct (Hopen s0) as (e & He & Hst & Hl); [lia| |].
    { intros Hin. apply Hns. auto. }
    exists e. split; [exact He|].
    rewrite Forall_forall in Hall. destruct (Hall e He) as (_ & _ & _ & _ & Hf & _).
    pose proof (h_of_admissible heur s0 j start_valid Hj) as Hadm.
    pose proof (h_of_nonneg heur s0). rewrite Hst, Hl, Hg0 in Hf. lia.
  - intros k Hk IH y j Hs Hj Hk8 Hns.
    destruct (shortest_inv _ _ _ Hs) as [[Hk0 _]|(x & Hx & Hm)]; [lia|].
    replace (Z.succ k - 1) with k in Hx by lia.
    pose proof (reach_prepend x y _ j Hm Hj) as Hxj.
    destruct (decide (x ∈ done /\ g_of g x = k)) as [[Hxd Hxg]|Hnx].
    + pose proof (Hclosed x y Hxd Hm) as Hle.
      assert (Hgy : g_of g y = Z.succ k).
      { destruct (Hgok y) as [H|[_ H]]; [lia|]. pose proof (proj2 Hs _ H). lia. }
      destruct (Hopen y) as (e & He & Hst & Hl); [lia| |].
      { intros Hin. apply Hns. auto. }
      exists e. split; [exact He|].
      rewrite Forall_forall in Hall. destruct (Hall e He) as (_ & _ & _ & _ & Hf & _).
      assert (Hvy : valid3 y) by (eapply reach_valid; [exact start_valid|apply Hs]).
      pose proof (h_of_admissible heur y j Hvy Hj) as Hadm.
      pose proof (h_of_nonneg heur y). rewrite Hst, Hl, Hgy in Hf. lia.
    + destruct (IH x (j + 1) Hx Hxj) as (e & He & Hle); [lia|exact Hnx|].
      exists e. split; [exact He|lia].
Qed.

(** The frontier holds an entry whose priority is at most the distance of
    the goal. *)
Lemma as_goal_bound (st : Search.as_state) :
  as_inv s0 heur st -> exists e, e ∈ Search.as_nodes st /\ e.1 <= dist.
Proof.
  intros (done & (_ & Hall & Hgok & _ & Hopen) & Hfin & Hclosed & Hg0 & _).
  destruct (as_first_open done _ _ Hall Hgok Hopen Hclosed Hg0 dist _ 0 goal_dist)
    as (e & He & Hle).
  - constructor.
  - pose proof (shortest_bound s0 dist _ start_valid goal_dist). lia.
  - intros [H _]. contradiction.
  - exists e. split; [exact He|lia].
Qed.

Lemma as_nonempty (st : Search.as_state) :
  as_inv s0 heur st -> Search.as_nodes st <> [].
Proof.
  intros Hinv Hnil. destruct (as_goal_bound st Hinv) as (e & He & _).
  rewrite Hnil in He. apply elem_of_nil in He. exact He.
Qed.
End AStar.

Section AStarTurn.

Variable s0 : Board.grid.
Variable dist : Z.
Variable heur : Z.
Hypothesis start_valid : valid3 s0.
Hypothesis goal_dist : shortest s0 dist (Board.final Board.cls0).

(** One turn of the loop: the goal is returned at its distance, or the
    invariant holds again and the measure has decreased. *)
Lemma as_turn (st : Search.as_state) :
  as_inv s0 heur st ->
  (exists b, Search.astar_body Board.cls0 st = Ok (inr b) /\
     Board.state b = Board.final Board.cls0 /\ parent_links b = dist) \/
  (exists st', Search.astar_body Board.cls0 st = Ok (inl st') /\
     as_inv s0 heur st' /\
     as_weight (Search.as_nodes st') (Search.as_g_x st')
     < as_weight (Search.as_nodes st) (Search.as_g_x st)).
Proof.
  intros Hinv. destruct (as_goal_bound s0 dist heur start_valid goal_dist st Hinv)
    as (e1 & He1 & He1d).
  pose proof (as_nonempty s0 dist heur start_valid goal_dist st Hinv) as Hne.
  destruct st as [nodes g visited self].
  destruct Hinv as (done & (Hheap & Hall & Hgok & Hvis & Hopen) & Hfin & Hclosed &
                    Hg0 & Hheur).
  cbn [Search.as_nodes Search.as_g_x Search.as_visited Search.as_self] in *.
  destruct (search_pop nodes) as (x & rest & Hpop & Hperm & Hheap' & Hmin);
    [exact Hheap| |exact Hne|].
  { eapply Forall_impl; [exact Hall|]. intros e He. apply He. }
  destruct x as [c b].
  assert (Hx : as_entry_ok s0 heur g (c, b)).
  { rewrite Forall_forall in Hall. apply Hall. rewrite Hperm. left. }
  destruct Hx as (Hun & Hval & Hc0 & Hreach & Hf & Hdom & Hgl & Hg8 & Hpar).
  cbn [fst snd] in *.
  assert (Hrest : forall e, e ∈ rest -> e ∈ nodes).
  { intros e He. rewrite Hperm. right. exact He. }
  assert (Hcd : c <= dist).
  { specialize (Hmin e1 He1). cbn [fst] in Hmin. lia. }
  unfold Search.astar_body.
  cbn [Search.as_nodes Search.as_g_x Search.as_visited Search.as_self].
  rewrite Hpop, bind_Ok. unfold Board.is_final_state.
  destruct (bool_decide (Board.state b = Board.final Board.cls0)) eqn:Hfinal.
  { apply bool_decide_eq_true in Hfinal. left. exists b. split; [reflexivity|].
    split; [exact Hfinal|]. rewrite Hfinal in Hreach, Hf.
    pose proof (proj2 goal_dist _ Hreach). rewrite h_of_goal in Hf. lia. }
  apply bool_decide_eq_false in Hfinal. right.
  destruct (generate_children_valid None b Hun Hval) as (kids & b' & Hgen & Hkids).
  unfold Search.expand. rewrite Hgen, bind_Ok. cbn [fst].
  destruct Hkids as (Hk1 & Hk2 & _).
  pose proof (g_ok_le s0 g (Board.state b) Hgok) as HgB0.
  (* the popped entry is settled already, or its chain is as long as g_x says *)
  assert (Hside : (forall y, move (Board.state b) y ->
                     g_of g y <= g_of g (Board.state b) + 1) \/
                  parent_links b = g_of g (Board.state b)).
  { destruct (decide (Board.state b ∈ done)) as [Hd|Hd].
    - left. intros y Hm. apply Hclosed; assumption.
    - right. destruct (Hopen _ Hg8 Hd) as (e & He & Hes & Hel).
      specialize (Hmin e He). cbn [fst] in Hmin.
      rewrite Forall_forall in Hall. destruct (Hall e He) as (_ & _ & _ & _ & Hfe & _).
      rewrite Hes, Hel in Hfe.
      pose proof (h_of_nonneg heur (Board.state b)). lia. }
  set (self1 := Search.set_count_nodes_expanded self
                  (Search.count_nodes_expanded self + 1)).
  set (done0 := done ∪ {[Board.state b]}).
  set (W := as_weight rest g).
  assert (Hmid0 : as_mid s0 heur (Board.state b) g done0 [] W
                    (Search.mkas rest g visited self1)).
  { exists done0.
    cbn [Search.as_nodes Search.as_g_x Search.as_visited Search.as_self].
    split; [split; [|split; [|split; [|split]]]|split; [|split; [|split; [|split;
      [|split; [|split; [|split; [|split]]]]]]]].
    - exact Hheap'.
    - apply Forall_forall. intros e He. rewrite Forall_forall in Hall.
      apply Hall, Hrest, He.
    - exact Hgok.
    - exact Hvis.
    - intros y Hy Hyd.
      assert (y <> Board.state b).
      { intros ->. apply Hyd, elem_of_union. right. apply elem_of_singleton. reflexivity. }
      destruct (Hopen y Hy) as (e & He & Hes & Hel).
      { intros Hin. apply Hyd, elem_of_union. left. exact Hin. }
      exists e. split; [|auto]. rewrite Hperm in He.
      apply elem_of_cons in He as [->|He]; [|exact He]. cbn [snd] in Hes. congruence.
    - intros s. lia.
    - reflexivity.
    - exact Hdom.
    - reflexivity.
    - apply elem_of_union. right. apply elem_of_singleton. reflexivity.
    - intros x y [[Hx|Hx]%elem_of_union Hnx]%elem_of_difference Hm.
      + apply Hclosed; assumption.
      + contradiction.
    - intros k Hk. apply elem_of_nil in Hk. contradiction.
    - exact Hheur.
    - lia. }
  destruct (astar_children_loop s0 heur b g done0 W kids Hval Hgl Hg8 Hside Hk1
              [] _ Hmid0) as (st' & processed' & Hfor & Hmid' & Hproc).
  fold self1. rewrite Hfor, bind_Ok. eexists. split; [reflexivity|].
  destruct st' as [nodes' g' visited' self'].
  destruct Hmid' as (done' & Hcore' & Hmono & HB & HBin & Hsub & HBd & Hclosed' &
                     Hprocessed & Hheur' & Hw).
  cbn [Search.as_nodes Search.as_g_x Search.as_visited Search.as_self] in *.
  split.
  - exists done'.
    cbn [Search.as_nodes Search.as_g_x Search.as_visited Search.as_self].
    split; [exact Hcore'|]. split; [|split; [|split]].
    + intros Hin. apply Hsub in Hin. apply elem_of_union in Hin as [Hin|Hin];
        [contradiction|]. apply elem_of_singleton in Hin. congruence.
    + intros x y Hx Hm. destruct (decide (x = Board.state b)) as [->|Hne'].
      * rewrite HB. pose proof (Hmono y) as Hy.
        destruct Hside as [Hcl|Hl]; [specialize (Hcl y Hm); lia|].
        destruct (dropped None b y) eqn:Hdrop.
        -- unfold dropped in Hdrop. rewrite orb_false_r in Hdrop.
           destruct (Board.parent b) as [p|] eqn:Hp; [|discriminate].
           apply bool_decide_eq_true in Hdrop. specialize (Hpar p eq_refl).
           rewrite Hdrop in Hpar. lia.
        -- destruct (Hk2 y Hm Hdrop) as (k & Hk & <-).
           assert (k ∈ processed') as Hkp by (apply Hproc; left; exact Hk).
           specialize (Hprocessed k Hkp). lia.
      * apply Hclosed'; [|exact Hm]. apply elem_of_difference. split; [exact Hx|].
        intros Heq%elem_of_singleton. contradiction.
    + destruct Hcore' as (_ & _ & Hgok' & _).
      pose proof (g_ok_le s0 g' s0 Hgok'). pose proof (Hmono s0). lia.
    + rewrite update_max_heuristic. exact Hheur'.
  - unfold W, as_weight in *. unfold len in *.
    rewrite (Permutation_length Hperm). cbn [length]. lia.
Qed.

End AStarTurn.

Lemma astar_loop_more (fuel fuel' : nat) (st : Search.as_state)
    (r : result (option Board.t * Search.t)) :
  Search.astar_loop Board.cls0 fuel st = Some r -> (fuel <= fuel')%nat ->
  Search.astar_loop Board.cls0 fuel' st = Some r.
Proof.
  revert fuel' st. induction fuel as [|fuel IH]; intros fuel' st H Hle; [discriminate|].
  destruct fuel' as [|fuel']; [lia|]. cbn [Search.astar_loop] in *.
  destruct (len (Search.as_nodes st) >? 0); [|exact H].
  destruct (Search.astar_body Board.cls0 st) as [[st'|b]|e]; try exact H.
  apply IH; [exact H|lia].
Qed.

Lemma as_weight_nonneg (s0 : Board.grid) (heur : Z) (st : Search.as_state) :
  as_inv s0 heur st -> 0 <= as_weight (Search.as_nodes st) (Search.as_g_x st).
Proof.
  intros (done & (_ & _ & Hgok & _) & _). unfold as_weight.
  assert (0 <= as_potential (Search.as_g_x st)).
  { apply potential_nonneg. intros s. apply (g_ok_le s0 _ s Hgok). }
  unfold len. lia.
Qed.

Lemma get_cost_parent (b : Board.t) :
  Board.get_cost (Board.parent b) = parent_links b.
Proof.
  destruct b as [st ch n [p|] md mt co de er ec vp]; cbn; [|reflexivity].
  rewrite get_cost_of_links. lia.
Qed.

Section AStarRun.

Variable s0 : Board.grid.
Variable dist : Z.
Hypothesis start_valid : valid3 s0.
Hypothesis goal_dist : shortest s0 dist (Board.final Board.cls0).

Lemma as_loop_finds (heur : Z) (n : nat) (st : Search.as_state) :
  as_inv s0 heur st ->
  as_weight (Search.as_nodes st) (Search.as_g_x st) < Z.of_nat n ->
  exists fuel b self',
    Search.astar_loop Board.cls0 fuel st = Some (Ok (Some b, self')) /\
    Board.state b = Board.final Board.cls0 /\ parent_links b = dist.
Proof.
  revert st. induction n as [|n IH]; intros st Hinv Hw.
  { pose proof (as_weight_nonneg s0 heur st Hinv). lia. }
  pose proof (len_pos _ (as_nonempty s0 dist heur start_valid goal_dist st Hinv)) as Hlen.
  destruct (as_turn s0 dist heur start_valid goal_dist st Hinv)
    as [(b & Hbody & Hb)|(st' & Hbody & Hinv' & Hlt)].
  - exists 1%nat, b, (Search.as_self st). split; [|exact Hb].
    cbn [Search.astar_loop]. rewrite Hlen, Hbody. reflexivity.
  - destruct (IH st' Hinv') as (fuel & b & self' & Hloop & Hb); [lia|].
    exists (S fuel), b, self'. split; [|exact Hb].
    cbn [Search.astar_loop]. rewrite Hlen, Hbody. exact Hloop.
Qed.

Lemma as_start_inv (self : Search.t) :
  Search.initial_state self = s0 ->
  exists st, Search.astar_start self = Ok st /\
    as_inv s0 (Search.heuristic self) st.
Proof.
  intros Hs0. unfold Search.astar_start. rewrite Hs0.
  destruct (init_valid s0 None start_valid) as (er & ec & -> & Hblank).
  rewrite bind_Ok. eexists. split; [reflexivity|].
  exists ∅. cbn [Search.as_nodes Search.as_g_x Search.as_visited Search.as_self Board.state].
  rewrite push_first.
  assert (Hg : forall s, g_of (<[s0:=0]> (∅ : gmap Board.grid Z)) s
                         = if decide (s = s0) then 0 else 100000000).
  { intros s. rewrite g_of_insert. destruct (decide (s = s0)); [reflexivity|].
    unfold g_of. rewrite lookup_empty. reflexivity. }
  split; [split; [|split; [|split; [|split]]]|split; [|split; [|split]]].
  - intros j x y Hj Hx. destruct j; [lia|discriminate].
  - constructor; [|constructor]. unfold as_entry_ok.
    cbn [fst snd Board.state Board.parent parent_links]. rewrite Hg.
    destruct (decide (s0 = s0)); [|congruence].
    split. { split; [apply start_valid|]. repeat split. exact Hblank. }
    split; [exact start_valid|]. split; [reflexivity|]. split; [constructor|].
    split; [right; auto|]. split; [rewrite lookup_insert_eq; eauto|].
    split; [lia|]. split; [lia|]. intros p [=].
  - intros s. rewrite Hg. destruct (decide (s = s0)) as [->|]; [|left; reflexivity].
    right. split; [lia|constructor].
  - intros f s Hin. apply elem_of_empty in Hin. contradiction.
  - intros y Hy _. rewrite Hg in Hy |- *. destruct (decide (y = s0)) as [->|]; [|lia].
    eexists. split; [left|]. cbn. auto.
  - apply not_elem_of_empty.
  - intros x y Hx. apply elem_of_empty in Hx. contradiction.
  - rewrite Hg. destruct (decide (s0 = s0)); [reflexivity|congruence].
  - reflexivity.
Qed.

(** A* returns a goal state at the least number of moves. *)
Lemma astar_search_optimal (self : Search.t) :
  Search.initial_state self = s0 ->
  exists fuel b self',
    (forall fuel', (fuel <= fuel')%nat ->
       Search.astar_search Board.cls0 fuel' self = Some (Ok (Some b, self'))) /\
    Board.state b = Board.final Board.cls0 /\ parent_links b = dist.
Proof.
  intros Hs0. destruct (as_start_inv self Hs0) as (st & Hstart & Hinv).
  destruct (as_loop_finds _
              (S (Z.to_nat (as_weight (Search.as_nodes st) (Search.as_g_x st)))) st Hinv)
    as (fuel & b & self' & Hloop & Hb).
  { pose proof (as_weight_nonneg _ _ st Hinv). lia. }
  exists fuel, b, self'. split; [|exact Hb].
  intros fuel' Hle. unfold Search.astar_search. rewrite Hstart.
  eapply astar_loop_more; eassumption.
Qed.

(** Either search finds a goal state at the least number of moves, and
    [search] reports that number as the depth of the solution. *)
Lemma search_optimal (self : Search.t) :
  Search.initial_state self = s0 ->
  Search.algorithm self = Search.UNIFORM_COST \/
  Search.algorithm self = Search.A_STAR ->
  exists fuel b self' n q,
    (forall fuel', (fuel <= fuel')%nat ->
       Search.search Board.cls0 fuel' self
       = Some (Ok (Some b, self', Search.Solved dist n q))) /\
    Board.state b = Board.final Board.cls0 /\ parent_links b = dist.
Proof.
  intros Hs0 Halg.
  set (self0 := Search.mk (Search.algorithm self) (Search.heuristic self)
                  (Search.initial_state self) 0 0 0).
  assert (Hrun : exists fuel b self1,
            (forall fuel', (fuel <= fuel')%nat ->
               (if Search.algorithm self0 =? Search.UNIFORM_COST
                then Search.uc_search Board.cls0 fuel' self0
                else if Search.algorithm self0 =? Search.A_STAR
                     then Search.astar_search Board.cls0 fuel' self0
                     else Some (Ok (None, self0)))
               = Some (Ok (Some b, self1))) /\
            Board.state b = Board.final Board.cls0 /\ parent_links b = dist).
  { cbn [self0 Search.algorithm]. destruct Halg as [-> | ->]; cbn [Z.eqb Search.UNIFORM_COST Search.A_STAR].
    - apply (uc_search_optimal s0 dist start_valid goal_dist self0). exact Hs0.
    - apply (astar_search_optimal self0). exact Hs0. }
  destruct Hrun as (fuel & b & self1 & Hrun & Hb & Hl).
  exists fuel, b. do 3 eexists. split; [|split; [exact Hb|exact Hl]].
  intros fuel' Hle. unfold Search.search. fold self0. rewrite (Hrun fuel' Hle).
  cbn [Search.print_search_stats Search.depth Search.set_depth].
  rewrite get_cost_parent, Hl. reflexivity.
Qed.

End AStarRun.

(** ** Optimality of the searches *)

Lemma start_1_valid : valid3 start_1.
Proof.
  split.
  - split; [reflexivity|]. repeat constructor.
  - unfold permutation_board. apply (bool_decide_unpack _). vm_compute. exact I.
Defined.

Lemma start_1_shortest : shortest start_1 1 (Board.final Board.cls0).
Proof.
  split.
  - apply (reach_S start_1 0 start_1 _ (reach_0 start_1)).
    exists (1, 2). split; [reflexivity|]. exists (2, 2).
    split; [unfold in_bounds; cbn; lia|]. split; [unfold orthogonal; cbn; lia|].
    reflexivity.
  - intros k' Hr. destruct (reach_inv _ _ _ Hr) as [[_ H]|(x & Hx & _)];
      [discriminate|]. apply reach_nonneg in Hx. lia.
Defined.

(** X1: Uniform Cost Search, started on a valid 3 by 3 board from which the
    goal is [k] moves away at least, terminates and returns a goal board
    whose parent chain has exactly [k] links, which is also what
    [Board.get_cost] of its parent gives. *)
Theorem uc_search_least_moves (self : Search.t) (k : Z) :
  valid3 (Search.initial_state self) ->
  shortest (Search.initial_state self) k (Board.final Board.cls0) ->
  exists fuel b self',
    (forall fuel', (fuel <= fuel')%nat ->
       Search.uc_search Board.cls0 fuel' self = Some (Ok (Some b, self'))) /\
    Board.state b = Board.final Board.cls0 /\ parent_links b = k /\
    Board.get_cost (Board.parent b) = k.
Proof.
  intros Hv Hs.
  destruct (uc_search_optimal _ k Hv Hs self eq_refl) as (fuel & b & self' & H1 & H2 & H3).
  exists fuel, b, self'. rewrite get_cost_parent. auto.
Qed.

Lemma uc_search_least_moves_witness :
  exists fuel b self',
    (forall fuel', (fuel <= fuel')%nat ->
       Search.uc_search Board.cls0 fuel'
         (Search.mk Search.UNIFORM_COST 0 start_1 0 0 0)
       = Some (Ok (Some b, self'))) /\
    Board.state b = Board.final Board.cls0 /\ parent_links b = 1 /\
    Board.get_cost (Board.parent b) = 1.
Proof.
  exact (uc_search_least_moves (Search.mk Search.UNIFORM_COST 0 start_1 0 0 0) 1
           start_1_valid start_1_shortest).
Defined.

(** X2: A*, with either heuristic, started on a valid 3 by 3 board from
    which the goal is [k] moves away at least, terminates and returns a goal
    board whose parent chain has exactly [k] links. *)
Theorem astar_search_least_moves (self : Search.t) (k : Z) :
  valid3 (Search.initial_state self) ->
  shortest (Search.initial_state self) k (Board.final Board.cls0) ->
  exists fuel b self',
    (forall fuel', (fuel <= fuel')%nat ->
       Search.astar_search Board.cls0 fuel' self = Some (Ok (Some b, self'))) /\
    Board.state b = Board.final Board.cls0 /\ parent_links b = k /\
    Board.get_cost (Board.parent b) = k.
Proof.
  intros Hv Hs.
  destruct (astar_search_optimal _ k Hv Hs self eq_refl) as (fuel & b & self' & H1 & H2 & H3).
  exists fuel, b, self'. rewrite get_cost_parent. auto.
Qed.

Lemma astar_search_least_moves_witness :
  exists fuel b self',
    (forall fuel', (fuel <= fuel')%nat ->
       Search.astar_search Board.cls0 fuel'
         (Search.mk Search.A_STAR Search.MANHATTAN_DISTANCE start_1 0 0 0)
       = Some (Ok (Some b, self'))) /\
    Board.state b = Board.final Board.cls0 /\ parent_links b = 1 /\
    Board.get_cost (Board.parent b) = 1.
Proof.
  exact (astar_search_least_moves
           (Search.mk Search.A_STAR Search.MANHATTAN_DISTANCE start_1 0 0 0) 1
           start_1_valid start_1_shortest).
Defined.

(** X3: [search], run with Uniform Cost Search or with A* on a valid 3 by 3
    board from which the goal is [k] moves away at least, returns a goal
    board and reports [k] as the depth of the solution: both algorithms
    report the same, least, depth. *)
Theorem search_reports_least_depth (self : Search.t) (k : Z) :
  valid3 (Search.initial_state self) ->
  shortest (Search.initial_state self) k (Board.final Board.cls0) ->
  Search.algorithm self = Search.UNIFORM_COST \/
  Search.algorithm self = Search.A_STAR ->
  exists fuel b self' n q,
    (forall fuel', (fuel <= fuel')%nat ->
       Search.search Board.cls0 fuel' self
       = Some (Ok (Some b, self', Search.Solved k n q))) /\
    Board.state b = Board.final Board.cls0 /\ parent_links b = k.
Proof.
  intros Hv Hs Halg. exact (search_optimal _ k Hv Hs self eq_refl Halg).
Qed.

Lemma search_reports_least_depth_witness :
  exists fuel b self' n q,
    (forall fuel', (fuel <= fuel')%nat ->
       Search.search Board.cls0 fuel'
         (Search.mk Search.A_STAR Search.MISPLACED_TILE start_1 0 0 0)
       = Some (Ok (Some b, self', Search.Solved 1 n q))) /\
    Board.state b = Board.final Board.cls0 /\ parent_links b = 1.
Proof.
  exact (search_reports_least_depth
           (Search.mk Search.A_STAR Search.MISPLACED_TILE start_1 0 0 0) 1
           start_1_valid start_1_shortest (or_intror eq_refl)).
Defined.

(** ** The heuristics along moves *)

(** A move can be taken back. *)
Lemma move_sym (x y : Board.grid) : square 3 x -> move x y -> move y x.
Proof.
  intros Hsq (p & Hp & q & Hq & Ho & ->).
  destruct (swap_blank 3 x p q Hsq Hp Hq) as (v & Hv & Hsw & H0 & _).
  exists q. split; [exact H0|]. exists p.
  pose proof (cell_in_bounds 3 x p 0 Hsq Hp) as Hpb.
  split; [exact Hpb|]. split; [unfold orthogonal in *; lia|].
  rewrite Hsw. clear H0 Hsw.
  destruct Hpb as [Hp1 Hp2]. destruct Hq as [Hq1 Hq2].
  destruct (square_3_inv x Hsq) as (a & b & c & d & e & f & g & h & i & ->).
  destruct p as [pr pc], q as [qr qc]. unfold orthogonal in Ho. cbn [fst snd] in *.
  assert (Hpr : pr = 0 \/ pr = 1 \/ pr = 2) by lia.
  assert (Hpc : pc = 0 \/ pc = 1 \/ pc = 2) by lia.
  assert (Hqr : qr = 0 \/ qr = 1 \/ qr = 2) by lia.
  assert (Hqc : qc = 0 \/ qc = 1 \/ qc = 2) by lia.
  clear Hsq Hp1 Hp2 Hq1 Hq2.
  destruct Hpr as [->|[->| ->]], Hpc as [->|[->| ->]],
    Hqr as [->|[->| ->]], Hqc as [->|[->| ->]];
    try (exfalso; clear -Ho; lia); clear Ho;
    injection Hp as Hp; injection Hv as Hv; subst; reflexivity.
Qed.

(** X4: the heuristic that [get_heuristic_cost] computes for a board, be
    it the Manhattan distance, the number of misplaced tiles or 0, is never
    negative and never more than the number of moves of a path from the
    board to the goal. *)
Theorem heuristic_never_overestimates (self : Search.t) (b : Board.t) (j : Z) :
  board_object 3 Board.cls0 b -> valid3 (Board.state b) ->
  reach (Board.state b) j (Board.final Board.cls0) ->
  exists v b',
    Search.get_heuristic_cost Board.cls0 self (Some b) = Ok (v, Some b') /\
    0 <= v <= j.
Proof.
  intros Hobj Hv Hr. destruct (heuristic_value self b Hobj Hv) as (b' & Hh & _).
  exists (h_of (Search.heuristic self) (Board.state b)), b'.
  split; [exact Hh|]. split; [apply h_of_nonneg|].
  apply h_of_admissible; assumption.
Qed.

Lemma heuristic_never_overestimates_witness :
  exists v b',
    Search.get_heuristic_cost Board.cls0
      (Search.mk Search.A_STAR Search.MANHATTAN_DISTANCE start_1 0 0 0)
      (Some board_up) = Ok (v, Some b') /\
    0 <= v <= 1.
Proof.
  exact (heuristic_never_overestimates
           (Search.mk Search.A_STAR Search.MANHATTAN_DISTANCE start_1 0 0 0)
           board_up 1 board_up_object start_1_valid (proj1 start_1_shortest)).
Defined.

(** X5: the Manhattan distance of a board that [generate_children] returns
    differs by one at most from the Manhattan distance of the board it was
    generated from. *)
Theorem manhattan_child_by_one (b : Board.t) (visited : option (gset Board.grid)) :
  unexpanded 3 b -> valid3 (Board.state b) -> memo_ok Board.cls0 b ->
  exists kids b' d b1,
    Board.generate_children b visited = Ok (kids, b') /\
    Board.manhattan_distance b = Ok (d, b1) /\
    forall k, k ∈ kids ->
      exists dk k', Board.manhattan_distance k = Ok (dk, k') /\ Z.abs (dk - d) <= 1.
Proof.
  intros Hun Hv Hmemo.
  destruct (generate_children_valid visited b Hun Hv) as (kids & b' & Hgen & Hk & _).
  assert (Hobj : board_object 3 Board.cls0 b).
  { destruct Hun as (Hsq & Hn & _). split; [exact Hsq|]. split; [exact Hn|exact Hmemo]. }
  destruct (manhattan_distance_object _ 3 b Hobj) as (b1 & Hd & _).
  exists kids, b'. eexists. exists b1. split; [exact Hgen|]. split; [exact Hd|].
  intros k Hin. destruct (Hk k Hin) as (Hm & _ & Hunk & Hvk & _ & Hmd & Hmt & _).
  assert (Hobjk : board_object 3 Board.cls0 k).
  { destruct Hunk as (Hsq & Hn & _). split; [exact Hsq|]. split; [exact Hn|].
    split; left; assumption. }
  destruct (manhattan_distance_object _ 3 k Hobjk) as (k' & Hdk & _).
  eexists. exists k'. split; [exact Hdk|].
  pose proof (manhattan_move _ _ (proj1 Hv) Hm).
  pose proof (manhattan_move _ _ (proj1 Hvk) (move_sym _ _ (proj1 Hv) Hm)). lia.
Qed.

Lemma manhattan_child_by_one_witness :
  exists kids b' d b1,
    Board.generate_children board_up None = Ok (kids, b') /\
    Board.manhattan_distance board_up = Ok (d, b1) /\
    forall k, k ∈ kids ->
      exists dk k', Board.manhattan_distance k = Ok (dk, k') /\ Z.abs (dk - d) <= 1.
Proof.
  exact (manhattan_child_by_one board_up None board_up_unexpanded start_1_valid
           (proj2 (proj2 board_up_object))).
Defined.

(** ** Repeated calls and edge cases of the Board methods *)

(** The children that [generate_children] returns are those the returned
    object holds. *)
Lemma generate_children_stored (b b' : Board.t) (visited : option (gset Board.grid))
    (kids : list Board.t) :
  Board.generate_children b visited = Ok (kids, b') -> Board.children b' = kids.
Proof.
  unfold Board.generate_children.
  destruct (negb (len (Board.children b) =? 0)); [intros [= <- <-]; reflexivity|].
  destruct (for_ _ _ _) as [self|e]; [|discriminate].
  rewrite bind_Ok. intros [= <- <-]. reflexivity.
Qed.

(** X6: once [generate_children] has returned a non-empty list, a second
    call on the object returns the same list and leaves the object as it
    is, whatever visited set is passed: the children are cached and the
    second filter is not consulted. *)
Theorem generate_children_cached (b b' : Board.t)
    (visited visited' : option (gset Board.grid)) (kids : list Board.t) :
  Board.generate_children b visited = Ok (kids, b') -> kids <> [] ->
  Board.generate_children b' visited' = Ok (kids, b').
Proof.
  intros Hgen Hne. pose proof (generate_children_stored _ _ _ _ Hgen) as Hch.
  unfold Board.generate_children. rewrite Hch.
  destruct kids as [|k kids]; [contradiction|]. reflexivity.
Qed.

Lemma generate_children_cached_witness :
  Board.generate_children board_up_kids.2 (Some goal_visited)
  = Ok (board_up_kids.1, board_up_kids.2).
Proof.
  assert (H1 : Board.generate_children board_up None
               = Ok (board_up_kids.1, board_up_kids.2))
    by (vm_compute; reflexivity).
  assert (H2 : board_up_kids.1 <> []) by (vm_compute; discriminate).
  exact (generate_children_cached board_up board_up_kids.2 None (Some goal_visited)
           board_up_kids.1 H1 H2).
Defined.



Lemma dropped_same_parent (visited : option (gset Board.grid)) (b b' : Board.t)
    (s : Board.grid) :
  Board.parent b' = Board.parent b -> dropped visited b' s = dropped visited b s.
Proof. intros H. unfold dropped. rewrite H. reflexivity. Qed.

(** X9: when a call of [generate_children] has returned no child (every
    successor was the parent or visited), the next call on the object runs
    the loop again over a list that holds every neighbour of the blank
    twice, and returns every successor it keeps twice. *)
Theorem generate_children_again_doubles (n : Z) (b b' : Board.t)
    (visited visited' : option (gset Board.grid)) :
  unexpanded n b ->
  Board.generate_children b visited = Ok ([], b') ->
  exists kids b'',
    Board.generate_children b' visited' = Ok (kids, b'') /\
    let once :=
      List.filter (fun s => negb (dropped visited' b s))
        (map (swap_cells (Board.state b) (blank b))
           (Board.get_surrounding_valid_positions b).1) in
    map Board.state kids = once ++ once.
Proof.
  intros Hun Hgen. pose proof Hun as (Hsq & Hn & Hch & Hvp & Hb).
  set (vp := (Board.get_surrounding_valid_positions b).1).
  assert (Hin : Forall (in_bounds n) vp).
  { apply Forall_forall. intros q Hq%list_elem_of_In.
    apply (in_valid_positions n b q Hn Hvp) in Hq. apply Hq. }
  assert (Hb' : b' = Board.set_valid_positions b vp).
  { revert Hgen. unfold Board.generate_children. rewrite Hch.
    cbn [len length Z.of_nat Z.eqb negb].
    set (b1 := (Board.get_surrounding_valid_positions b).2).
    destruct (generate_loop n visited (Board.valid_positions b1) b1)
      as (kids0 & Hfor & _); try assumption.
    rewrite Hfor, bind_Ok. cbn [Board.set_children Board.children].
    assert (Hc1 : Board.children b1 = []) by exact Hch.
    rewrite Hc1. cbn [app]. intros [= -> <-].
    unfold b1, vp. clear -Hch. destruct b. cbn in Hch. subst. reflexivity. }
  subst b'. unfold Board.generate_children.
  cbn [Board.set_valid_positions Board.children]. rewrite Hch.
  cbn [len length Z.of_nat Z.eqb negb].
  set (b2 := (Board.get_surrounding_valid_positions (Board.set_valid_positions b vp)).2).
  assert (Hvp2 : Board.valid_positions b2 = vp ++ vp).
  { pose proof (valid_positions_eq (Board.set_valid_positions b vp)) as H2.
    pose proof (valid_positions_eq b) as H1. rewrite Hvp in H1. cbn [app] in H1.
    cbn [Board.set_valid_positions Board.valid_positions Board.board_size
         Board.empty_row Board.empty_col] in H2.
    fold vp in H1. rewrite <- H1 in H2. exact H2. }
  destruct (generate_loop n visited' (Board.valid_positions b2) b2)
    as (kids & Hfor & Hkids); try assumption.
  { rewrite Hvp2. apply Forall_app. auto. }
  rewrite Hfor, bind_Ok. cbn [Board.set_children Board.children].
  exists (Board.children b2 ++ kids). eexists. split; [reflexivity|].
  cbn zeta. assert (Hc2 : Board.children b2 = []) by exact Hch.
  rewrite Hc2. cbn [app]. rewrite (child_of_states _ _ _ Hkids), Hvp2.
  rewrite List.map_app, List.filter_app. fold vp.
  assert (Hd : forall s, dropped visited' b2 s = dropped visited' b s)
    by (intros s; apply dropped_same_parent; reflexivity).
  assert (Hf : forall l, List.filter (fun s => negb (dropped visited' b2 s)) l
                         = List.filter (fun s => negb (dropped visited' b s)) l).
  { intros l. apply List.filter_ext. intros s. rewrite Hd. reflexivity. }
  rewrite !Hf. reflexivity.
Qed.

Lemma generate_children_again_doubles_witness :
  exists kids b'',
    Board.generate_children board_up_empty None = Ok (kids, b'') /\
    let once :=
      List.filter (fun s => negb (dropped None board_up s))
        (map (swap_cells (Board.state board_up) (blank board_up))
           (Board.get_surrounding_valid_positions board_up).1) in
    map Board.state kids = once ++ once.
Proof.
  assert (H : Board.generate_children board_up (Some up_neighbours)
              = Ok ([], board_up_empty)) by (vm_compute; reflexivity).
  exact (generate_children_again_doubles 3 board_up board_up_empty
           (Some up_neighbours) None board_up_unexpanded H).
Defined.

Lemma scan_last (cs : list (Z * Z * Z)) (e0 : Z * Z) :
  exists e,
    for_ cs (fun acc c => Ok (if c.2 =? 0 then (c.1.1, c.1.2) else acc)) e0
    = Ok e /\
    ((e = e0 /\ forall c, In c cs -> c.2 <> 0) \/
     exists before after,
       cs = before ++ (e.1, e.2, 0) :: after /\ forall c, In c after -> c.2 <> 0).
Proof.
  revert e0. induction cs as [|[[r c] v] cs IH]; intros e0; cbn [for_ fst snd].
  - exists e0. split; [reflexivity|]. left. split; [reflexivity|]. intros c [].
  - rewrite bind_Ok.
    destruct (IH (if v =? 0 then (r, c) else e0)) as (e & He & Hcase).
    exists e. split; [exact He|].
    destruct Hcase as [[-> Hnz]|(before & after & -> & Hnz)].
    + destruct (Z.eqb_spec v 0) as [->|Hv].
      * right. exists [], cs. split; [reflexivity|exact Hnz].
      * left. split; [reflexivity|]. intros c' [<-|Hc']; [exact Hv|auto].
    + right. exists ((r, c, v) :: before), after. split; [reflexivity|exact Hnz].
Qed.

(** X10: [Board.__init__] on a square grid records as the position of the
    blank the last cell, in row-major order, that holds 0, and leaves
    (-1, -1) when no cell holds 0. *)
Theorem init_records_last_blank (n : Z) (g : Board.grid) (p : option Board.t) :
  square n g ->
  exists er ec,
    Board.init g p = Ok (Board.mk g [] n p (-1) (-1) 0 0 er ec []) /\
    ((er = -1 /\ ec = -1 /\ forall q, cell g q <> Some 0) \/
     (cell g (er, ec) = Some 0 /\
      exists before after,
        cells g = before ++ (er, ec, 0) :: after /\
        forall c, In c after -> c.2 <> 0)).
Proof.
  intros Hsq. unfold Board.init.
  replace (len g) with n by (symmetry; apply Hsq).
  rewrite (for_cells n g (fun e row col v => Ok (if v =? 0 then (row, col) else e)))
    by exact Hsq.
  destruct (scan_last (cells g) (-1, -1)) as (e & -> & Hcase).
  rewrite bind_Ok. exists e.1, e.2. split; [reflexivity|].
  destruct Hcase as [[-> Hnz]|(before & after & Hc & Hnz)].
  - left. split; [reflexivity|]. split; [reflexivity|].
    intros [r c] Hq%in_cells. apply (Hnz _ Hq). reflexivity.
  - right. split; [|eauto]. apply in_cells. rewrite Hc. apply in_app_iff.
    right. left. reflexivity.
Qed.

Lemma init_records_last_blank_witness :
  exists er ec,
    Board.init two_blanks None
    = Ok (Board.mk two_blanks [] 2 None (-1) (-1) 0 0 er ec []) /\
    ((er = -1 /\ ec = -1 /\ forall q, cell two_blanks q <> Some 0) \/
     (cell two_blanks (er, ec) = Some 0 /\
      exists before after,
        cells two_blanks = before ++ (er, ec, 0) :: after /\
        forall c, In c after -> c.2 <> 0)).
Proof.
  assert (H : square 2 two_blanks) by (split; [reflexivity|repeat constructor]).
  exact (init_records_last_blank 2 two_blanks None H).
Defined.

Lemma getitem_raises {A} (l : list A) (i : Z) :
  (exists x, getitem l i = Ok x) \/ getitem l i = Raise IndexError.
Proof.
  unfold getitem, index. destruct (_ && _); cbn; [|right; reflexivity].
  destruct (l !! _); [left; eauto|right; reflexivity].
Qed.

Lemma for_raises {A B} (l : list A) (body : B -> A -> result B) (acc : B) (e : exn) :
  (forall a y, In y l -> (exists a', body a y = Ok a') \/ body a y = Raise e) ->
  (exists a', for_ l body acc = Ok a') \/ for_ l body acc = Raise e.
Proof.
  revert acc. induction l as [|y l IH]; intros acc H; cbn [for_]; [left; eauto|].
  destruct (H acc y (or_introl eq_refl)) as [[a' ->]| ->]; [|right; reflexivity].
  rewrite bind_Ok. apply IH. intros a z Hz. apply H. right. exact Hz.
Qed.

Lemma for_raises_at {A B} (l : list A) (body : B -> A -> result B) (acc : B)
    (e : exn) (x : A) :
  In x l -> (forall a, body a x = Raise e) ->
  (forall a y, In y l -> (exists a', body a y = Ok a') \/ body a y = Raise e) ->
  for_ l body acc = Raise e.
Proof.
  revert acc. induction l as [|y l IH]; intros acc Hx Hr H; [contradiction|].
  cbn [for_]. destruct (H acc y (or_introl eq_refl)) as [[a' Ha]| ->]; [|reflexivity].
  rewrite Ha, bind_Ok. destruct Hx as [->|Hx]; [rewrite Hr in Ha; discriminate|].
  apply IH; [exact Hx|exact Hr|]. intros a z Hz. apply H. right. exact Hz.
Qed.

(** X11: [Board.__init__] raises [IndexError] on a grid that has a row
    shorter than its number of rows: the scan for the blank reads the first
    [len(state)] cells of every row. *)
Theorem init_short_row_raises (g : Board.grid) (p : option Board.t) (r : nat)
    (row : list Z) :
  g !! r = Some row -> len row < len g -> Board.init g p = Raise IndexError.
Proof.
  intros Hrow Hlen. unfold Board.init.
  assert (Hinner : forall e0 i,
            (exists e', for_ (range 0 (len g)) (fun e col =>
               v ← getitem2 g i col; Ok (if v =? 0 then (i, col) else e)) e0 = Ok e')
            \/ for_ (range 0 (len g)) (fun e col =>
               v ← getitem2 g i col; Ok (if v =? 0 then (i, col) else e)) e0
               = Raise IndexError).
  { intros e0 i. apply for_raises. intros a col _. unfold getitem2.
    destruct (getitem_raises g i) as [[rw ->]| ->]; [|right; reflexivity].
    rewrite bind_Ok. destruct (getitem_raises rw col) as [[v ->]| ->];
      [left; rewrite bind_Ok; eauto|right; reflexivity]. }
  rewrite (for_raises_at (range 0 (len g)) _ (-1, -1) IndexError (Z.of_nat r)).
  - reflexivity.
  - apply in_range. apply lookup_lt_Some in Hrow. unfold len. lia.
  - intros e0. apply (for_raises_at _ _ e0 IndexError (len row)).
    + apply in_range. unfold len in *. lia.
    + intros a. unfold getitem2. rewrite (getitem_ok g r row Hrow), bind_Ok.
      unfold getitem, index.
      destruct (Z.ltb_spec (len row) 0); [unfold len in *; lia|].
      rewrite Z.ltb_irrefl, andb_false_r. reflexivity.
    + intros a col _. unfold getitem2.
      rewrite (getitem_ok g r row Hrow), bind_Ok.
      destruct (getitem_raises row col) as [[v ->]| ->];
        [left; rewrite bind_Ok; eauto|right; reflexivity].
  - intros e0 i _. apply Hinner.
Qed.

Lemma init_short_row_raises_witness : Board.init ragged None = Raise IndexError.
Proof.
  assert (H1 : ragged !! 1%nat = Some [0]) by reflexivity.
  assert (H2 : len [0] < len ragged) by (vm_compute; reflexivity).
  exact (init_short_row_raises ragged None 1 [0] H1 H2).
Defined.

Lemma init_no_blank (n : Z) (g : Board.grid) (p : option Board.t) :
  square n g -> (forall q, cell g q <> Some 0) ->
  Board.init g p = Ok (Board.mk g [] n p (-1) (-1) 0 0 (-1) (-1) []).
Proof.
  intros Hsq Hno.
  destruct (init_square n g p Hsq) as (er & ec & Hinit & _).
  revert Hinit. unfold Board.init.
  replace (len g) with n by (symmetry; apply Hsq).
  rewrite (for_cells n g (fun e row col v => Ok (if v =? 0 then (row, col) else e)))
    by exact Hsq.
  destruct (scan_blank (cells g) (-1, -1)) as (e & -> & Hcase).
  rewrite bind_Ok. intros _.
  destruct Hcase as [[-> _]|Hin]; [reflexivity|].
  apply in_cells in Hin. exfalso. apply (Hno _ Hin).
Qed.

(** An object without a blank has no child. *)
Lemma no_blank_no_children (g : Board.grid) (n : Z) (p : option Board.t)
    (visited : option (gset Board.grid)) :
  exists b',
    Board.generate_children (Board.mk g [] n p (-1) (-1) 0 0 (-1) (-1) []) visited
    = Ok ([], b').
Proof.
  unfold Board.generate_children. cbn [Board.children len length Z.of_nat Z.eqb negb].
  set (b := Board.mk g [] n p (-1) (-1) 0 0 (-1) (-1) []).
  assert (Hvp : Board.valid_positions (Board.get_surrounding_valid_positions b).2 = []).
  { change (Board.valid_positions (Board.get_surrounding_valid_positions b).2)
      with (Board.get_surrounding_valid_positions b).1.
    rewrite valid_positions_eq. unfold b, candidates, inside.
    cbn [Board.valid_positions Board.board_size Board.empty_row Board.empty_col
         fst snd app List.filter].
    change (-1 - 1 <? 0) with true. change (-1 <? 0) with true.
    cbn [orb negb andb]. rewrite ?andb_false_r. reflexivity. }
  rewrite Hvp. cbn [for_]. rewrite bind_Ok. eexists. reflexivity.
Qed.

(** X12: on a square grid that holds no 0 and is not the goal, [search]
    with either algorithm expands the root, finds no successor and reports
    that the puzzle is not solvable, with one node expanded and a maximal
    queue size of 0. *)
Theorem search_without_blank (n : Z) (g : Board.grid) (fuel : nat)
    (algorithm heuristic q d m : Z) :
  square n g -> (forall p, cell g p <> Some 0) -> g <> Board.final Board.cls0 ->
  algorithm = Search.UNIFORM_COST \/ algorithm = Search.A_STAR ->
  Search.search Board.cls0 (S (S fuel)) (Search.mk algorithm heuristic g q d m)
  = Some (Ok (None, Search.mk algorithm heuristic g 0 0 1,
              Search.NotSolvable 1 0)).
Proof.
  intros Hsq Hno Hne Halg.
  pose proof (init_no_blank n g None Hsq Hno) as Hinit.
  set (root := Board.mk g [] n None (-1) (-1) 0 0 (-1) (-1) []) in *.
  assert (Hfin : Board.is_final_state Board.cls0 root = false).
  { unfold Board.is_final_state. apply bool_decide_eq_false. exact Hne. }
  unfold Search.search. cbn [Search.algorithm Search.heuristic Search.initial_state].
  destruct Halg as [-> | ->]; change (Search.UNIFORM_COST =? Search.UNIFORM_COST) with true; change (Search.A_STAR =? Search.UNIFORM_COST) with false; change (Search.A_STAR =? Search.A_STAR) with true; cbn iota.
  - unfold Search.uc_search, Search.uc_start. cbn [Search.initial_state].
    rewrite Hinit, bind_Ok, push_first.
    destruct (no_blank_no_children g n None (Some ({[g]} ∪ ∅))) as [b' Hgen].
    fold root in Hgen.
    cbn [Search.uc_loop].
    match goal with |- context [Search.uc_body Board.cls0 ?st] =>
      assert (Hbody : Search.uc_body Board.cls0 st
              = Ok (inl (Search.mkuc [] ({[g]} ∪ ∅)
                           (Search.mk Search.UNIFORM_COST heuristic g 0 0 1))))
    end.
    { unfold Search.uc_body. cbn [Search.uc_nodes Search.uc_visited Search.uc_self].
      change (Search.heappop [(0, root)]) with (Ok ((0, root), @nil Search.entry)).
      rewrite bind_Ok, Hfin. unfold Search.expand.
      change (Board.state root) with g. rewrite Hgen, bind_Ok. reflexivity. }
    rewrite Hbody. reflexivity.
  - unfold Search.astar_search, Search.astar_start. cbn [Search.initial_state].
    rewrite Hinit, bind_Ok, push_first.
    destruct (no_blank_no_children g n None None) as [b' Hgen].
    fold root in Hgen.
    cbn [Search.astar_loop].
    match goal with |- context [Search.astar_body Board.cls0 ?st] =>
      assert (Hbody : Search.astar_body Board.cls0 st
              = Ok (inl (Search.mkas [] (<[Board.state root:=0]> ∅) ∅
                           (Search.mk Search.A_STAR heuristic g 0 0 1))))
    end.
    { unfold Search.astar_body.
      cbn [Search.as_nodes Search.as_g_x Search.as_visited Search.as_self].
      change (Search.heappop [(0, root)]) with (Ok ((0, root), @nil Search.entry)).
      rewrite bind_Ok, Hfin. unfold Search.expand. rewrite Hgen, bind_Ok. reflexivity. }
    rewrite Hbody. reflexivity.
Qed.

Lemma search_without_blank_witness :
  Search.search Board.cls0 2 (Search.mk Search.A_STAR Search.MANHATTAN_DISTANCE no_blank 0 0 0)
  = Some (Ok (None, Search.mk Search.A_STAR Search.MANHATTAN_DISTANCE no_blank 0 0 1,
              Search.NotSolvable 1 0)).
Proof.
  assert (H1 : square 2 no_blank) by (split; [reflexivity|repeat constructor]).
  assert (H2 : forall p, cell no_blank p <> Some 0).
  { intros p Hp. apply cell_in_concat in Hp. cbn in Hp.
    repeat (destruct Hp as [Hp|Hp]; [discriminate|]). contradiction. }
  assert (H3 : no_blank <> Board.final Board.cls0) by discriminate.
  exact (search_without_blank 2 no_blank 0 Search.A_STAR Search.MANHATTAN_DISTANCE
           0 0 0 H1 H2 H3 (or_intror eq_refl)).
Defined.

(** ** Soundness of the searches and the printed solution *)

Lemma print_chain (b : Board.t) :
  Board.print_board_from_initial_state (Some b) = concat (chain b).
Proof.
  cbn [Board.print_board_from_initial_state]. revert b. fix IH 1.
  intros [st ch n [p|] md mt co de er ec vp];
    cbn [Board.print_board_from_initial_state_of chain Board.parent Board.state
         Board.print_board].
  - rewrite (IH p), concat_app. cbn [concat]. rewrite app_nil_r. reflexivity.
  - cbn. rewrite app_nil_r. reflexivity.
Qed.

Lemma chain_length (b : Board.t) : len (chain b) = parent_links b + 1.
Proof.
  unfold len. revert b. fix IH 1.
  intros [st ch n [p|] md mt co de er ec vp]; cbn [chain parent_links Board.parent].
  - rewrite length_app. cbn [length]. specialize (IH p). lia.
  - reflexivity.
Qed.

Lemma chain_last (b : Board.t) : last (chain b) = Some (Board.state b).
Proof.
  destruct b as [st ch n [p|] md mt co de er ec vp]; cbn [chain Board.parent];
    apply last_snoc.
Qed.

Lemma legal_chain_same (s0 : Board.grid) (b b' : Board.t) :
  Board.state b' = Board.state b -> Board.parent b' = Board.parent b ->
  legal_chain s0 b' -> legal_chain s0 b.
Proof.
  destruct b, b'. cbn [Board.state Board.parent legal_chain].
  intros -> ->. auto.
Qed.

Lemma legal_path_snoc (l : list Board.grid) (x y : Board.grid) :
  legal_path l -> last l = Some x -> move x y -> legal_path (l ++ [y]).
Proof.
  intros Hl Hlast Hm i a b Ha Hb.
  destruct (decide (S i < length l)%nat) as [Hlt|Hge].
  - rewrite lookup_app_l in Ha, Hb by lia. eapply Hl; eassumption.
  - assert (S i = length l).
    { apply lookup_lt_Some in Hb. rewrite length_app in Hb. cbn in Hb. lia. }
    rewrite lookup_app_l in Ha by lia.
    rewrite lookup_app_r in Hb by lia.
    replace (S i - length l)%nat with 0%nat in Hb by lia. injection Hb as <-.
    rewrite last_lookup in Hlast.
    replace (Nat.pred (length l)) with i in Hlast by lia.
    rewrite Hlast in Ha. injection Ha as <-. exact Hm.
Qed.

(** A legal chain is a path of moves from the start to the board. *)
Lemma legal_chain_path (s0 : Board.grid) (b : Board.t) :
  legal_chain s0 b -> head (chain b) = Some s0 /\ legal_path (chain b).
Proof.
  revert b. fix IH 1.
  intros [st ch n [p|] md mt co de er ec vp];
    cbn [legal_chain chain Board.parent Board.state].
  - intros [Hm Hp]. destruct (IH p Hp) as [Hh Hl]. split.
    + destruct (chain p); [discriminate|exact Hh].
    + eapply legal_path_snoc; [exact Hl|apply chain_last|exact Hm].
  - intros ->. split; [reflexivity|]. intros i x y Hx Hy.
    destruct i; discriminate.
Qed.

Lemma legal_chain_reach (s0 : Board.grid) (b : Board.t) :
  legal_chain s0 b -> reach s0 (parent_links b) (Board.state b).
Proof.
  revert b. fix IH 1.
  intros [st ch n [p|] md mt co de er ec vp];
    cbn [legal_chain parent_links Board.parent Board.state].
  - intros [Hm Hp]. replace (1 + parent_links p) with (parent_links p + 1) by lia.
    eapply reach_S; [apply IH, Hp|exact Hm].
  - intros ->. constructor.
Qed.

(** The parent that a child holds has the contents and the parent of the
    board it was generated from. *)
Lemma generate_children_parent (n : Z) (b b' : Board.t)
    (visited : option (gset Board.grid)) (kids : list Board.t) :
  unexpanded n b -> Board.generate_children b visited = Ok (kids, b') ->
  forall k, k ∈ kids ->
    exists p, Board.parent k = Some p /\ Board.state p = Board.state b /\
              Board.parent p = Board.parent b.
Proof.
  intros Hun Hgen k Hk.
  destruct (generate_children_ok n b visited Hun) as (kids' & b'' & Hgen' & Hkids).
  rewrite Hgen in Hgen'. injection Hgen' as <- <-.
  destruct (Forall2_in_r _ _ _ _ Hkids Hk) as (s & _ & p & er & ec & -> & Hps & Hpp & _).
  exists p. auto.
Qed.

(** The children of a safe entry are safe. *)
Lemma children_safe (s0 : Board.grid) (b : Board.t)
    (visited : option (gset Board.grid)) :
  unexpanded 3 b -> valid3 (Board.state b) -> legal_chain s0 b ->
  exists kids b',
    Board.generate_children b visited = Ok (kids, b') /\
    forall k, k ∈ kids ->
      unexpanded 3 k /\ valid3 (Board.state k) /\ legal_chain s0 k /\
      Board.m_dist k = -1 /\ Board.m_tile_count k = -1.
Proof.
  intros Hun Hv Hl.
  destruct (generate_children_valid visited b Hun Hv) as (kids & b' & Hgen & Hk & _).
  exists kids, b'. split; [exact Hgen|]. intros k Hin.
  destruct (Hk k Hin) as (Hm & _ & Hunk & Hvk & _ & Hmd & Hmt & _).
  destruct (generate_children_parent 3 b b' visited kids Hun Hgen k Hin)
    as (p & Hp & Hps & Hpp).
  split; [exact Hunk|]. split; [exact Hvk|]. split; [|auto].
  destruct k as [st ch n [p'|] md mt co de er ec vp]; cbn [Board.parent] in Hp;
    [|discriminate].
  injection Hp as ->. cbn [legal_chain Board.parent Board.state] in *.
  rewrite Hps. split; [exact Hm|].
  apply (legal_chain_same s0 p b); [symmetry; exact Hps|symmetry; exact Hpp|exact Hl].
Qed.

Lemma safe_sound (s0 : Board.grid) (b : Board.t) (self : Search.t) :
  Board.state b = Board.final Board.cls0 -> legal_chain s0 b ->
  sound_result s0 (Some (Ok (Some b, self))).
Proof.
  intros Hf Hl. destruct (legal_chain_path s0 b Hl) as [Hh Hp].
  cbn [sound_result]. rewrite chain_last, Hf. auto.
Qed.

Lemma root_safe (s0 : Board.grid) :
  valid3 s0 ->
  exists root, Board.init s0 None = Ok root /\ entry_safe s0 (0, root) /\
    Board.state root = s0.
Proof.
  intros Hv. destruct (init_valid s0 None Hv) as (er & ec & -> & Hblank).
  eexists. split; [reflexivity|]. split; [|reflexivity].
  split; [|split; [exact Hv|reflexivity]].
  split; [apply Hv|]. repeat split. exact Hblank.
Qed.

Section Sound.

Variable s0 : Board.grid.

Lemma uc_body_safe (st : Search.uc_state) :
  Forall (entry_safe s0) (Search.uc_nodes st) -> Search.uc_nodes st <> [] ->
  (exists b, Search.uc_body Board.cls0 st = Ok (inr b) /\
     Board.state b = Board.final Board.cls0 /\ legal_chain s0 b) \/
  (exists st', Search.uc_body Board.cls0 st = Ok (inl st') /\
     Forall (entry_safe s0) (Search.uc_nodes st')).
Proof.
  intros Hall Hne. destruct (pop_nonempty _ Hne) as ([c b] & rest & Hpop).
  pose proof (pop_perm _ _ _ Hpop) as Hperm. rewrite Hperm in Hall.
  apply Forall_cons in Hall as [(Hun & Hv & Hl) Hrest]. cbn [snd] in *.
  unfold Search.uc_body. rewrite Hpop, bind_Ok. unfold Board.is_final_state.
  destruct (bool_decide (Board.state b = Board.final Board.cls0)) eqn:Hfin.
  { apply bool_decide_eq_true in Hfin. left. exists b. auto. }
  right.
  destruct (children_safe s0 b (Some ({[Board.state b]} ∪ Search.uc_visited st))
              Hun Hv Hl) as (kids & b' & Hgen & Hkids).
  unfold Search.expand. rewrite Hgen, bind_Ok. cbn [fst].
  eexists. split; [reflexivity|]. cbn [Search.uc_nodes].
  rewrite fold_push_perm. apply Forall_app. split; [|exact Hrest].
  apply Forall_map, Forall_forall. intros k Hk.
  destruct (Hkids k Hk) as (H1 & H2 & H3 & _). split; [exact H1|]. split; assumption.
Qed.

Lemma uc_loop_sound (fuel : nat) (st : Search.uc_state) :
  Forall (entry_safe s0) (Search.uc_nodes st) ->
  sound_result s0 (Search.uc_loop Board.cls0 fuel st).
Proof.
  revert st. induction fuel as [|fuel IH]; intros st Hall; [exact I|].
  cbn [Search.uc_loop]. destruct (Z.gtb_spec (len (Search.uc_nodes st)) 0) as [Hlen|Hlen];
    [|exact I].
  assert (Hne : Search.uc_nodes st <> []).
  { intros H. rewrite H in Hlen. unfold len in Hlen. cbn [length] in Hlen. lia. }
  destruct (uc_body_safe st Hall Hne) as [(b & -> & Hf & Hl)|(st' & -> & Hall')].
  - apply safe_sound; assumption.
  - apply IH, Hall'.
Qed.

End Sound.

Lemma uc_run_sound (self : Search.t) (fuel : nat) :
  valid3 (Search.initial_state self) ->
  sound_result (Search.initial_state self) (Search.uc_search Board.cls0 fuel self).
Proof.
  intros Hv. unfold Search.uc_search, Search.uc_start.
  destruct (root_safe _ Hv) as (root & -> & Hsafe & _). rewrite bind_Ok.
  apply uc_loop_sound. cbn [Search.uc_nodes]. rewrite push_first.
  constructor; [exact Hsafe|constructor].
Qed.

(** X13: Uniform Cost Search on a valid 3 by 3 board, solvable or not and
    for any number of turns, raises no exception, and a board it returns is
    the goal, with a parent chain that starts at the initial board, ends at
    the goal and goes from each board to the next by one move. *)
Theorem uc_search_sound (self : Search.t) (fuel : nat) :
  valid3 (Search.initial_state self) ->
  sound_result (Search.initial_state self) (Search.uc_search Board.cls0 fuel self).
Proof. apply uc_run_sound. Qed.

Lemma uc_search_sound_witness :
  sound_result start_1
    (Search.uc_search Board.cls0 4 (Search.mk Search.UNIFORM_COST 0 start_1 0 0 0)).
Proof.
  exact (uc_search_sound (Search.mk Search.UNIFORM_COST 0 start_1 0 0 0) 4
           start_1_valid).
Defined.

Lemma as_safe_mono (s0 : Board.grid) (g g' : gmap Board.grid Z)
    (nodes : list Search.entry) :
  (forall s, is_Some (g !! s) -> is_Some (g' !! s)) ->
  Forall (as_safe s0 g) nodes -> Forall (as_safe s0 g') nodes.
Proof.
  intros Hd Hall. eapply Forall_impl; [exact Hall|].
  intros e [H1 H2]. split; [exact H1|apply Hd, H2].
Qed.

Section SoundAStar.

Variable s0 : Board.grid.

Lemma astar_child_safe (b k : Board.t) (st : Search.as_state) :
  as_safe_state s0 b st ->
  unexpanded 3 k -> valid3 (Board.state k) -> legal_chain s0 k ->
  Board.m_dist k = -1 -> Board.m_tile_count k = -1 ->
  exists st', Search.astar_child Board.cls0 b st k = Ok st' /\
    as_safe_state s0 b st'.
Proof.
  intros [Hall HB] Hun Hv Hl Hmd Hmt. destruct st as [nodes g visited self].
  cbn [Search.as_nodes Search.as_g_x] in *.
  unfold Search.astar_child.
  cbn [Search.as_nodes Search.as_g_x Search.as_visited Search.as_self].
  assert (Hgb : Search.g_get g b = Ok (g_of g (Board.state b))).
  { unfold Search.g_get. rewrite (g_of_lookup g _ HB). reflexivity. }
  rewrite Hgb, bind_Ok.
  set (g1 := if negb (bool_decide (Board.state k ∈ dom g))
             then <[Board.state k:=100000000]> g else g).
  assert (Hd1 : forall s, is_Some (g !! s) -> is_Some (g1 !! s)).
  { intros s Hs. unfold g1. destruct (bool_decide (Board.state k ∈ dom g));
      cbn [negb]; [exact Hs|].
    apply lookup_insert_is_Some'. right. exact Hs. }
  assert (HY1 : is_Some (g1 !! Board.state k)).
  { unfold g1. destruct (bool_decide (Board.state k ∈ dom g)) eqn:E; cbn [negb].
    - apply bool_decide_eq_true in E. apply elem_of_dom in E. exact E.
    - apply lookup_insert_is_Some'. left. reflexivity. }
  assert (Hgk : Search.g_get g1 k = Ok (g_of g1 (Board.state k))).
  { unfold Search.g_get. rewrite (g_of_lookup g1 _ HY1). reflexivity. }
  rewrite Hgk, bind_Ok.
  destruct (1 + g_of g (Board.state b) <? g_of g1 (Board.state k)).
  - destruct (heuristic_value self k) as (k' & Hh & Hsame); [|exact Hv|].
    { destruct Hun as (Hsq & Hn & _). split; [exact Hsq|]. split; [exact Hn|].
      split; left; assumption. }
    rewrite Hh, bind_Ok. cbn [fst snd from_option]. unfold id.
    pose proof Hsame as (Hst' & Hpar' & _).
    unfold Search.g_get. rewrite Hst', lookup_insert_eq, bind_Ok.
    set (g2 := <[Board.state k:=1 + g_of g (Board.state b)]> g1).
    assert (Hd2 : forall s, is_Some (g !! s) -> is_Some (g2 !! s)).
    { intros s Hs. apply lookup_insert_is_Some'. right. apply Hd1, Hs. }
    assert (Hnew : as_safe s0 g2
                     (h_of (Search.heuristic self) (Board.state k)
                      + (1 + g_of g (Board.state b)), k')).
    { split; [|cbn [snd]; rewrite Hst'; apply lookup_insert_is_Some'; left; reflexivity].
      split; [eapply same_node_unexpanded; eassumption|]. cbn [snd].
      split; [rewrite Hst'; exact Hv|].
      apply (legal_chain_same s0 k' k); [symmetry; exact Hst'|symmetry; exact Hpar'|exact Hl]. }
    match goal with |- context [bool_decide ?P] => destruct (bool_decide P) end;
      cbn [negb]; (eexists; split; [reflexivity|]);
      (split; [|apply Hd2, HB]);
      cbn [Search.as_nodes Search.as_g_x]; fold g2.
    + eapply as_safe_mono; eassumption.
    + rewrite push_perm. constructor; [exact Hnew|].
      eapply as_safe_mono; eassumption.
  - eexists. split; [reflexivity|]. split; [|apply Hd1, HB].
    cbn [Search.as_nodes Search.as_g_x]. eapply as_safe_mono; eassumption.
Qed.

Lemma astar_children_safe (b : Board.t) (kids : list Board.t)
    (st : Search.as_state) :
  as_safe_state s0 b st ->
  (forall k, k ∈ kids ->
     unexpanded 3 k /\ valid3 (Board.state k) /\ legal_chain s0 k /\
     Board.m_dist k = -1 /\ Board.m_tile_count k = -1) ->
  exists st', for_ kids (Search.astar_child Board.cls0 b) st = Ok st' /\
    as_safe_state s0 b st'.
Proof.
  revert st. induction kids as [|k kids IH]; intros st Hst Hkids.
  - exists st. split; [reflexivity|exact Hst].
  - destruct (Hkids k) as (H1 & H2 & H3 & H4 & H5); [left|].
    destruct (astar_child_safe b k st Hst H1 H2 H3 H4 H5) as (st1 & Hst1 & Hsafe1).
    destruct (IH st1 Hsafe1) as (st' & Hfor & Hsafe').
    { intros k' Hk'. apply Hkids. right. exact Hk'. }
    exists st'. split; [cbn [for_]; rewrite Hst1, bind_Ok; exact Hfor|exact Hsafe'].
Qed.

Lemma astar_body_safe (st : Search.as_state) :
  Forall (as_safe s0 (Search.as_g_x st)) (Search.as_nodes st) ->
  Search.as_nodes st <> [] ->
  (exists b, Search.astar_body Board.cls0 st = Ok (inr b) /\
     Board.state b = Board.final Board.cls0 /\ legal_chain s0 b) \/
  (exists st', Search.astar_body Board.cls0 st = Ok (inl st') /\
     Forall (as_safe s0 (Search.as_g_x st')) (Search.as_nodes st')).
Proof.
  intros Hall Hne. destruct (pop_nonempty _ Hne) as ([c b] & rest & Hpop).
  pose proof (pop_perm _ _ _ Hpop) as Hperm. rewrite Hperm in Hall.
  apply Forall_cons in Hall as [[(Hun & Hv & Hl) HB] Hrest]. cbn [snd] in *.
  unfold Search.astar_body. rewrite Hpop, bind_Ok. unfold Board.is_final_state.
  destruct (bool_decide (Board.state b = Board.final Board.cls0)) eqn:Hfin.
  { apply bool_decide_eq_true in Hfin. left. exists b. auto. }
  right. destruct (children_safe s0 b None Hun Hv Hl) as (kids & b' & Hgen & Hkids).
  unfold Search.expand. rewrite Hgen, bind_Ok. cbn [fst].
  destruct (astar_children_safe b kids
              (Search.mkas rest (Search.as_g_x st) (Search.as_visited st)
                 (Search.set_count_nodes_expanded (Search.as_self st)
                    (Search.count_nodes_expanded (Search.as_self st) + 1))))
    as (st' & Hfor & Hsafe & _).
  { split; [exact Hrest|exact HB]. }
  { exact Hkids. }
  rewrite Hfor, bind_Ok. eexists. split; [reflexivity|]. exact Hsafe.
Qed.

Lemma astar_loop_sound (fuel : nat) (st : Search.as_state) :
  Forall (as_safe s0 (Search.as_g_x st)) (Search.as_nodes st) ->
  sound_result s0 (Search.astar_loop Board.cls0 fuel st).
Proof.
  revert st. induction fuel as [|fuel IH]; intros st Hall; [exact I|].
  cbn [Search.astar_loop].
  destruct (Z.gtb_spec (len (Search.as_nodes st)) 0) as [Hlen|Hlen]; [|exact I].
  assert (Hne : Search.as_nodes st <> []).
  { intros H. rewrite H in Hlen. unfold len in Hlen. cbn [length] in Hlen. lia. }
  destruct (astar_body_safe st Hall Hne) as [(b & -> & Hf & Hl)|(st' & -> & Hall')].
  - apply safe_sound; assumption.
  - apply IH, Hall'.
Qed.

End SoundAStar.

Lemma astar_run_sound (self : Search.t) (fuel : nat) :
  valid3 (Search.initial_state self) ->
  sound_result (Search.initial_state self)
    (Search.astar_search Board.cls0 fuel self).
Proof.
  intros Hv. unfold Search.astar_search, Search.astar_start.
  destruct (root_safe _ Hv) as (root & -> & Hsafe & Hst). rewrite bind_Ok.
  apply astar_loop_sound. cbn [Search.as_nodes Search.as_g_x]. rewrite push_first.
  constructor; [|constructor]. split; [exact Hsafe|].
  cbn [snd]. rewrite lookup_insert_eq. eauto.
Qed.

(** X14: A* on a valid 3 by 3 board, solvable or not, with any heuristic
    and for any number of turns, raises no exception (every board it looks
    up in [g_x] is a key), and a board it returns is the goal, with a parent
    chain that starts at the initial board, ends at the goal and goes from
    each board to the next by one move. *)
Theorem astar_search_sound (self : Search.t) (fuel : nat) :
  valid3 (Search.initial_state self) ->
  sound_result (Search.initial_state self)
    (Search.astar_search Board.cls0 fuel self).
Proof. apply astar_run_sound. Qed.

Lemma astar_search_sound_witness :
  sound_result start_1
    (Search.astar_search Board.cls0 4
       (Search.mk Search.A_STAR Search.MISPLACED_TILE start_1 0 0 0)).
Proof.
  exact (astar_search_sound
           (Search.mk Search.A_STAR Search.MISPLACED_TILE start_1 0 0 0) 4
           start_1_valid).
Defined.

(** The board that [search] returns is the one its algorithm returned. *)
Lemma search_run (fuel : nat) (self : Search.t) (b : Board.t) (self' : Search.t)
    (rep : Search.report) :
  Search.search Board.cls0 fuel self = Some (Ok (Some b, self', rep)) ->
  Search.algorithm self = Search.UNIFORM_COST \/
  Search.algorithm self = Search.A_STAR ->
  let self0 := Search.mk (Search.algorithm self) (Search.heuristic self)
                 (Search.initial_state self) 0 0 0 in
  exists self1,
    Search.uc_search Board.cls0 fuel self0 = Some (Ok (Some b, self1)) \/
    Search.astar_search Board.cls0 fuel self0 = Some (Ok (Some b, self1)).
Proof.
  intros H Halg self0. revert H. unfold Search.search. fold self0.
  cbn [Search.algorithm self0].
  destruct Halg as [-> | ->];
    change (Search.UNIFORM_COST =? Search.UNIFORM_COST) with true;
    change (Search.A_STAR =? Search.UNIFORM_COST) with false;
    change (Search.A_STAR =? Search.A_STAR) with true; cbn iota.
  - destruct (Search.uc_search _ _ _) as [[[ob self1]|e]|]; try discriminate.
    destruct ob as [b0|]; cbn [Search.print_search_stats]; intros [= <- _ _].
    exists self1. left. reflexivity.
  - destruct (Search.astar_search _ _ _) as [[[ob self1]|e]|]; try discriminate.
    destruct ob as [b0|]; cbn [Search.print_search_stats]; intros [= <- _ _].
    exists self1. right. reflexivity.
Qed.

(** X15: when [search] has found the goal of a valid 3 by 3 board [k] moves
    away at least, [print_board_from_initial_state] on the board returned
    prints the rows of [k + 1] boards: the initial board first, the goal
    last, each one move away from the one before, that is, a shortest
    solution. *)
Theorem search_prints_shortest_solution (self : Search.t) (k : Z) :
  valid3 (Search.initial_state self) ->
  shortest (Search.initial_state self) k (Board.final Board.cls0) ->
  Search.algorithm self = Search.UNIFORM_COST \/
  Search.algorithm self = Search.A_STAR ->
  exists fuel b self' n q path,
    (forall fuel', (fuel <= fuel')%nat ->
       Search.search Board.cls0 fuel' self
       = Some (Ok (Some b, self', Search.Solved k n q))) /\
    Board.print_board_from_initial_state (Some b) = concat path /\
    len path = k + 1 /\
    head path = Some (Search.initial_state self) /\
    last path = Some (Board.final Board.cls0) /\
    legal_path path.
Proof.
  intros Hv Hs Halg.
  destruct (search_optimal _ k Hv Hs self eq_refl Halg)
    as (fuel & b & self' & n & q & Hrun & Hb & Hl).
  exists fuel, b, self', n, q, (chain b). split; [exact Hrun|].
  split; [apply print_chain|]. split; [rewrite chain_length; lia|].
  destruct (search_run fuel self b self' _ (Hrun fuel (le_n _)) Halg) as [self1 Hcase].
  assert (Hsound : sound_result (Search.initial_state self)
                     (Some (Ok (Some b, self1)))).
  { destruct Hcase as [H|H]; rewrite <- H.
    - apply (uc_run_sound (Search.mk (Search.algorithm self) (Search.heuristic self)
                             (Search.initial_state self) 0 0 0) fuel Hv).
    - apply (astar_run_sound (Search.mk (Search.algorithm self) (Search.heuristic self)
                                (Search.initial_state self) 0 0 0) fuel Hv). }
  cbn [sound_result] in Hsound. destruct Hsound as (_ & H1 & H2 & H3). auto.
Qed.

Lemma search_prints_shortest_solution_witness :
  exists fuel b self' n q path,
    (forall fuel', (fuel <= fuel')%nat ->
       Search.search Board.cls0 fuel'
         (Search.mk Search.UNIFORM_COST 0 start_1 0 0 0)
       = Some (Ok (Some b, self', Search.Solved 1 n q))) /\
    Board.print_board_from_initial_state (Some b) = concat path /\
    len path = 1 + 1 /\
    head path = Some start_1 /\
    last path = Some (Board.final Board.cls0) /\
    legal_path path.
Proof.
  exact (search_prints_shortest_solution
           (Search.mk Search.UNIFORM_COST 0 start_1 0 0 0) 1
           start_1_valid start_1_shortest (or_introl eq_refl)).
Defined.

(** ** Boards of other sizes *)

Lemma getitem2_raises {A} (g : list (list A)) (r c : Z) :
  (exists x, getitem2 g r c = Ok x) \/ getitem2 g r c = Raise IndexError.
Proof.
  unfold getitem2. destruct (getitem_raises g r) as [[row ->]| ->];
    [|right; reflexivity].
  rewrite bind_Ok. apply getitem_raises.
Qed.

(** The goal grid of the class has no cell outside its 3 by 3 block. *)
Lemma final_outside (r c : Z) :
  0 <= r -> 0 <= c -> 3 <= r \/ 3 <= c ->
  getitem2 (Board.final Board.cls0) r c = Raise IndexError.
Proof.
  intros Hr Hc Hout. unfold getitem2.
  destruct (Z.ltb_spec r 3) as [Hlt|Hge].
  - assert (Hcase : r = 0 \/ r = 1 \/ r = 2) by lia.
    assert (Hrow : forall x y z : Z, getitem [x; y; z] c = Raise IndexError).
    { intros x y z. unfold getitem, index.
      destruct (Z.ltb_spec c 0); [lia|].
      destruct (Z.ltb_spec c (len [x; y; z])); [unfold len in *; cbn [length] in *; lia|].
      rewrite andb_false_r. reflexivity. }
    destruct Hcase as [->|[->| ->]]; cbn; apply Hrow.
  - unfold getitem, index. destruct (Z.ltb_spec r 0); [lia|].
    destruct (Z.ltb_spec r (len (Board.final Board.cls0)));
      [unfold len in *; cbn [length Board.final Board.cls0] in *; lia|].
    rewrite andb_false_r. reflexivity.
Qed.

(** X16: [misplaced_tile] compares with the 3 by 3 goal grid of the class
    whatever the size of the board: on a square board that holds a tile in
    a row or a column beyond the third, the first call raises
    [IndexError]. *)
Theorem misplaced_tile_beyond_3_raises (n : Z) (b : Board.t) (r c v : Z) :
  square n (Board.state b) -> Board.board_size b = n ->
  Board.m_tile_count b = -1 ->
  cell (Board.state b) (r, c) = Some v -> v <> 0 -> 3 <= r \/ 3 <= c ->
  Board.misplaced_tile Board.cls0 b = Raise IndexError.
Proof.
  intros Hsq Hn Hm Hcell Hv Hout.
  pose proof (cell_in_bounds n _ _ _ Hsq Hcell) as [Hr Hc]. cbn [fst snd] in Hr, Hc.
  unfold Board.misplaced_tile. rewrite Hm, Hn. cbn [Z.eqb negb].
  set (inner := fun (row : Z) (m col : Z) =>
         v0 ← getitem2 (Board.state b) row col;
         (if negb (v0 =? 0)
          then v' ← getitem2 (Board.state b) row col;
               f ← getitem2 (Board.final Board.cls0) row col;
               Ok (if negb (v' =? f) then m + 1 else m)
          else Ok m)).
  assert (Hbody : forall row m col,
            (exists m', inner row m col = Ok m') \/ inner row m col = Raise IndexError).
  { intros row m col. unfold inner.
    destruct (getitem2_raises (Board.state b) row col) as [[v0 ->]| ->];
      [|right; reflexivity].
    rewrite bind_Ok. destruct (negb (v0 =? 0)); [|left; eauto]. rewrite bind_Ok.
    destruct (getitem2_raises (Board.final Board.cls0) row col) as [[f ->]| ->];
      [left; rewrite bind_Ok; eauto|right; reflexivity]. }
  rewrite (for_raises_at (range 0 n) _ 0 IndexError r).
  - reflexivity.
  - apply in_range. lia.
  - intros m. apply (for_raises_at _ (inner r) m IndexError c).
    + apply in_range. lia.
    + intros a. unfold inner. rewrite (cell_getitem2 _ _ _ _ Hcell), bind_Ok.
      destruct (Z.eqb_spec v 0) as [|_]; [contradiction|]. cbn [negb].
      rewrite bind_Ok, final_outside by lia. reflexivity.
    + intros a col _. apply Hbody.
  - intros m row _. apply (for_raises (range 0 n) (inner row) m IndexError).
    intros a col _. apply Hbody.
Qed.

Lemma misplaced_tile_beyond_3_raises_witness :
  Board.misplaced_tile Board.cls0 board_4x4 = Raise IndexError.
Proof.
  assert (H1 : square 4 (Board.state board_4x4))
    by (split; [reflexivity|repeat constructor]).
  assert (H2 : 4 <> 0) by lia.
  assert (H3 : 3 <= 0 \/ 3 <= 3) by lia.
  exact (misplaced_tile_beyond_3_raises 4 board_4x4 0 3 4 H1 eq_refl eq_refl eq_refl
           H2 H3).
Defined.

Lemma kids_unexpanded (n : Z) (b b' : Board.t) (visited : option (gset Board.grid))
    (kids : list Board.t) :
  unexpanded n b -> Board.generate_children b visited = Ok (kids, b') ->
  Forall (unexpanded n) kids.
Proof.
  intros Hun Hgen. pose proof Hun as (Hsq & Hn & _).
  destruct (generate_children_ok n b visited Hun) as (kids' & b'' & Hgen' & Hkids).
  rewrite Hgen in Hgen'. injection Hgen' as <- <-.
  apply Forall_forall. intros k Hk.
  destruct (Forall2_in_r _ _ _ _ Hkids Hk) as (s & Hs & p & er & ec & -> & _ & _ & Hcell).
  apply filter_In in Hs as [Hs _]. apply in_map_iff in Hs as (q & <- & _).
  split; [apply square_swap, Hsq|]. cbn [Board.board_size Board.children
    Board.valid_positions Board.state Board.empty_row Board.empty_col].
  auto.
Qed.

Lemma not_final (n : Z) (b : Board.t) :
  unexpanded n b -> n <> 3 -> Board.is_final_state Board.cls0 b = false.
Proof.
  intros ([Hlen _] & _) Hn. unfold Board.is_final_state.
  apply bool_decide_eq_false. intros Heq. rewrite Heq in Hlen.
  apply Hn. symmetry. exact Hlen.
Qed.

Section OtherSizes.

Variable n : Z.
Hypothesis not_3 : n <> 3.

Lemma uc_body_no_goal (st : Search.uc_state) :
  Forall (fun e : Search.entry => unexpanded n e.2) (Search.uc_nodes st) ->
  match Search.uc_body Board.cls0 st with
  | Ok (inr _) => False
  | Ok (inl st') =>
      Forall (fun e : Search.entry => unexpanded n e.2) (Search.uc_nodes st')
  | Raise _ => True
  end.
Proof.
  intros Hall. unfold Search.uc_body.
  destruct (Search.heappop (Search.uc_nodes st)) as [[[c b] rest]|e] eqn:Hpop;
    [|exact I].
  rewrite bind_Ok. rewrite (pop_perm _ _ _ Hpop) in Hall.
  apply Forall_cons in Hall as [Hun Hrest]. cbn [snd] in Hun.
  rewrite (not_final n b Hun not_3). unfold Search.expand.
  destruct (Board.generate_children b _) as [[kids b']|e] eqn:Hgen; [|exact I].
  rewrite bind_Ok. cbn [fst Search.uc_nodes].
  rewrite fold_push_perm. apply Forall_app. split; [|exact Hrest].
  apply Forall_map. exact (kids_unexpanded n b b' _ kids Hun Hgen).
Qed.

Lemma uc_loop_no_goal (fuel : nat) (st : Search.uc_state) :
  Forall (fun e : Search.entry => unexpanded n e.2) (Search.uc_nodes st) ->
  no_board (Search.uc_loop Board.cls0 fuel st).
Proof.
  revert st. induction fuel as [|fuel IH]; intros st Hall; [exact I|].
  cbn [Search.uc_loop]. destruct (len (Search.uc_nodes st) >? 0); [|exact I].
  pose proof (uc_body_no_goal st Hall) as Hbody.
  destruct (Search.uc_body Board.cls0 st) as [[st'|b]|e];
    [apply IH, Hbody|contradiction|exact I].
Qed.

Lemma astar_child_unexpanded (b k : Board.t) (st st' : Search.as_state) :
  Forall (fun e : Search.entry => unexpanded n e.2) (Search.as_nodes st) ->
  unexpanded n k -> Search.astar_child Board.cls0 b st k = Ok st' ->
  Forall (fun e : Search.entry => unexpanded n e.2) (Search.as_nodes st').
Proof.
  intros Hall Hun. unfold Search.astar_child.
  destruct (Search.g_get (Search.as_g_x st) b) as [gb|e]; [|discriminate].
  rewrite bind_Ok.
  destruct (Search.g_get _ k) as [gc|e]; [|discriminate]. rewrite bind_Ok.
  destruct (1 + gb <? gc); [|intros [= <-]; exact Hall].
  destruct (Search.get_heuristic_cost Board.cls0 (Search.as_self st) (Some k))
    as [[h r]|e] eqn:Hh; [|discriminate].
  rewrite bind_Ok. cbn [fst snd].
  destruct (heuristic_fields _ _ _ _ _ Hh) as (k' & -> & Hk').
  cbn [from_option]. unfold id.
  destruct (Search.g_get _ k') as [gc'|e]; [|discriminate]. rewrite bind_Ok.
  assert (Hun' : unexpanded n k').
  { destruct Hk' as [[m ->]|[[m ->]| ->]]; exact Hun. }
  destruct (negb (bool_decide _)); intros [= <-]; cbn [Search.as_nodes];
    [|exact Hall].
  rewrite push_perm. constructor; [exact Hun'|exact Hall].
Qed.

Lemma astar_children_unexpanded (b : Board.t) (kids : list Board.t)
    (st st' : Search.as_state) :
  Forall (fun e : Search.entry => unexpanded n e.2) (Search.as_nodes st) ->
  Forall (unexpanded n) kids ->
  for_ kids (Search.astar_child Board.cls0 b) st = Ok st' ->
  Forall (fun e : Search.entry => unexpanded n e.2) (Search.as_nodes st').
Proof.
  revert st. induction kids as [|k kids IH]; intros st Hall Hkids; cbn [for_].
  - intros [= <-]. exact Hall.
  - apply Forall_cons in Hkids as [Hk Hkids].
    destruct (Search.astar_child Board.cls0 b st k) as [st1|e] eqn:Hst1;
      [|discriminate].
    rewrite bind_Ok. apply IH; [|exact Hkids].
    exact (astar_child_unexpanded b k st st1 Hall Hk Hst1).
Qed.

Lemma astar_body_no_goal (st : Search.as_state) :
  Forall (fun e : Search.entry => unexpanded n e.2) (Search.as_nodes st) ->
  match Search.astar_body Board.cls0 st with
  | Ok (inr _) => False
  | Ok (inl st') =>
      Forall (fun e : Search.entry => unexpanded n e.2) (Search.as_nodes st')
  | Raise _ => True
  end.
Proof.
  intros Hall. unfold Search.astar_body.
  destruct (Search.heappop (Search.as_nodes st)) as [[[c b] rest]|e] eqn:Hpop;
    [|exact I].
  rewrite bind_Ok. rewrite (pop_perm _ _ _ Hpop) in Hall.
  apply Forall_cons in Hall as [Hun Hrest]. cbn [snd] in Hun.
  rewrite (not_final n b Hun not_3). unfold Search.expand.
  destruct (Board.generate_children b None) as [[kids b']|e] eqn:Hgen; [|exact I].
  rewrite bind_Ok. cbn [fst].
  destruct (for_ kids _ _) as [st'|e] eqn:Hfor; [|exact I].
  rewrite bind_Ok. cbn [Search.as_nodes].
  eapply (astar_children_unexpanded b kids _ st'); [|exact (kids_unexpanded n b b' None kids Hun Hgen)|exact Hfor].
  exact Hrest.
Qed.

Lemma astar_loop_no_goal (fuel : nat) (st : Search.as_state) :
  Forall (fun e : Search.entry => unexpanded n e.2) (Search.as_nodes st) ->
  no_board (Search.astar_loop Board.cls0 fuel st).
Proof.
  revert st. induction fuel as [|fuel IH]; intros st Hall; [exact I|].
  cbn [Search.astar_loop]. destruct (len (Search.as_nodes st) >? 0); [|exact I].
  pose proof (astar_body_no_goal st Hall) as Hbody.
  destruct (Search.astar_body Board.cls0 st) as [[st'|b]|e];
    [apply IH, Hbody|contradiction|exact I].
Qed.

End OtherSizes.

(** X17: the goal test compares with the 3 by 3 grid [Board.final]: on a
    square board of any other dimension that holds a blank, neither search
    ever returns a board, however many turns it runs, be the board its own
    goal arrangement or not. *)
Theorem other_sizes_never_solved (n : Z) (self : Search.t) (fuel : nat) :
  square n (Search.initial_state self) -> n <> 3 ->
  (exists p, cell (Search.initial_state self) p = Some 0) ->
  no_board (Search.uc_search Board.cls0 fuel self) /\
  no_board (Search.astar_search Board.cls0 fuel self).
Proof.
  intros Hsq Hn [p0 Hp0].
  destruct (init_square n _ None Hsq) as (er & ec & Hinit & Hcase).
  destruct Hcase as [Hcell|Hno]; [|exfalso; apply (Hno p0), Hp0].
  assert (Hroot : unexpanded n
            (Board.mk (Search.initial_state self) [] n None (-1) (-1) 0 0 er ec []))
    by (split; [exact Hsq|]; repeat split; exact Hcell).
  split.
  - unfold Search.uc_search, Search.uc_start. rewrite Hinit, bind_Ok.
    apply (uc_loop_no_goal n Hn). cbn [Search.uc_nodes]. rewrite push_first.
    constructor; [exact Hroot|constructor].
  - unfold Search.astar_search, Search.astar_start. rewrite Hinit, bind_Ok.
    apply (astar_loop_no_goal n Hn). cbn [Search.as_nodes]. rewrite push_first.
    constructor; [exact Hroot|constructor].
Qed.

Lemma other_sizes_never_solved_witness :
  no_board (Search.uc_search Board.cls0 3
              (Search.mk Search.UNIFORM_COST 0 goal_2x2 0 0 0)) /\
  no_board (Search.astar_search Board.cls0 3
              (Search.mk Search.UNIFORM_COST 0 goal_2x2 0 0 0)).
Proof.
  assert (H1 : square 2 goal_2x2) by (split; [reflexivity|repeat constructor]).
  assert (H2 : 2 <> 3) by lia.
  assert (H3 : exists p, cell goal_2x2 p = Some 0) by (exists (1, 1); reflexivity).
  exact (other_sizes_never_solved 2 (Search.mk Search.UNIFORM_COST 0 goal_2x2 0 0 0) 3
           H1 H2 H3).
Defined.

